(** * FuseSoC command-line front end (fusesoc/main.py)

    A shallow embedding of the orchestration layer of FuseSoC: the
    sub-command handlers, [run_backend], [_get_core], the root
    registration loop of [run] and the construction of the argument parser
    in [main].  Python's exceptions, [exit], logging and the calls to the
    collaborators ([CoreManager], [Config], the EDA backends) are explicit:
    a program is a function from a state to a state and an outcome. *)

From stdpp Require Import gmap strings list pretty sorting.
From Stdlib Require Import Ascii ZArith.

Local Open Scope string_scope.
Local Open Scope list_scope.
Local Open Scope Z_scope.

(** ** Python values and exceptions *)

(** A [flags] dictionary maps string keys to a string or to [None]. *)
Abbreviation dict := (gmap string (option string)).

(** Dictionaries live in a store and are passed by reference. *)
Definition loc := positive.

(** The values that cross the positional call boundary of [run_backend]. *)
Inductive pyval :=
| PNone
| PBool (b : bool)
| PStr (s : string)
| PList (l : list string)
| PRef (l : loc).

(** Python truthiness, as tested by [if x] and [not x]. *)
Definition truthy (v : pyval) : bool :=
  match v with
  | PNone => false
  | PBool b => b
  | PStr s => negb (String.eqb s "")
  | PList l => negb (Nat.eqb (length l) 0)
  | PRef _ => true
  end.

(** [not tool] for a tool that is a string or [None]. *)
Definition no_tool (tool : option string) : bool :=
  negb (truthy (from_option PStr PNone tool)).

(** The exception classes that main.py raises, catches or lets through.
    Modelled from the spec: the classes are declared outside main.py
    ([DependencyError] in fusesoc.coremanager); the error taxonomy lists the
    dependency error as a failure of its own, so it is not a [RuntimeError],
    and it carries the unresolved identity ([value]) and a message ([msg]). *)
Inductive exn :=
| RuntimeError (msg : string)
| IOError (msg : string)
| DependencyError (value msg : string)
| SyntaxError (msg : string)
| ImportError (msg : string)
| TypeError (msg : string)
| NameError (msg : string)
| UnboundLocalError (msg : string)
| OtherException (cls msg : string).

(** [str(e)] for the classes whose text main.py logs. *)
Definition exn_str (e : exn) : string :=
  match e with
  | RuntimeError m | IOError m | SyntaxError m | ImportError m
  | TypeError m | NameError m | UnboundLocalError m | OtherException _ m => m
  | DependencyError v _ => "'" +:+ v +:+ "'"
  end.

(** What a collaborator call gives back: a value or a raised exception. *)
Inductive result (A : Type) :=
| Ok (a : A)
| Err (e : exn).
Arguments Ok {A} a.
Arguments Err {A} e.

(** What a piece of main.py does: return, raise, or leave through
    [exit(code)]. *)
Inductive outcome (A : Type) :=
| Ret (a : A)
| Raise (e : exn)
| Exit (code : Z).
Arguments Ret {A} a.
Arguments Raise {A} e.
Arguments Exit {A} code.

Inductive level := DEBUG | INFO | WARNING | ERROR.

(** ** String helpers of the Python runtime *)

Definition upper_ascii (c : ascii) : ascii :=
  let n := nat_of_ascii c in
  if (97 <=? n)%nat && (n <=? 122)%nat then ascii_of_nat (n - 32) else c.

Definition lower_ascii (c : ascii) : ascii :=
  let n := nat_of_ascii c in
  if (65 <=? n)%nat && (n <=? 90)%nat then ascii_of_nat (n + 32) else c.

Fixpoint lower (s : string) : string :=
  match s with
  | EmptyString => EmptyString
  | String c r => String (lower_ascii c) (lower r)
  end.

(** [str.capitalize] on ASCII text. *)
Definition capitalize (s : string) : string :=
  match s with
  | EmptyString => EmptyString
  | String c r => String (upper_ascii c) (lower r)
  end.

(** [s.split(sep)] for a one-character separator: the fields between the
    separators, empty fields included; [acc] is the field being read, in
    reverse. *)
Fixpoint split_at (sep : ascii) (acc : string) (s : string) : list string :=
  match s with
  | EmptyString => [String.rev acc]
  | String c r =>
      if Ascii.eqb c sep then String.rev acc :: split_at sep EmptyString r
      else split_at sep (String c acc) r
  end.

Definition split (sep : ascii) (s : string) : list string :=
  split_at sep EmptyString s.

(** The line feed and the double quote, which string literals cannot hold. *)
Definition nl : string := String (ascii_of_nat 10) EmptyString.
Definition dq : string := String (ascii_of_nat 34) EmptyString.

(** [template.format(arg)] for a template with one plain [{}] field. *)
Fixpoint format (template arg : string) : string :=
  match template with
  | EmptyString => EmptyString
  | String c r =>
      match r with
      | String c' r' =>
          if Ascii.eqb c "{" && Ascii.eqb c' "}" then arg +:+ r'
          else String c (format r arg)
      | EmptyString => String c EmptyString
      end
  end.

(** Python's positional binding of a call [fname(args)] to parameters
    without defaults: one argument per parameter, or a TypeError that names
    the parameters left without one. *)
Fixpoint quote_more (names : list string) : string :=
  match names with
  | [] => ""
  | [n] => "and '" +:+ n +:+ "'"
  | n :: rest => "'" +:+ n +:+ "', " +:+ quote_more rest
  end.

Definition quote_names (names : list string) : string :=
  match names with
  | [] => ""
  | [n] => "'" +:+ n +:+ "'"
  | [n; m] => "'" +:+ n +:+ "' and '" +:+ m +:+ "'"
  | _ => quote_more names
  end.

Definition bind_positional (fname : string) (params : list string)
    (args : list pyval) : result (list (string * pyval)) :=
  let np := length params in
  let na := length args in
  if (na <? np)%nat then
    Err (TypeError (fname +:+ "() missing " +:+ pretty (np - na)%nat +:+
                    " required positional argument" +:+
                    (if (np - na =? 1)%nat then "" else "s") +:+ ": " +:+
                    quote_names (drop na params)))
  else if (np <? na)%nat then
    Err (TypeError (fname +:+ "() takes " +:+ pretty np +:+
                    " positional arguments but " +:+ pretty na +:+ " were given"))
  else Ok (zip params args).

(** [sub] occurs in [s]. *)
Definition contains (s sub : string) : Prop :=
  ∃ pre post, s = pre +:+ sub +:+ post.

(** ** Parsed command lines *)

(** The sub-commands that [main] registers with [set_defaults(func=...)]. *)
Inductive command :=
| CmdBuild | CmdInit | CmdPgm | CmdFetch | CmdListSystems | CmdListCores
| CmdCoreInfo | CmdListPaths | CmdRunFlow | CmdSim | CmdUpdate.

#[global] Instance command_eq_dec : EqDecision command.
Proof. solve_decision. Defined.

(** The [argparse] namespace handed to [run] and to the handlers: the
    global options and the options of the sub-commands.  [--cores-root] is
    an [append] option: [None] unless it was given. *)
Module args.
Record t := mk {
  cores_root : option (list string);
  force32 : bool;                    (* vars(args)['32'] *)
  force64 : bool;                    (* vars(args)['64'] *)
  monochrome : bool;
  verbose : bool;
  no_export : bool;
  setup : bool;
  build : bool;
  launch : bool;
  build_only : bool;
  keep : bool;
  target : option string;
  testbench : option string;
  sim : option string;
  tool : string;
  system : string;
  core : string;
  backendargs : list string;
}.
End args.

(** ** The objects [main] builds with [argparse] *)

(** A parser with the arguments added to it, its [set_defaults(func=...)]
    and its sub-parser group; a sub-parser group with its named parsers.
    Objects are referred to by their index in the object table. *)
Inductive pobj :=
| ParserObj (arguments : list string) (defaults : option command)
            (subparsers : option nat)
| SubparsersObj (choices : list (string * nat)).

(** The statements of the body of [main]. *)
Inductive stmt :=
| ArgumentParser (dst : string)                 (* dst = argparse.ArgumentParser() *)
| Add_subparsers (dst p : string)               (* dst = p.add_subparsers() *)
| Add_argument (p flag : string)                (* p.add_argument(flag, ...) *)
| Add_parser (dst sub name : string)            (* dst = sub.add_parser(name, ...) *)
| Set_defaults (p : string) (func : command)    (* p.set_defaults(func=func) *)
| Parse_and_run (p : string).                   (* lines 475-479 *)

#[global] Instance stmt_eq_dec : EqDecision stmt.
Proof. solve_decision. Defined.

(** The names a statement assigns: these are the local variables of the
    function. *)
Definition assigns (st : stmt) : list string :=
  match st with
  | ArgumentParser dst | Add_subparsers dst _ | Add_parser dst _ _ => [dst]
  | Parse_and_run _ => ["parsed_args"]
  | _ => []
  end.

(** ** The collaborators of main.py

    Everything main.py calls but does not define: [CoreManager], [Config],
    core objects, the EDA backends found by [importlib], the platform.
    Each call reads and updates an opaque world [W] and returns a value or
    raises. *)
Class Env := {
  W : Type;
  Core : Type;
  Name : Type;
  EdaApi : Type;
  PyModule : Type;
  BackendClass : Type;
  Backend : Type;
  (* CoreManager().get_core(Vlnv(name)) *)
  cm_get_core : string → W → W * result Core;
  (* core.name, core.name.sanitized_name, str(core.name) *)
  core_name : Core → Name;
  sanitized_name : Name → string;
  name_str : Name → string;
  (* core.get_tool(flags) *)
  core_get_tool : Core → dict → W → W * result (option string);
  (* core.setup(), core.info() *)
  core_dot_setup : Core → W → W * result unit;
  core_dot_info : Core → W → W * result string;
  (* Config().build_root *)
  config_build_root : W → W * result string;
  (* Config().cores_root, Config().systems_root *)
  config_cores_root : W → W * result pyval;
  config_systems_root : W → W * result pyval;
  (* os.path.join *)
  path_join : list string → string;
  (* CoreManager().get_eda_api(name, flags, export_root) *)
  cm_get_eda_api : Name → dict → option string → W → W * result EdaApi;
  (* CoreManager().setup(name, flags, export=, export_root=) *)
  cm_setup : Name → dict → bool → option string → W → W * result unit;
  (* CoreManager().add_cores_root(group) *)
  cm_add_cores_root : pyval → W → W * result unit;
  (* importlib.import_module(modname), getattr(module, attr) *)
  import_module : string → W → W * result PyModule;
  module_getattr : PyModule → string → W → W * result BackendClass;
  (* cls(eda_api=..., work_root=...) *)
  backend_new : BackendClass → EdaApi → string → W → W * result Backend;
  (* the three operations of a backend *)
  backend_configure : Backend → list string → W → W * result unit;
  backend_build : Backend → W → W * result unit;
  backend_run : Backend → list string → W → W * result unit;
  (* os.getenv("FUSESOC_CORES") *)
  getenv_fusesoc_cores : W → option string;
  (* platform.architecture()[0] == '64bit' *)
  platform_is_64bit : W → bool;
  (* str(sys.argv), str(list) *)
  str_of_list : list string → string;
  sys_argv : W → list string;
  (* setup_logging(level=, monchrome=) *)
  setup_logging : level → bool → W → W * result unit;
  (* parser.parse_args(): the command and namespace parsed from sys.argv,
     or no command (a namespace without func) *)
  parse_args : list pobj → nat → list string → W → W * result (option (command * args.t));
  (* parser.print_help() *)
  print_help : list pobj → nat → string;
  (* the handlers init, list-paths, list-cores, list-systems and update,
     which no property below looks into *)
  other_command : command → args.t → W → W * result unit;
}.

(** The calls main.py makes to its collaborators. *)
Inductive callee :=
| CallGetCore (name : string)
| CallGetTool (flags : dict)
| CallCoreSetup
| CallCoreInfo
| CallBuildRoot
| CallConfigCoresRoot
| CallConfigSystemsRoot
| CallGetEdaApi (flags : dict) (export_root : option string)
| CallImportModule (modname : string)
| CallGetattr (attr : string)
| CallBackendNew (work_root : string)
| CallCmSetup (flags : dict) (export : bool) (export_root : option string)
| CallAddCoresRoot (group : pyval)
| CallSetupLogging (lv : level) (monochrome : bool)
| CallOtherCommand (cmd : command)
| CallParseArgs
| BackendConfigure (args : list string)
| BackendBuild
| BackendRun (args : list string).

(** What a run leaves behind, in order: the calls with the exception each
    raised, if any, the log records and the printed lines. *)
Inductive event :=
| Called (c : callee) (raised : option exn)
| Logged (lv : level) (msg : string)
| Printed (msg : string).

#[global] Instance pyval_eq_dec : EqDecision pyval.
Proof. solve_decision. Defined.

#[global] Instance exn_eq_dec : EqDecision exn.
Proof. solve_decision. Defined.

#[global] Instance level_eq_dec : EqDecision level.
Proof. solve_decision. Defined.

#[global] Instance callee_eq_dec : EqDecision callee.
Proof. solve_decision. Defined.

#[global] Instance event_eq_dec : EqDecision event.
Proof. solve_decision. Defined.

(** The three operations of a backend. *)
Definition is_backend_op (c : callee) : bool :=
  match c with
  | BackendConfigure _ | BackendBuild | BackendRun _ => true
  | _ => false
  end.

(** The backend operations among the events, in order. *)
Fixpoint backend_ops (tr : list event) : list callee :=
  match tr with
  | [] => []
  | Called c _ :: tr' =>
      if is_backend_op c then c :: backend_ops tr' else backend_ops tr'
  | _ :: tr' => backend_ops tr'
  end.

(** The log records among the events, in order. *)
Fixpoint log_of (tr : list event) : list (level * string) :=
  match tr with
  | [] => []
  | Logged lv msg :: tr' => (lv, msg) :: log_of tr'
  | _ :: tr' => log_of tr'
  end.

Definition is_error_record (ev : event) : bool :=
  match ev with
  | Logged ERROR _ => true
  | _ => false
  end.

Section Program.
Context `{Env}.

(** ** Program state *)
Record state := mkState {
  world : W;
  heap : gmap loc dict;              (* the dictionaries, by reference *)
  trace : list event;                (* calls, log records, output *)
  archbits : option Z;               (* Config().archbits *)
}.

Definition M (A : Type) : Type := state → state * outcome A.

Definition ret {A} (a : A) : M A := λ s, (s, Ret a).

Definition bind {A B} (m : M A) (k : A → M B) : M B :=
  λ s, match m s with
       | (s', Ret a) => k a s'
       | (s', Raise e) => (s', Raise e)
       | (s', Exit c) => (s', Exit c)
       end.

Definition raise {A} (e : exn) : M A := λ s, (s, Raise e).

(** The builtin [exit(code)]: SystemExit, which no handler of main.py
    catches. *)
Definition exit {A} (code : Z) : M A := λ s, (s, Exit code).

(** [try: m except ...: h e], where [h e = None] when no except
    clause matches [e]. *)
Definition try_except {A} (m : M A) (h : exn → option (M A)) : M A :=
  λ s, match m s with
       | (s', Raise e) =>
           match h e with
           | Some k => k s'
           | None => (s', Raise e)
           end
       | r => r
       end.

Definition emit (ev : event) : M unit :=
  λ s, (mkState (world s) (heap s) (trace s ++ [ev]) (archbits s), Ret tt).

Definition logger (lv : level) (msg : string) : M unit := emit (Logged lv msg).

Definition print (msg : string) : M unit := emit (Printed msg).

Definition set_archbits (n : Z) : M unit :=
  λ s, (mkState (world s) (heap s) (trace s) (Some n), Ret tt).

(** A call to a collaborator: run on the world, and recorded with the
    exception it raised. *)
Definition call {A} (c : callee) (f : W → W * result A) : M A :=
  λ s, match f (world s) with
       | (w, Ok a) =>
           (mkState w (heap s) (trace s ++ [Called c None]) (archbits s), Ret a)
       | (w, Err e) =>
           (mkState w (heap s) (trace s ++ [Called c (Some e)]) (archbits s),
            Raise e)
       end.

Definition read_world {A} (f : W → A) : M A := λ s, (s, Ret (f (world s))).

(** A dictionary display [{...}] allocates a fresh object. *)
Definition new_dict (d : dict) : M loc :=
  λ s, let l := fresh (dom (heap s)) in
       (mkState (world s) (<[l := d]> (heap s)) (trace s) (archbits s), Ret l).

Definition read_dict (l : loc) : M dict :=
  λ s, (s, Ret (default ∅ (heap s !! l))).

(** [d[k] = v] *)
Definition setitem (l : loc) (k : string) (v : option string) : M unit :=
  λ s, (mkState (world s) (<[l := <[k := v]> (default ∅ (heap s !! l))]> (heap s))
                (trace s) (archbits s), Ret tt).

#[global] Instance M_ret : MRet M := @ret.
#[global] Instance M_bind : MBind M := λ A B k m, bind m k.

(** ** [_get_core] (main.py, lines 34-44) *)
Definition _get_core (name : string) : M Core :=
  try_except
    (call (CallGetCore name) (cm_get_core name))
    (λ e, match e with
          | RuntimeError _ =>
              Some (logger ERROR (exn_str e);; exit 1)
          | DependencyError value _ =>
              Some (logger ERROR ("'" +:+ name +:+
                      "' or any of its dependencies requires '" +:+ value +:+
                      "', but this core was not found");;
                    exit 1)
          | _ => None
          end).

(** ** [_import] (lines 46-48) *)
Definition _import (name : string) : M BackendClass :=
  module ← call (CallImportModule ("fusesoc.edatools." +:+ name))
                (import_module ("fusesoc.edatools." +:+ name));
  call (CallGetattr (capitalize name)) (module_getattr module (capitalize name)).

(** ** [run_backend] (lines 204-265) *)
Definition run_backend (tool_type : string)
    (export do_configure do_build do_run : bool)
    (flags : loc) (system : string) (backendargs : list string) : M unit :=
  let '(tool_type_short, tool_error, build_error, run_error) :=
    if String.eqb tool_type "simulator" then
      ("sim",
       "No simulator was supplied on command line or found in '{}' core description",
       "Failed to build simulation model",
       "Failed to run the simulation")
    else
      ("bld",
       "Unable to find synthesis info for '{}'",
       "Failed to build FPGA",
       "Failed to program the FPGA") in
  core ← _get_core system;
  fl ← read_dict flags;
  tool ← call (CallGetTool fl) (core_get_tool core fl);
  if no_tool tool then
    logger ERROR (format tool_error system);; exit 1
  else
  let tool := default "" tool in
  setitem flags "tool" (Some tool);;
  export_root ←
    (if export then
       build_root ← call CallBuildRoot config_build_root;
       mret (Some (path_join [build_root; sanitized_name (core_name core); "src"]))
     else mret None);
  build_root ← call CallBuildRoot config_build_root;
  let work_root :=
    path_join [build_root; sanitized_name (core_name core);
               tool_type_short +:+ "-" +:+ tool] in
  eda_api ←
    try_except
      (fl ← read_dict flags;
       call (CallGetEdaApi fl export_root)
            (cm_get_eda_api (core_name core) fl export_root))
      (λ e, match e with
            | DependencyError _ msg =>
                Some (logger ERROR
                        (msg +:+ format (nl +:+ "Failed to resolve dependencies for {}") system);;
                      exit 1)
            | SyntaxError msg => Some (logger ERROR msg;; exit 1)
            | _ => None
            end);
  backend ←
    try_except
      (cls ← _import tool;
       call (CallBackendNew work_root) (backend_new cls eda_api work_root))
      (λ e, match e with
            | ImportError _ =>
                Some (logger ERROR
                        (format ("Backend " +:+ dq +:+ "{}" +:+ dq +:+ " not found") tool);;
                      exit 1)
            | RuntimeError _ => Some (logger ERROR (exn_str e);; exit 1)
            | _ => None
            end);
  (if do_configure then
     try_except
       (fl ← read_dict flags;
        call (CallCmSetup fl export export_root)
             (cm_setup (core_name core) fl export export_root);;
        call (BackendConfigure backendargs) (backend_configure backend backendargs);;
        print "")
       (λ e, match e with
             | RuntimeError _ =>
                 Some (logger ERROR "Failed to configure the system";;
                       logger ERROR (exn_str e);;
                       exit 1)
             | _ => None
             end)
   else mret tt);;
  (if do_build then
     try_except
       (call BackendBuild (backend_build backend))
       (λ e, match e with
             | RuntimeError _ =>
                 Some (logger ERROR (build_error +:+ " : " +:+ exn_str e);; exit 1)
             | _ => None
             end)
   else mret tt);;
  (if do_run then
     try_except
       (call (BackendRun backendargs) (backend_run backend backendargs))
       (λ e, match e with
             | RuntimeError _ =>
                 Some (logger ERROR (run_error +:+ " : " +:+ exn_str e);;
                       logger ERROR (exn_str e);;
                       exit 1)
             | _ => None
             end)
   else mret tt).


(** ** Calling [run_backend]

    The parameter list of [def run_backend] (line 204), and a call with
    positional arguments: the arguments are bound first, so a call with
    the wrong number of them raises before the body runs.  The body is
    entered with the argument types of the call sites of main.py. *)
Definition run_backend_params : list string :=
  ["tool_type"; "export"; "do_configure"; "do_build"; "do_run";
   "flags"; "system"; "backendargs"].

Definition call_run_backend (actuals : list pyval) : M unit :=
  match bind_positional "run_backend" run_backend_params actuals with
  | Err e => raise e
  | Ok _ =>
      match actuals with
      | [PStr tool_type; PBool export; PBool do_configure; PBool do_build;
         PBool do_run; PRef flags; PStr system; PList backendargs] =>
          run_backend tool_type export do_configure do_build do_run
                      flags system backendargs
      | _ => raise (TypeError "run_backend() argument of an unexpected type")
      end
  end.

(** ** [build] (lines 60-70) *)
Definition build (a : args.t) : M unit :=
  let do_configure := true in
  let do_build := negb (args.setup a) in
  let do_run := false in
  flags ← new_dict (<["flow" := Some "synth"]>
                    (<["tool" := None]>
                     (<["target" := args.target a]> ∅)));
  call_run_backend
    [PStr "build"; PBool (negb (args.no_export a));
     PBool do_configure; PBool do_build; PBool do_run;
     PRef flags; PStr (args.system a); PList (args.backendargs a)].

(** ** [pgm] (lines 72-80) *)
Definition pgm_actuals (a : args.t) (flags : loc) : list pyval :=
  let do_configure := false in
  let do_build := false in
  let do_run := true in
  [PStr "build";
   PBool do_configure; PBool do_build; PBool do_run;
   PRef flags; PStr (args.system a); PList (args.backendargs a)].

Definition pgm (a : args.t) : M unit :=
  flags ← new_dict (<["flow" := Some "synth"]> (<["tool" := None]> ∅));
  call_run_backend (pgm_actuals a flags).

(** ** [fetch] (lines 82-89) *)
Definition fetch (a : args.t) : M unit :=
  core ← _get_core (args.core a);
  try_except
    (call CallCoreSetup (core_dot_setup core))
    (λ e, match e with
          | RuntimeError _ =>
              Some (logger ERROR ("Failed to fetch '" +:+ name_str (core_name core)
                                  +:+ "': " +:+ exn_str e);;
                    exit 1)
          | _ => None
          end).

(** ** [core_info] (lines 163-165) *)
Definition core_info (a : args.t) : M unit :=
  core ← _get_core (args.core a);
  info ← call CallCoreInfo (core_dot_info core);
  print info.

(** Reading a local variable that an earlier branch may have left
    unassigned. *)
Definition read_local {A} (name : string) (slot : option A) : M A :=
  match slot with
  | Some v => mret v
  | None =>
      raise (UnboundLocalError
               ("local variable '" +:+ name +:+ "' referenced before assignment"))
  end.

(** ** [run_flow] (lines 173-202) *)
Definition simulators : list string :=
  ["ghdl"; "icarus"; "isim"; "modelsim"; "rivierapro"; "verilator"; "xsim"].

Definition builders : list string := ["icestorm"; "ise"; "quartus"; "vivado"].

Definition run_flow (a : args.t) : M unit :=
  let stages := (args.setup a, args.build a, args.launch a) in
  let '(do_configure, do_build, do_run) :=
    if decide (stages = (false, false, false)) then (true, true, true)
    else (args.setup a, args.build a, args.launch a) in
  let tool_type : option string :=
    if decide (args.tool a ∈ simulators) then Some "simulator"
    else if decide (args.tool a ∈ builders) then Some "build"
    else None in
  flags ← new_dict (<["tool" := Some (args.tool a)]>
                    (<["target" := args.target a]> ∅));
  tool_type ← read_local "tool_type" tool_type;
  call_run_backend
    [PStr tool_type; PBool (negb (args.no_export a));
     PBool do_configure; PBool do_build; PBool do_run;
     PRef flags; PStr (args.system a); PList (args.backendargs a)].

(** ** [sim] (lines 267-282)

    [backend] is no name of the module or of the function: reading it
    raises NameError, which happens when [--keep] makes the right operand
    of the [or] run. *)
Definition sim (a : args.t) : M unit :=
  do_configure ←
    (if negb (args.keep a) then mret true
     else raise (NameError "name 'backend' is not defined"));
  let do_build := negb (args.setup a) in
  let do_run := negb (args.build_only a || args.setup a) in
  target ←
    (if truthy (from_option PStr PNone (args.testbench a)) then
       logger WARNING "--testbench is deprecated. Use --target instead";;
       mret (if truthy (from_option PStr PNone (args.target a))
             then args.target a else args.testbench a)
     else mret (args.target a));
  flags ← new_dict (<["flow" := Some "sim"]>
                    (<["tool" := args.sim a]>
                     (<["target" := target]> ∅)));
  call_run_backend
    [PStr "simulator"; PBool (negb (args.no_export a));
     PBool do_configure; PBool do_build; PBool do_run;
     PRef flags; PStr (args.system a); PList (args.backendargs a)].

(** The function behind each sub-command. *)
Definition handler (cmd : command) : args.t → M unit :=
  match cmd with
  | CmdBuild => build
  | CmdPgm => pgm
  | CmdFetch => fetch
  | CmdCoreInfo => core_info
  | CmdRunFlow => run_flow
  | CmdSim => sim
  | _ => λ a, call (CallOtherCommand cmd) (other_command cmd a)
  end.

(** ** [run] (lines 299-344) *)

(** The registration loop (lines 325-332): one [add_cores_root] call per
    group, a RuntimeError or IOError logged as a warning. *)
Fixpoint register_roots (groups : list pyval) : M unit :=
  match groups with
  | [] => mret tt
  | cores_root :: rest =>
      try_except
        (call (CallAddCoresRoot cores_root) (cm_add_cores_root cores_root))
        (λ e, match e with
              | RuntimeError _ | IOError _ =>
                  Some (logger WARNING
                          (format "Failed to register cores root '{}'" (exn_str e)))
              | _ => None
              end);;
      register_roots rest
  end.

(** [env_cores_root] (lines 320-323). *)
Definition env_cores_root (fusesoc_cores : option string) : list string :=
  reverse (if truthy (from_option PStr PNone fusesoc_cores)
           then split ":" (default "" fusesoc_cores) else []).

(** The groups in the order of the list display of line 325. *)
Definition root_groups (cfg_cores cfg_systems : pyval)
    (fusesoc_cores : option string) (a : args.t) : list pyval :=
  [cfg_cores; cfg_systems; PList (env_cores_root fusesoc_cores);
   from_option PList PNone (args.cores_root a)].

Definition run (a : args.t) (func : args.t → M unit) : M unit :=
  let lv := if args.verbose a then DEBUG else INFO in
  call (CallSetupLogging lv (args.monochrome a))
       (setup_logging lv (args.monochrome a));;
  argv ← read_world sys_argv;
  logger DEBUG ("Command line arguments: " +:+ str_of_list argv);;
  fusesoc_cores ← read_world getenv_fusesoc_cores;
  (if truthy (from_option PStr PNone fusesoc_cores) then
     logger DEBUG ("FUSESOC_CORES: " +:+
                   str_of_list (split ":" (default "" fusesoc_cores)))
   else mret tt);;
  logger DEBUG (if args.verbose a then "Verbose output" else "Concise output");;
  logger DEBUG (if args.monochrome a then "Monochrome output" else "Colorful output");;
  cfg_cores ← call CallConfigCoresRoot config_cores_root;
  cfg_systems ← call CallConfigSystemsRoot config_systems_root;
  register_roots (root_groups cfg_cores cfg_systems fusesoc_cores a);;
  (if args.force32 a then
     set_archbits 32;; logger DEBUG "Forcing 32-bit mode"
   else if args.force64 a then
     set_archbits 64;; logger DEBUG "Forcing 64-bit mode"
   else
     bits ← read_world (λ w, if platform_is_64bit w then 64 else 32);
     set_archbits bits;;
     logger DEBUG ("Autodetected " +:+ pretty bits +:+ "-bit mode"));;
  func a.


(** ** [main] (lines 346-479) *)

(** The local variables, each bound to an object, and the object table. *)
Record frame := mkFrame {
  locals : gmap string nat;
  objects : list pobj;
}.

(** Reading a name: a local of the function that is not bound yet raises
    UnboundLocalError, any other unknown name NameError. *)
Definition lookup_name (assigned : list string) (name : string) (f : frame) : M nat :=
  match locals f !! name with
  | Some id => mret id
  | None =>
      if decide (name ∈ assigned) then
        raise (UnboundLocalError
                 ("local variable '" +:+ name +:+ "' referenced before assignment"))
      else raise (NameError ("name '" +:+ name +:+ "' is not defined"))
  end.

Definition attribute_error {A} (attr : string) : M A :=
  raise (OtherException "AttributeError" ("object has no attribute '" +:+ attr +:+ "'")).

Definition exec_stmt (assigned : list string) (st : stmt) (f : frame) : M frame :=
  match st with
  | ArgumentParser dst =>
      let id := length (objects f) in
      mret (mkFrame (<[dst := id]> (locals f))
                    (objects f ++ [ParserObj [] None None]))
  | Add_subparsers dst p =>
      pid ← lookup_name assigned p f;
      match objects f !! pid with
      | Some (ParserObj arguments defaults _) =>
          let id := length (objects f) in
          mret (mkFrame (<[dst := id]> (locals f))
                        (<[pid := ParserObj arguments defaults (Some id)]> (objects f)
                         ++ [SubparsersObj []]))
      | _ => attribute_error "add_subparsers"
      end
  | Add_argument p flag =>
      pid ← lookup_name assigned p f;
      match objects f !! pid with
      | Some (ParserObj arguments defaults sub) =>
          mret (mkFrame (locals f)
                        (<[pid := ParserObj (arguments ++ [flag]) defaults sub]>
                           (objects f)))
      | _ => attribute_error "add_argument"
      end
  | Add_parser dst sub name =>
      sid ← lookup_name assigned sub f;
      match objects f !! sid with
      | Some (SubparsersObj choices) =>
          let id := length (objects f) in
          mret (mkFrame (<[dst := id]> (locals f))
                        (<[sid := SubparsersObj (choices ++ [(name, id)])]> (objects f)
                         ++ [ParserObj [] None None]))
      | _ => attribute_error "add_parser"
      end
  | Set_defaults p func =>
      pid ← lookup_name assigned p f;
      match objects f !! pid with
      | Some (ParserObj arguments _ sub) =>
          mret (mkFrame (locals f)
                        (<[pid := ParserObj arguments (Some func) sub]> (objects f)))
      | _ => attribute_error "set_defaults"
      end
  | Parse_and_run p =>
      pid ← lookup_name assigned p f;
      argv ← read_world sys_argv;
      parsed_args ← call CallParseArgs (parse_args (objects f) pid argv);
      match parsed_args with
      | Some (cmd, a) => run a (handler cmd);; mret f
      | None => print (print_help (objects f) pid);; mret f
      end
  end.

Fixpoint exec (assigned : list string) (body : list stmt) (f : frame) : M frame :=
  match body with
  | [] => mret f
  | st :: rest => f' ← exec_stmt assigned st f; exec assigned rest f'
  end.

(** The body of [main], statement by statement. *)
Definition main_body : list stmt :=
  [ ArgumentParser "parser";
    Add_subparsers "subparsers" "parser";
    Add_argument "parser" "--version";
    Add_argument "parser" "--cores-root";
    Add_argument "parser" "--32";
    Add_argument "parser" "--64";
    Add_argument "parser" "--monochrome";
    Add_argument "parser" "--verbose";
    (* build subparser *)
    Add_parser "parser_build" "subparsers" "build";
    Add_argument "parser_build" "--no-export";
    Add_argument "parser_build" "--setup";
    Add_argument "parser_build" "--target";
    Add_argument "parser_build" "system";
    Add_argument "parser_build" "backendargs";
    Set_defaults "parser_build" CmdBuild;
    (* init subparser *)
    Add_parser "parser_init" "subparsers" "init";
    Add_argument "parser_init" "-y";
    Set_defaults "parser_init" CmdInit;
    (* pgm subparser *)
    Add_parser "parser_pgm" "subparsers" "pgm";
    Add_argument "parser_pgm" "system";
    Add_argument "parser_pgm" "backendargs";
    Set_defaults "parser_pgm" CmdPgm;
    (* fetch subparser *)
    Add_parser "parser_fetch" "subparsers" "fetch";
    Add_argument "parser_fetch" "core";
    Set_defaults "parser_fetch" CmdFetch;
    (* list-systems subparser *)
    Add_parser "parser_list_systems" "subparsers" "list-systems";
    Set_defaults "parser_list_systems" CmdListSystems;
    (* list-cores subparser *)
    Add_parser "parser_list_cores" "subparsers" "list-cores";
    Set_defaults "parser_list_cores" CmdListCores;
    (* core-info subparser *)
    Add_parser "parser_core_info" "subparsers" "core-info";
    Add_argument "parser_core_info" "core";
    Set_defaults "parser_core_info" CmdCoreInfo;
    (* list-paths subparser *)
    Add_parser "parser_list_paths" "subparsers" "list-paths";
    Set_defaults "parser_list_paths" CmdListPaths;
    (* run subparser *)
    Add_parser "parser_run" "subparsers" "run";
    Add_argument "parser_run" "tool";
    Add_argument "parser_sim" "--no-export";
    Add_argument "parser_run" "--setup";
    Add_argument "parser_run" "--build";
    Add_argument "parser_run" "--launch";
    Add_argument "parser_run" "--target";
    Add_argument "parser_run" "system";
    Add_argument "parser_run" "backendargs";
    Set_defaults "parser_run" CmdRunFlow;
    (* sim subparser *)
    Add_parser "parser_sim" "subparsers" "sim";
    Add_argument "parser_sim" "--no-export";
    Add_argument "parser_sim" "--sim";
    Add_argument "parser_sim" "--setup";
    Add_argument "parser_sim" "--build-only";
    Add_argument "parser_sim" "--force";
    Add_argument "parser_sim" "--keep";
    Add_argument "parser_sim" "--target";
    Add_argument "parser_sim" "--testbench";
    Add_argument "parser_sim" "system";
    Add_argument "parser_sim" "backendargs";
    Set_defaults "parser_sim" CmdSim;
    (* update subparser *)
    Add_parser "parser_update" "subparsers" "update";
    Set_defaults "parser_update" CmdUpdate;
    Parse_and_run "parser" ].

Definition main : M unit :=
  exec (concat (assigns <$> main_body)) main_body (mkFrame ∅ []);; mret tt.

End Program.

(** * The CoreManager subsystem

    main.py imports [CoreManager] from fusesoc.coremanager; the registry
    that [run] fills through [add_cores_root] is defined there and not in
    main.py. *)
Module CoreManager.

(** ** Identity *)

(** Modelled from the spec: the identity of a core, which the registry
    module defines: vendor, library, name and version, each optional
    except the name; a version is its dotted numbers. *)
Record Identity := mkIdentity {
  vendor : option string;
  library : option string;
  name : string;
  version : option (list nat);
}.

#[global] Instance Identity_eq_dec : EqDecision Identity.
Proof. solve_decision. Defined.

(** Modelled from the spec: a component present in the query matches the
    same component of the candidate; an absent one matches any value. *)
Definition component_matches {A} `{EqDecision A} (q c : option A) : bool :=
  match q with
  | None => true
  | Some _ => bool_decide (q = c)
  end.

(** Modelled from the spec: the partial match of [matches(query,
    candidate)]. *)
Definition matches (query candidate : Identity) : bool :=
  component_matches (vendor query) (vendor candidate)
  && component_matches (library query) (library candidate)
  && bool_decide (name query = name candidate)
  && component_matches (version query) (version candidate).

(** ** Core descriptors *)

Inductive version_rel := AnyVersion | VersionEq | VersionGe | VersionGt
                       | VersionLe | VersionLt.

(** Modelled from the spec: a dependency declaration, an identity
    constraint with a relation on the version, possibly conditional on a
    use-flag. *)
Record Constraint := mkConstraint {
  wanted : Identity;
  rel : version_rel;
  when_flag : option string;
}.

#[global] Instance version_rel_eq_dec : EqDecision version_rel.
Proof. solve_decision. Defined.

#[global] Instance Constraint_eq_dec : EqDecision Constraint.
Proof. solve_decision. Defined.

Record File := mkFile {
  path : string;
  file_type : string;
  is_include_file : bool;
  logical_name : string;
}.

Record FileSet := mkFileSet {
  fileset_name : string;
  files : list File;
  use_flags : gset string;
}.

Record ParamDecl := mkParamDecl {
  datatype : string;
  paramtype : string;
  default_value : option string;
  description : string;
}.

Record Target := mkTarget {
  default_tool : option string;
  tool_options : gmap string (list string);
  dependencies : list Constraint;
  toplevel : option string;
  filesets : list string;
}.

(** Modelled from the spec: the parsed metadata of one core (the Core
    Descriptor of the data model). *)
Record CoreDescriptor := mkCore {
  identity : Identity;
  file_sets : list FileSet;
  parameters : gmap string ParamDecl;
  targets : gmap string Target;
  provider : option string;
}.

(** Modelled from the spec: the typed failures of the registry and the
    resolver (the taxonomy of the error handling design). *)
Inductive error :=
| RootNotFoundError (root : string)
| CoreNotFoundError (query : Identity)
| FlowNotSupportedError (core : Identity) (flow : string)
| DependencyError (unresolved : Identity) (chain : list Identity)
| CyclicDependencyError (cycle : list Identity)
| VersionConflictError (core : string) (first second : Constraint)
| ParameterConflictError (parameter : string).

(** ** Registry *)

(** Modelled from the spec: the registry keeps the search roots in
    registration order and the descriptors, one per identity, in the
    order of their registration. *)
Record Registry := mkRegistry {
  roots : list string;
  table : list CoreDescriptor;
}.

(** What scanning a root finds: the descriptors of its metadata files, or
    nothing when the root does not exist or cannot be read. *)
Definition filesystem := string → option (list CoreDescriptor).

Definition same_identity (i : Identity) (d : CoreDescriptor) : bool :=
  bool_decide (identity d = i).

(** Modelled from the spec: a descriptor replaces any earlier-registered
    descriptor of the identical identity. *)
Definition register (tbl : list CoreDescriptor) (d : CoreDescriptor)
    : list CoreDescriptor :=
  filter (λ d', identity d' ≠ identity d) tbl ++ [d].

(** Modelled from the spec: [add_root(path)] fails with RootNotFoundError
    on a root that does not exist, and otherwise registers every
    descriptor found under it. *)
Definition add_root (fs : filesystem) (root : string) (reg : Registry)
    : Registry * (error + unit) :=
  match fs root with
  | None => (reg, inl (RootNotFoundError root))
  | Some found =>
      (mkRegistry (roots reg ++ [root]) (foldl register (table reg) found),
       inr tt)
  end.

(** Modelled from the spec: the roots of a group are added in order; a
    root that does not exist or cannot be read is skipped, and the scan
    continues with the roots after it.  The failure of the first root that
    was skipped is handed back, for the caller to log. *)
Fixpoint add_roots (fs : filesystem) (paths : list string) (reg : Registry)
    : Registry * (error + unit) :=
  match paths with
  | [] => (reg, inr tt)
  | root :: rest =>
      let added := add_root fs root reg in
      let others := add_roots fs rest added.1 in
      (others.1, match added.2 with
                 | inl e => inl e
                 | inr _ => others.2
                 end)
  end.

(** The roots of a group handed over by [run]: nothing, one path or a
    list of paths. *)
Definition group_paths (group : pyval) : list string :=
  match group with
  | PStr root => [root]
  | PList paths => paths
  | _ => []
  end.

(** Modelled from the spec: [add_cores_root(group)], which [run] calls
    once per group: every root of the group that exists is registered, in
    order, and a failure is raised to the caller once the group is done. *)
Definition add_cores_root (fs : filesystem) (group : pyval) (reg : Registry)
    : Registry * (error + unit) :=
  add_roots fs (group_paths group) reg.

(** How closely a candidate agrees with a query: the number of components
    that are the same on both sides. *)
Definition agreement (query candidate : Identity) : nat :=
  ((if bool_decide (vendor query = vendor candidate) then 1 else 0)
   + (if bool_decide (library query = library candidate) then 1 else 0)
   + (if bool_decide (name query = name candidate) then 1 else 0)
   + (if bool_decide (version query = version candidate) then 1 else 0))%nat.

(** The best of the acceptable descriptors: the most specific one, and
    among equally specific ones the most recently registered. *)
Fixpoint best_match (accept : Identity → bool) (query : Identity)
    (tbl : list CoreDescriptor) : option CoreDescriptor :=
  match tbl with
  | [] => None
  | d :: rest =>
      let later := best_match accept query rest in
      if accept (identity d) then
        match later with
        | Some d' =>
            if (agreement query (identity d) <=? agreement query (identity d'))%nat
            then Some d' else Some d
        | None => Some d
        end
      else later
  end.

(** Modelled from the spec: [lookup(identity_query)]. *)
Definition lookup (query : Identity) (reg : Registry) : error + CoreDescriptor :=
  match best_match (matches query) query (table reg) with
  | Some d => inr d
  | None => inl (CoreNotFoundError query)
  end.

(** Modelled from the spec: [list_all()] and [get_roots()]. *)
Definition list_all (reg : Registry) : list Identity := identity <$> table reg.
Definition get_roots (reg : Registry) : list string := roots reg.

End CoreManager.

(** * Properties: vocabulary *)

(** The stages [run_backend] is asked to run, in the order of its body. *)
Definition enabled_stages (do_configure do_build do_run : bool)
    (backendargs : list string) : list callee :=
  (if do_configure then [BackendConfigure backendargs] else [])
  ++ (if do_build then [BackendBuild] else [])
  ++ (if do_run then [BackendRun backendargs] else []).

(** The message [run_backend] picks for a core without a tool (lines
    205-214), before [format] puts the system in. *)
Definition tool_error (tool_type : string) : string :=
  if String.eqb tool_type "simulator" then
    "No simulator was supplied on command line or found in '{}' core description"
  else "Unable to find synthesis info for '{}'".

(** A stage failure: a backend operation raising RuntimeError, or
    [get_eda_api] raising DependencyError or SyntaxError. *)
Definition stage_failure (c : callee) (e : exn) : bool :=
  match c, e with
  | (BackendConfigure _ | BackendBuild | BackendRun _), RuntimeError _ => true
  | CallGetEdaApi _ _, (DependencyError _ _ | SyntaxError _) => true
  | _, _ => false
  end.

Definition is_exit_1 {A} (o : outcome A) : bool :=
  match o with
  | Exit 1 => true
  | _ => false
  end.

(** After the first stage failure among the events there are only error
    records, at least one, and the run ended in [exit(1)]. *)
Fixpoint fails_fast (tr : list event) (exited : bool) : bool :=
  match tr with
  | [] => true
  | Called c (Some e) :: post =>
      if stage_failure c e then
        exited && negb (Nat.eqb (length post) 0) && forallb is_error_record post
      else fails_fast post exited
  | _ :: post => fails_fast post exited
  end.

(** The dictionary every resolution and setup call among the events was
    handed. *)
Fixpoint flags_seen (tr : list event) : list dict :=
  match tr with
  | [] => []
  | Called (CallGetEdaApi fl _) _ :: post => fl :: flags_seen post
  | Called (CallCmSetup fl _ _) _ :: post => fl :: flags_seen post
  | _ :: post => flags_seen post
  end.

(** A backend was constructed. *)
Definition is_backend_new (ev : event) : bool :=
  match ev with
  | Called (CallBackendNew _) _ => true
  | _ => false
  end.

(** The groups handed to [add_cores_root], in order. *)
Fixpoint root_calls (tr : list event) : list pyval :=
  match tr with
  | [] => []
  | Called (CallAddCoresRoot g) _ :: post => g :: root_calls post
  | _ :: post => root_calls post
  end.

(** The exceptions the registration loop of [run] catches. *)
Definition recoverable (e : exn) : bool :=
  match e with
  | RuntimeError _ | IOError _ => true
  | _ => false
  end.

(** The events of a registration loop in which every failure was caught:
    one call per group, a failed one followed by its warning. *)
Fixpoint registration_trace (attempts : list (pyval * option exn)) : list event :=
  match attempts with
  | [] => []
  | (g, None) :: rest =>
      Called (CallAddCoresRoot g) None :: registration_trace rest
  | (g, Some e) :: rest =>
      Called (CallAddCoresRoot g) (Some e)
      :: Logged WARNING (format "Failed to register cores root '{}'" (exn_str e))
      :: registration_trace rest
  end.

(** Every exception among the events is one the loop catches. *)
Definition only_recoverable (tr : list event) : bool :=
  forallb (λ ev, match ev with
                 | Called _ (Some e) => recoverable e
                 | _ => true
                 end) tr.

(** The roots of a list that get registered: those that exist. *)
Definition registered (fs : CoreManager.filesystem) (paths : list string)
    : list string :=
  filter (λ root, is_Some (fs root)) paths.

(** The descriptors the roots of a group provide, in the order of their
    registration. *)
Definition provided (fs : CoreManager.filesystem) (group : pyval)
    : list CoreManager.CoreDescriptor :=
  concat ((λ root, default [] (fs root)) <$> CoreManager.group_paths group).

(** The last descriptor of a list that has the identity [i]. *)
Definition last_with (i : CoreManager.Identity)
    (ds : list CoreManager.CoreDescriptor) : option CoreManager.CoreDescriptor :=
  last (filter (λ d, CoreManager.identity d = i) ds).

(** The descriptor of identity [i] by the precedence of the root sources:
    command line, then environment, then the configuration file, and last
    what the registry held before. *)
Definition by_precedence (fs : CoreManager.filesystem)
    (before : list CoreManager.CoreDescriptor)
    (cfg_cores cfg_systems env cli : pyval) (i : CoreManager.Identity)
    : option CoreManager.CoreDescriptor :=
  last_with i (provided fs cli)
  ∪ last_with i (provided fs env)
  ∪ last_with i (provided fs cfg_systems)
  ∪ last_with i (provided fs cfg_cores)
  ∪ last_with i before.

(** The place of the highest source that provides the identity [i], in a
    list of sources from the lowest to the highest precedence: 1 for the
    first of the list, 0 when no source provides [i]. *)
Fixpoint source_rank (i : CoreManager.Identity)
    (sources : list (list CoreManager.CoreDescriptor)) : nat :=
  match sources with
  | [] => 0
  | source :: higher =>
      match source_rank i higher with
      | O => if bool_decide (i ∈ CoreManager.identity <$> source) then 1 else 0
      | S above => S (S above)
      end
  end.

(** How a failure of the registry reaches [run]: a missing root as an
    IOError. *)
Definition raised (r : CoreManager.error + unit) : result unit :=
  match r with
  | inr _ => Ok tt
  | inl (CoreManager.RootNotFoundError root) => Err (IOError root)
  | inl _ => Err (RuntimeError "")
  end.

(** The [add_cores_root] of an environment is the registry's: [reg_of]
    reads the registry out of the world. *)
Definition registry_backed `{Env} (fs : CoreManager.filesystem)
    (reg_of : W → CoreManager.Registry) : Prop :=
  ∀ g w,
    (reg_of (cm_add_cores_root g w).1, (cm_add_cores_root g w).2)
    = ((CoreManager.add_cores_root fs g (reg_of w)).1,
       raised (CoreManager.add_cores_root fs g (reg_of w)).2).

(** What [run] leaves behind before the registration loop (lines 300-318):
    the logging is set up, the command line, FUSESOC_CORES and the output
    modes are logged, and the two roots of the configuration are read. *)
Definition run_preamble `{Env} (a : args.t) (w : W) : list event :=
  [Called (CallSetupLogging (if args.verbose a then DEBUG else INFO)
                            (args.monochrome a)) None;
   Logged DEBUG ("Command line arguments: " +:+ str_of_list (sys_argv w))]
  ++ (if truthy (from_option PStr PNone (getenv_fusesoc_cores w))
      then [Logged DEBUG
              ("FUSESOC_CORES: " +:+
               str_of_list (split ":" (default "" (getenv_fusesoc_cores w))))]
      else [])
  ++ [Logged DEBUG (if args.verbose a then "Verbose output" else "Concise output");
      Logged DEBUG (if args.monochrome a then "Monochrome output"
                    else "Colorful output");
      Called CallConfigCoresRoot None;
      Called CallConfigSystemsRoot None].

(** The debug record on the word size (lines 334-342). *)
Definition word_size_line `{Env} (a : args.t) (w : W) : string :=
  if args.force32 a then "Forcing 32-bit mode"
  else if args.force64 a then "Forcing 64-bit mode"
  else "Autodetected " +:+ pretty (if platform_is_64bit w then 64 else 32)
       +:+ "-bit mode".

(** [wp m Q s]: running [m] from [s] ends in a state and an outcome that
    satisfy [Q]. *)
Definition wp `{Env} {A} (m : M A) (Q : state → outcome A → Prop) (s : state)
    : Prop :=
  Q (m s).1 (m s).2.

(** ** A scripted environment

    Collaborators that answer from a script; the registry is the
    CoreManager model over a small disk. *)
Module Demo.

Record script := mkScript {
  get_core_answer : result string;
  get_tool_answer : result (option string);
  eda_api_answer : result unit;
  configure_answer : result unit;
  build_answer : result unit;
  run_answer : result unit;
  reg : CoreManager.Registry;
}.

Definition with_reg (w : script) (r : CoreManager.Registry) : script :=
  mkScript (get_core_answer w) (get_tool_answer w) (eda_api_answer w)
           (configure_answer w) (build_answer w) (run_answer w) r.

Definition identity_of (n : string) : CoreManager.Identity :=
  CoreManager.mkIdentity None None n (Some [1%nat]).

(** A core that carries the root it was found under as its provider. *)
Definition core_in (root n : string) : CoreManager.CoreDescriptor :=
  CoreManager.mkCore (identity_of n) [] ∅ ∅ (Some root).

(** Five roots, each with a core [uart]; the roots named in the
    environment also hold [spi], the configured one [gpio]. *)
Definition small_disk : CoreManager.filesystem := λ root,
  if String.eqb root "/cfg/cores" then
    Some [core_in root "uart"; core_in root "gpio"]
  else if String.eqb root "/cfg/systems" then Some [core_in root "uart"]
  else if String.eqb root "/env/a" then
    Some [core_in root "uart"; core_in root "spi"]
  else if String.eqb root "/env/b" then Some [core_in root "spi"]
  else if String.eqb root "/cli" then Some [core_in root "uart"]
  else None.

Definition env : Env := {|
  W := script;
  Core := string;
  Name := string;
  EdaApi := unit;
  PyModule := string;
  BackendClass := string;
  Backend := string;
  cm_get_core := λ _ w, (w, get_core_answer w);
  core_name := λ c, c;
  sanitized_name := λ n, n;
  name_str := λ n, n;
  core_get_tool := λ _ _ w, (w, get_tool_answer w);
  core_dot_setup := λ _ w, (w, Ok tt);
  core_dot_info := λ c w, (w, Ok c);
  config_build_root := λ w, (w, Ok "build");
  config_cores_root := λ w, (w, Ok (PList ["/cfg/cores"]));
  config_systems_root := λ w, (w, Ok (PStr "/cfg/systems"));
  path_join := λ parts, foldr (λ p acc, p +:+ "/" +:+ acc) "" parts;
  cm_get_eda_api := λ _ _ _ w, (w, eda_api_answer w);
  cm_setup := λ _ _ _ _ w, (w, Ok tt);
  cm_add_cores_root := λ g w,
    let r := CoreManager.add_cores_root small_disk g (reg w) in
    (with_reg w r.1, raised r.2);
  import_module := λ m w, (w, Ok m);
  module_getattr := λ _ attr w, (w, Ok attr);
  backend_new := λ cls _ _ w, (w, Ok cls);
  backend_configure := λ _ _ w, (w, configure_answer w);
  backend_build := λ _ w, (w, build_answer w);
  backend_run := λ _ _ w, (w, run_answer w);
  getenv_fusesoc_cores := λ _, Some "/env/a:/env/b";
  platform_is_64bit := λ _, true;
  str_of_list := λ l, foldr (λ p acc, p +:+ " " +:+ acc) "" l;
  sys_argv := λ _, ["fusesoc"];
  setup_logging := λ _ _ w, (w, Ok tt);
  parse_args := λ _ _ _ w, (w, Ok None);
  print_help := λ _ _, "usage: fusesoc";
  other_command := λ _ _ w, (w, Ok tt);
|}.

Definition world0 (core : result string) (tool : result (option string))
    (eda configure build run : result unit) : script :=
  mkScript core tool eda configure build run (CoreManager.mkRegistry [] []).

Definition state0 (w : script) : @state env := @mkState env w ∅ [] None.

Definition args0 (cli : option (list string)) : args.t :=
  args.mk cli false false false false false false
          false false false false None None None "icarus" "soc" "uart" [].

End Demo.

(** * More vocabulary for [run_backend] and the handlers *)

(** The except clauses of [run_backend] and [_get_core]: the exceptions
    that are caught around each call (lines 36-43 and 227-265). *)
Definition handled (c : callee) (e : exn) : bool :=
  match c, e with
  | CallGetCore _, (RuntimeError _ | DependencyError _ _) => true
  | CallGetEdaApi _ _, (DependencyError _ _ | SyntaxError _) => true
  | (CallImportModule _ | CallGetattr _ | CallBackendNew _),
    (ImportError _ | RuntimeError _) => true
  | (CallCmSetup _ _ _ | BackendConfigure _ | BackendBuild | BackendRun _),
    RuntimeError _ => true
  | _, _ => false
  end.

(** A failed call ends the run: after a caught exception come error
    records only, at least one, and [exit(1)]; an exception that is not
    caught leaves as it is, with nothing after the call. *)
Fixpoint stops_at_failure {A} (tr : list event) (o : outcome A) : Prop :=
  match tr with
  | [] => True
  | Called c (Some e) :: post =>
      if handled c e then
        o = Exit 1 ∧ post ≠ [] ∧ Forall (λ ev, is_error_record ev = true) post
      else post = [] ∧ o = Raise e
  | _ :: post => stops_at_failure post o
  end.

(** The calls that raised, with their exceptions. *)
Fixpoint failures (tr : list event) : list (callee * exn) :=
  match tr with
  | [] => []
  | Called c (Some e) :: post => (c, e) :: failures post
  | _ :: post => failures post
  end.

(** The export roots handed to the resolution and setup calls, and the
    work roots handed to the backend constructors. *)
Fixpoint export_roots (tr : list event) : list (option string) :=
  match tr with
  | [] => []
  | Called (CallGetEdaApi _ r) _ :: post => r :: export_roots post
  | Called (CallCmSetup _ _ r) _ :: post => r :: export_roots post
  | _ :: post => export_roots post
  end.

Fixpoint work_roots (tr : list event) : list string :=
  match tr with
  | [] => []
  | Called (CallBackendNew r) _ :: post => r :: work_roots post
  | _ :: post => work_roots post
  end.

(** The lines printed, in order. *)
Fixpoint printed (tr : list event) : list string :=
  match tr with
  | [] => []
  | Printed line :: post => line :: printed post
  | _ :: post => printed post
  end.

(** [tool_type_short] of [run_backend] (lines 205-211). *)
Definition tool_type_short (tool_type : string) : string :=
  if String.eqb tool_type "simulator" then "sim" else "bld".

(** The dictionaries handed to [core.get_tool]. *)
Fixpoint tool_queries (tr : list event) : list dict :=
  match tr with
  | [] => []
  | Called (CallGetTool fl) _ :: post => fl :: tool_queries post
  | _ :: post => tool_queries post
  end.

(** [sep.join(l)] *)
Fixpoint join (sep : string) (l : list string) : string :=
  match l with
  | [] => ""
  | [x] => x
  | x :: rest => x +:+ sep +:+ join sep rest
  end.

(** The character [c] occurs in [s]. *)
Fixpoint has_char (c : ascii) (s : string) : bool :=
  match s with
  | EmptyString => false
  | String x r => Ascii.eqb x c || has_char c r
  end.

(** The mode [run] leaves in [config.archbits] (lines 334-342). *)
Definition chosen_archbits `{Env} (a : args.t) (w : W) : Z :=
  if args.force32 a then 32
  else if args.force64 a then 64
  else if platform_is_64bit w then 64 else 32.



(** * The handlers that list, update and initialise

    [abort_handler], [init], [list_paths], [list_cores], [list_systems] and
    [update] call into git, the file system and the terminal.  Their
    collaborators, the calls they make and their programs extend those of
    the handlers above. *)

(** ** More of the Python runtime *)

(** [c * n] for a one-character string. *)
Fixpoint replicate_char (n : nat) (c : ascii) : string :=
  match n with
  | O => EmptyString
  | S n' => String c (replicate_char n' c)
  end.

(** [s.ljust(width)] *)
Definition ljust (s : string) (width : nat) : string :=
  s +:+ replicate_char (width - String.length s) " ".

(** [max(map(len, names))] *)
Definition max_len (names : list string) : nat :=
  foldr Nat.max 0%nat (String.length <$> names).

(** Whitespace, as [str.strip()] sees it on ASCII text. *)
Definition is_whitespace (c : ascii) : bool :=
  let n := nat_of_ascii c in
  ((9 <=? n) && (n <=? 13) || (28 <=? n) && (n <=? 32))%nat.

Fixpoint lstrip (s : string) : string :=
  match s with
  | EmptyString => EmptyString
  | String c r => if is_whitespace c then lstrip r else s
  end.

(** [s.strip()] *)
Definition strip (s : string) : string :=
  String.rev (lstrip (String.rev (lstrip s))).

(** [template.format(a, b, ...)] for a template with plain [{}] fields. *)
Fixpoint format_all (template : string) (fields : list string) : string :=
  match template with
  | EmptyString => EmptyString
  | String c r =>
      match r, fields with
      | String c' r', field :: more =>
          if Ascii.eqb c "{" && Ascii.eqb c' "}" then field +:+ format_all r' more
          else String c (format_all r fields)
      | _, _ => String c (format_all r fields)
      end
  end.

(** [sorted(names)]: strings in lexicographic order of their characters. *)
Definition sorted (names : list string) : list string :=
  merge_sort String.le names.

(** [d[key]] on the items of a dictionary. *)
Fixpoint getitem {A} (items : list (string * A)) (key : string) : option A :=
  match items with
  | [] => None
  | (k, v) :: rest => if String.eqb k key then Some v else getitem rest key
  end.

(** ** The module constant [REPOS] (lines 27-32): name, URL, description *)
Definition REPOS : list (string * string * string) :=
  [("orpsoc-cores", "https://github.com/openrisc/orpsoc-cores",
    "old base library");
   ("fusesoc-cores", "https://github.com/fusesoc/fusesoc-cores",
    "new base library")].

(** ** Collaborators *)

(** What these handlers call outside main.py.  [os.path.exists],
    [os.environ.get] and [os.path.expanduser] read the world; each of the
    others may change it and may raise.  The items of [get_cores()] come in
    the iteration order of the dictionary. *)
Class Shell `{Env} := {
  (* CoreManager().get_cores_root() *)
  cm_get_cores_root : W → W * result (list string);
  (* CoreManager().get_cores() *)
  cm_get_cores : W → W * result (list (string * Core));
  (* core.cache_status() *)
  core_cache_status : Core → W → W * result string;
  (* os.path.exists(path) *)
  os_path_exists : string → W → bool;
  (* os.path.dirname(path) *)
  os_path_dirname : string → string;
  (* os.environ.get(name) *)
  os_environ_get : string → W → option string;
  (* os.path.expanduser(path) *)
  os_path_expanduser : string → W → string;
  (* input(prompt), raw_input(prompt) on Python 2 *)
  builtin_input : string → W → W * result string;
  (* subprocess.check_output(argv).decode("utf-8") *)
  subprocess_check_output : list string → W → W * result string;
  (* Launcher(cmd, args).run() *)
  launcher_run : string → list string → W → W * result unit;
  (* os.makedirs(path) *)
  os_makedirs : string → W → W * result unit;
  (* open(path, 'w') *)
  file_open : string → W → W * result unit;
  (* f.write(text) on the file opened at path *)
  file_write : string → string → W → W * result unit;
}.

(** The calls of these handlers. *)
Inductive shell_call :=
| CallGetCoresRoot
| CallGetCores
| CallCacheStatus (name : string)
| CallInput (prompt : string)
| CallCheckOutput (argv : list string)
| CallLauncher (cmd : string) (argv : list string)
| CallMakedirs (path : string)
| CallOpen (path : string)
| CallWrite (path text : string).

(** What a run of these handlers leaves behind, in order: the events of
    the programs above, and the calls of this section with the exception
    each raised. *)
Inductive xevent :=
| Base (ev : event)
| Outside (c : shell_call) (raised : option exn).

#[global] Instance shell_call_eq_dec : EqDecision shell_call.
Proof. solve_decision. Defined.

#[global] Instance xevent_eq_dec : EqDecision xevent.
Proof. solve_decision. Defined.

(** The calls of this section among the events, and the events of the
    programs above. *)
Fixpoint shell_calls (tr : list xevent) : list (shell_call * option exn) :=
  match tr with
  | [] => []
  | Outside c r :: post => (c, r) :: shell_calls post
  | Base _ :: post => shell_calls post
  end.

Fixpoint base_events (tr : list xevent) : list event :=
  match tr with
  | [] => []
  | Base ev :: post => ev :: base_events post
  | Outside _ _ :: post => base_events post
  end.

(** [abort_handler] (lines 50-56), the handler of SIGINT. *)
Definition abort_handler `{Env} : M unit :=
  print "" ≫= λ _,
  logger INFO "****************************" ≫= λ _,
  logger INFO "****   FuseSoC aborted  ****" ≫= λ _,
  logger INFO "****************************" ≫= λ _,
  print "" ≫= λ _,
  exit 0.

Section ShellProgram.
Context `{Env} `{!Shell}.

(** ** Programs over the longer trace *)
Record xstate := mkX {
  xworld : W;
  xheap : gmap loc dict;
  xtrace : list xevent;
  xarchbits : option Z;
}.

Definition X (A : Type) : Type := xstate → xstate * outcome A.

Definition xret {A} (a : A) : X A := λ xs, (xs, Ret a).

Definition xbind {A B} (m : X A) (k : A → X B) : X B :=
  λ xs, match m xs with
        | (xs', Ret a) => k a xs'
        | (xs', Raise e) => (xs', Raise e)
        | (xs', Exit c) => (xs', Exit c)
        end.

#[global] Instance X_ret : MRet X := @xret.
#[global] Instance X_bind : MBind X := λ A B k m, xbind m k.

(** [try: m except ...: h e] *)
Definition xtry_except {A} (m : X A) (h : exn → option (X A)) : X A :=
  λ xs, match m xs with
        | (xs', Raise e) =>
            match h e with
            | Some k => k xs'
            | None => (xs', Raise e)
            end
        | r => r
        end.

(** A program of the handlers above, run here: its events join the
    trace. *)
Definition embed {A} (m : M A) : X A :=
  λ xs, let r := m (mkState (xworld xs) (xheap xs) [] (xarchbits xs)) in
        (mkX (world r.1) (heap r.1) (xtrace xs ++ (Base <$> trace r.1))
             (archbits r.1), r.2).

(** A call to a collaborator of this section. *)
Definition xcall {A} (c : shell_call) (f : W → W * result A) : X A :=
  λ xs, match f (xworld xs) with
        | (w, Ok a) =>
            (mkX w (xheap xs) (xtrace xs ++ [Outside c None]) (xarchbits xs), Ret a)
        | (w, Err e) =>
            (mkX w (xheap xs) (xtrace xs ++ [Outside c (Some e)]) (xarchbits xs),
             Raise e)
        end.

Definition xquery {A} (f : W → A) : X A := λ xs, (xs, Ret (f (xworld xs))).

(** ** [list_paths] (lines 142-144) *)
Definition list_paths : X unit :=
  cores_root ← xcall CallGetCoresRoot cm_get_cores_root;
  embed (print (join nl cores_root)).

(** ** [list_cores] (lines 146-161) *)
Fixpoint print_rows (cores : list (string * Core)) (maxlen : nat)
    (names : list string) : X unit :=
  match names with
  | [] => mret tt
  | name :: rest =>
      core ← match getitem cores name with
             | Some core => mret core
             | None => embed (raise (OtherException "KeyError" name))
             end;
      status ← xcall (CallCacheStatus name) (core_cache_status core);
      embed (print (ljust name maxlen +:+ " : " +:+ status));;
      print_rows cores maxlen rest
  end.

Definition list_cores : X unit :=
  cores ← xcall CallGetCores cm_get_cores;
  embed (print (nl +:+ "Available cores:" +:+ nl));;
  match cores with
  | [] =>
      cores_root ← xcall CallGetCoresRoot cm_get_cores_root;
      (if truthy (PList cores_root) then
         embed (logger ERROR ("No cores found in " +:+ join ":" cores_root))
       else embed (logger ERROR "cores_root is not defined"));;
      embed (exit 1)
  | _ :: _ =>
      let maxlen := max_len cores.*1 in
      embed (print (ljust "Core" maxlen +:+ "   Cache status"));;
      embed (print (replicate_char 80 "="));;
      print_rows cores maxlen (sorted cores.*1)
  end.

(** ** [list_systems] (lines 167-171) *)
Fixpoint print_systems (cores : list (string * Core)) : X unit :=
  match cores with
  | [] => mret tt
  | (_, core) :: rest =>
      flags ← embed (new_dict (<["flow" := Some "synth"]> (<["tool" := None]> ∅)));
      fl ← embed (read_dict flags);
      tool ← embed (call (CallGetTool fl) (core_get_tool core fl));
      (if no_tool tool then mret tt
       else embed (print (name_str (core_name core))));;
      print_systems rest
  end.

Definition list_systems : X unit :=
  embed (print "Available systems:");;
  cores ← xcall CallGetCores cm_get_cores;
  print_systems cores.

(** ** [update] (lines 284-297) *)
Definition git_origin_argv (root : string) : list string :=
  ["git"] ++ ["-C"; root; "config"; "--get"; "remote.origin.url"].

Definition is_called_process_error (e : exn) : bool :=
  match e with
  | OtherException cls _ => String.eqb cls "CalledProcessError"
  | _ => false
  end.

Fixpoint update_roots (roots : list string) : X unit :=
  match roots with
  | [] => mret tt
  | root :: rest =>
      found ← xquery (os_path_exists root);
      (if found : bool then
         xtry_except
           (repo_root ← xcall (CallCheckOutput (git_origin_argv root))
                              (subprocess_check_output (git_origin_argv root));
            if decide (strip repo_root ∈ (λ repo, repo.1.2) <$> REPOS) then
              embed (logger INFO (format "Updating '{}'" root));;
              xcall (CallLauncher "git" ["-C"; root; "pull"])
                    (launcher_run "git" ["-C"; root; "pull"])
            else mret tt)
           (λ e, if is_called_process_error e then Some (mret tt) else None)
       else mret tt);;
      update_roots rest
  end.

Definition update : X unit :=
  roots ← xcall CallGetCoresRoot cm_get_cores_root;
  update_roots roots.

(** ** [init] (lines 91-140); [y] is [args.y] *)
Definition init_prompt (repo : string * string * string) (default_dir : string)
    : string :=
  format_all "Directory to use for {} ({}) [{}] : "
             [repo.1.1; repo.2; default_dir].

Fixpoint init_repos (y : bool) (xdg_data_home : string)
    (repos : list (string * string * string)) (_repo_paths : list string)
    : X (list string) :=
  match repos with
  | [] => mret _repo_paths
  | repo :: rest =>
      let default_dir := path_join [xdg_data_home; repo.1.1] in
      answer ← (if y then mret None
                else text ← xcall (CallInput (init_prompt repo default_dir))
                                  (builtin_input (init_prompt repo default_dir));
                     mret (Some text));
      let cores_root :=
        if truthy (from_option PStr PNone answer) then default "" answer
        else default_dir in
      found ← xquery (os_path_exists cores_root);
      _repo_paths ←
        (if found : bool then
           embed (logger WARNING (format "'{}' already exists" cores_root));;
           mret _repo_paths
         else
           let _repo_paths := _repo_paths ++ [cores_root] in
           embed (logger INFO (format "Initializing {}" repo.1.1));;
           xtry_except
             (xcall (CallLauncher "git" ["clone"; repo.1.2; cores_root])
                    (launcher_run "git" ["clone"; repo.1.2; cores_root]))
             (λ e, match e with
                   | RuntimeError _ =>
                       Some (embed (logger ERROR ("Init failed: " +:+ exn_str e));;
                             embed (exit 1))
                   | _ => None
                   end);;
           mret _repo_paths);
      init_repos y xdg_data_home rest _repo_paths
  end.

Definition init (y : bool) : X unit :=
  data ← xquery (os_environ_get "XDG_DATA_HOME");
  home ← xquery (os_path_expanduser "~");
  let xdg_data_home :=
    if truthy (from_option PStr PNone data) then default "" data
    else path_join [home; ".local"; "share"; "fusesoc"] in
  _repo_paths ← init_repos y xdg_data_home REPOS [];
  config ← xquery (os_environ_get "XDG_CONFIG_HOME");
  home ← xquery (os_path_expanduser "~");
  let xdg_config_home :=
    if truthy (from_option PStr PNone config) then default "" config
    else path_join [home; ".config"] in
  let config_file := path_join [xdg_config_home; "fusesoc"; "fusesoc.conf"] in
  found ← xquery (os_path_exists config_file);
  (if found : bool then
     embed (logger WARNING (format "'{}' already exists" config_file))
   else
     embed (logger INFO (format "Writing configuration file to '{}'" config_file));;
     dir_found ← xquery (os_path_exists (os_path_dirname config_file));
     (if dir_found : bool then mret tt
      else xcall (CallMakedirs (os_path_dirname config_file))
                 (os_makedirs (os_path_dirname config_file)));;
     xcall (CallOpen config_file) (file_open config_file);;
     xcall (CallWrite config_file ("[main]" +:+ nl))
           (file_write config_file ("[main]" +:+ nl));;
     xcall (CallWrite config_file
              (format ("cores_root = {}" +:+ nl) (join " " _repo_paths)))
           (file_write config_file
              (format ("cores_root = {}" +:+ nl) (join " " _repo_paths))));;
  embed (logger INFO "FuseSoC is ready to use!").

End ShellProgram.

(** ** Vocabulary for these handlers *)

(** The lines printed among the events of a run. *)
Definition xprinted (tr : list xevent) : list string := printed (base_events tr).

(** The launches among the events: command, arguments and the exception
    raised. *)
Fixpoint launches (tr : list xevent) : list (string * list string * option exn) :=
  match tr with
  | [] => []
  | Outside (CallLauncher cmd argv) r :: post => (cmd, argv, r) :: launches post
  | _ :: post => launches post
  end.

(** The prompts shown. *)
Fixpoint prompts (tr : list xevent) : list string :=
  match tr with
  | [] => []
  | Outside (CallInput prompt) _ :: post => prompt :: prompts post
  | _ :: post => prompts post
  end.

(** The files and directories touched: [os.makedirs], [open] and
    [write]. *)
Fixpoint file_calls (tr : list xevent) : list shell_call :=
  match tr with
  | [] => []
  | Outside (CallMakedirs p) _ :: post => CallMakedirs p :: file_calls post
  | Outside (CallOpen p) _ :: post => CallOpen p :: file_calls post
  | Outside (CallWrite p t) _ :: post => CallWrite p t :: file_calls post
  | _ :: post => file_calls post
  end.

(** The URLs of [REPOS]. *)
Definition repo_urls : list string := (λ repo, repo.1.2) <$> REPOS.

(** [xdg_data_home] and [config_file] of [init] (lines 99-101, 125-127), as
    the environment of a world gives them. *)
Definition xdg_data_home `{Shell} (w : W) : string :=
  if truthy (from_option PStr PNone (os_environ_get "XDG_DATA_HOME" w)) then
    default "" (os_environ_get "XDG_DATA_HOME" w)
  else path_join [os_path_expanduser "~" w; ".local"; "share"; "fusesoc"].

Definition config_file `{Shell} (w : W) : string :=
  path_join [if truthy (from_option PStr PNone (os_environ_get "XDG_CONFIG_HOME" w))
             then default "" (os_environ_get "XDG_CONFIG_HOME" w)
             else path_join [os_path_expanduser "~" w; ".config"];
             "fusesoc"; "fusesoc.conf"].

(** [xwp m Q xs]: running [m] from [xs] ends in a state and an outcome that
    satisfy [Q]. *)
Definition xwp `{Shell} {A} (m : X A) (Q : xstate → outcome A → Prop)
    (xs : xstate) : Prop :=
  Q (m xs).1 (m xs).2.

(** The flags [list_systems] asks every core's tool with (line 170). *)
Definition synth_flags : dict := <["flow" := Some "synth"]> (<["tool" := None]> ∅).

(** The directories of the launches that returned. *)
Fixpoint cloned (tr : list xevent) : list string :=
  match tr with
  | [] => []
  | Outside (CallLauncher _ [_; _; dir]) None :: post => dir :: cloned post
  | _ :: post => cloned post
  end.

(** Every launch among the events is a [git -C root pull] for one of the
    roots, and comes right after the query for the origin of that root
    returned and the record that the root is updated. *)
Definition pulls_guarded (roots : list string) (tr : list xevent) : Prop :=
  ∀ pre cmd argv res post,
    tr = pre ++ Outside (CallLauncher cmd argv) res :: post →
    ∃ root pre',
      root ∈ roots ∧ cmd = "git" ∧ argv = ["-C"; root; "pull"]
      ∧ pre = pre' ++ [Outside (CallCheckOutput (git_origin_argv root)) None;
                       Base (Logged INFO (format "Updating '{}'" root))].

(** The record that ends [init] (line 140). *)
Definition ready : xevent := Base (Logged INFO "FuseSoC is ready to use!").

(** The prompts [init] shows for repositories, each with its default
    directory under the data home (lines 104-109). *)
Definition repo_prompts `{Env} (data : string)
    (repos : list (string * string * string)) : list string :=
  (λ repo, init_prompt repo (path_join [data; repo.1.1])) <$> repos.

(** What the loop of [init] leaves behind on its way through the
    repositories: no file is touched and the last record is not written;
    without [-y] the prompts come in the order of the repositories; every
    launch is a [git clone] of a repository into a directory of its own, in
    the order of the repositories, and with [-y] the directory is the
    default one. *)
Definition repos_visited `{Env} (y : bool) (data : string)
    (repos : list (string * string * string)) (tr : list xevent) : Prop :=
  file_calls tr = []
  ∧ (ready ∉ tr)
  ∧ (prompts tr `prefix_of` (if y then [] else repo_prompts data repos))
  ∧ ∃ dirs,
      length dirs = length repos
      ∧ (y = true → dirs = (λ repo, path_join [data; repo.1.1]) <$> repos)
      ∧ (launches tr).*1
        `sublist_of` zip_with (λ repo dir, ("git", ["clone"; repo.1.2; dir]))
                              repos dirs.

(** A scripted shell over the scripted collaborators: the registered roots
    and cores, the paths that exist, and what git answers. *)
Module DemoShell.

Record disk := mkDisk {
  roots : list string;
  cores : list (string * @Core Demo.env);
  present : string → bool;
  origin : result string;
  launch : result unit;
}.

Definition shell (d : disk) : @Shell Demo.env := {|
  cm_get_cores_root := λ w, (w, Ok (roots d));
  cm_get_cores := λ w, (w, Ok (cores d));
  core_cache_status := λ _ w, (w, Ok "local");
  os_path_exists := λ path _, present d path;
  os_path_dirname := λ path, path +:+ "/..";
  os_environ_get := λ _ _, None;
  os_path_expanduser := λ _ _, "/home/user";
  builtin_input := λ _ w, (w, Ok "");
  subprocess_check_output := λ _ w, (w, origin d);
  launcher_run := λ _ _ w, (w, launch d);
  os_makedirs := λ _ w, (w, Ok tt);
  file_open := λ _ w, (w, Ok tt);
  file_write := λ _ _ w, (w, Ok tt);
|}.

Definition world : Demo.script :=
  Demo.world0 (Ok "soc") (Ok (Some "icarus")) (Ok tt) (Ok tt) (Ok tt) (Ok tt).

Definition xstate0 : @xstate Demo.env := @mkX Demo.env world ∅ [] None.

(** Two roots, one of them on disk, with a checkout of another project;
    two cores; git works. *)
Definition small : disk :=
  mkDisk ["/cfg/cores"; "/cli"] [("uart", "uart"); ("gpio", "gpio")]
         (λ path, String.eqb path "/cfg/cores")
         (Ok ("https://example.org/cores" +:+ nl)) (Ok tt).

(** Nothing registered, nothing on disk. *)
Definition empty : disk := mkDisk [] [] (λ _, false) (Ok "") (Ok tt).

(** Nothing on disk, and git fails. *)
Definition offline : disk :=
  mkDisk ["/cfg/cores"] [] (λ _, false) (Ok "") (Err (RuntimeError "git failed")).

(** One root, on disk, a checkout of a repository of [REPOS]; git works. *)
Definition checkout : disk :=
  mkDisk ["/cores"] [("uart", "uart")] (λ path, String.eqb path "/cores")
         (Ok ("https://github.com/fusesoc/fusesoc-cores" +:+ nl)) (Ok tt).

End DemoShell.

(** * Properties of main.py *)

Lemma string_app_assoc (a b c : string) : (a +:+ b) +:+ c = a +:+ b +:+ c.
Proof.
  induction a as [|x a IH]; [reflexivity|].
  change (String x ((a +:+ b) +:+ c) = String x (a +:+ b +:+ c)).
  by rewrite IH.
Qed.

Lemma contains_middle (pre sub post : string) : contains (pre +:+ sub +:+ post) sub.
Proof. by exists pre, post. Qed.

Section Reasoning.
Context `{Env}.

Lemma wp_ret {A} (a : A) Q s : Q s (Ret a) → wp (mret a) Q s.
Proof. done. Qed.

Lemma wp_exit {A} c (Q : state → outcome A → Prop) s :
  Q s (Exit c) → wp (exit c) Q s.
Proof. done. Qed.

Lemma wp_raise {A} e (Q : state → outcome A → Prop) s :
  Q s (Raise e) → wp (raise e) Q s.
Proof. done. Qed.

Lemma wp_bind {A B} (m : M A) (k : A → M B) Q s :
  wp m (λ s' o, match o with
                | Ret a => wp (k a) Q s'
                | Raise e => Q s' (Raise e)
                | Exit c => Q s' (Exit c)
                end) s →
  wp (m ≫= k) Q s.
Proof.
  unfold wp, mbind, M_bind, bind. destruct (m s) as [s' [a|e|c]]; simpl; auto.
Qed.

Lemma wp_try_except {A} (m : M A) h Q s :
  wp m (λ s' o, match o with
                | Raise e => match h e with
                             | Some k => wp k Q s'
                             | None => Q s' (Raise e)
                             end
                | _ => Q s' o
                end) s →
  wp (try_except m h) Q s.
Proof.
  unfold wp, try_except. destruct (m s) as [s' [a|e|c]]; simpl; auto.
  destruct (h e) as [k|]; auto.
Qed.

Lemma wp_call {A} c (f : W → W * result A) Q s :
  (∀ w a, f (world s) = (w, Ok a) →
          Q (mkState w (heap s) (trace s ++ [Called c None]) (archbits s)) (Ret a)) →
  (∀ w e, f (world s) = (w, Err e) →
          Q (mkState w (heap s) (trace s ++ [Called c (Some e)]) (archbits s))
            (Raise e)) →
  wp (call c f) Q s.
Proof.
  intros Hok Herr. unfold wp, call.
  destruct (f (world s)) as [w [a|e]]; simpl; eauto.
Qed.

Lemma wp_emit ev Q s :
  Q (mkState (world s) (heap s) (trace s ++ [ev]) (archbits s)) (Ret tt) →
  wp (emit ev) Q s.
Proof. done. Qed.

Lemma wp_read_dict l Q s :
  Q s (Ret (default ∅ (heap s !! l))) → wp (read_dict l) Q s.
Proof. done. Qed.

Lemma wp_setitem l k v Q s :
  Q (mkState (world s) (<[l := <[k := v]> (default ∅ (heap s !! l))]> (heap s))
             (trace s) (archbits s)) (Ret tt) →
  wp (setitem l k v) Q s.
Proof. done. Qed.

(** One step of symbolic execution; a call splits into its return and,
    per exception class, its failure. *)
Ltac wp_step :=
  lazymatch goal with
  | |- wp (mbind _ _) _ _ => apply wp_bind
  | |- wp (mret _) _ _ => apply wp_ret
  | |- wp (exit _) _ _ => apply wp_exit
  | |- wp (raise _) _ _ => apply wp_raise
  | |- wp (try_except _ _) _ _ => apply wp_try_except
  | |- wp (call _ _) _ _ => apply wp_call; [intros ? ? _ | intros ? [] _]
  | |- wp (logger _ _) _ _ => apply wp_emit
  | |- wp (print _) _ _ => apply wp_emit
  | |- wp (emit _) _ _ => apply wp_emit
  | |- wp (read_dict _) _ _ => apply wp_read_dict
  | |- wp (setitem _ _ _) _ _ => apply wp_setitem
  | |- wp (_get_core _) _ _ => unfold _get_core
  | |- wp (_import _) _ _ => unfold _import
  | |- wp (if ?b then _ else _) _ _ => destruct b
  end; cbn [fst snd world heap trace archbits].

(** The new events of a leaf, as a list appended to the trace at entry. *)
Ltac new_events :=
  rewrite <- ?app_assoc; eexists; (split; [reflexivity|]).

Lemma fails_fast_sound tr exited pre c e post :
  fails_fast tr exited = true →
  tr = pre ++ Called c (Some e) :: post →
  stage_failure c e = true →
  exited = true ∧ post ≠ [] ∧ Forall (λ ev, is_error_record ev = true) post.
Proof.
  revert tr. induction pre as [|ev pre IH]; intros tr Hff -> Hsf; simpl in Hff.
  - rewrite Hsf in Hff.
    apply andb_prop in Hff as [Hff Hall]. apply andb_prop in Hff as [Hex Hlen].
    split; [done|]. split.
    + destruct post; [discriminate | done].
    + apply Forall_forall. intros ev Hev.
      rewrite forallb_forall in Hall. apply Hall. by apply list_elem_of_In.
  - destruct ev as [c' [e'|] | |]; try (eapply IH; eauto; fail).
    destruct (stage_failure c' e') eqn:Hsf'; [|eapply IH; eauto].
    apply andb_prop in Hff as [_ Hall].
    rewrite forallb_forall in Hall.
    specialize (Hall (Called c (Some e))).
    rewrite in_app_iff in Hall. simpl in Hall. discriminate Hall. auto.
Qed.

Lemma run_backend_events tool_type export do_configure do_build do_run
    flags system backendargs s :
  wp (run_backend tool_type export do_configure do_build do_run
                  flags system backendargs)
     (λ s' o, ∃ tr, trace s' = trace s ++ tr
                  ∧ backend_ops tr `prefix_of`
                      enabled_stages do_configure do_build do_run backendargs
                  ∧ fails_fast tr (is_exit_1 o) = true) s.
Proof.
  unfold run_backend.
  destruct (String.eqb tool_type "simulator").
  all: repeat wp_step.
  all: new_events.
  all: split; [cbn; by eexists | reflexivity].
Qed.


Lemma is_exit_1_true {A} (o : outcome A) : is_exit_1 o = true → o = Exit 1.
Proof. destruct o as [| |c]; try discriminate. by destruct c as [|[]|]. Qed.

(** C4. Whatever the collaborators answer, the backend operations that
    [run_backend] invokes are an initial part of the enabled stages, taken
    in the order configure, build, run with the backend arguments of the
    call: each operation at most once, none for a stage that is switched
    off, and build never before configure. *)
Theorem run_backend_stage_order tool_type export do_configure do_build do_run
    flags system backendargs s :
  ∃ tr,
    trace (run_backend tool_type export do_configure do_build do_run
                       flags system backendargs s).1 = trace s ++ tr
    ∧ backend_ops tr `prefix_of`
        enabled_stages do_configure do_build do_run backendargs
    ∧ enabled_stages do_configure do_build do_run backendargs `sublist_of`
        [BackendConfigure backendargs; BackendBuild; BackendRun backendargs]
    ∧ NoDup (backend_ops tr).
Proof.
  destruct (run_backend_events tool_type export do_configure do_build do_run
              flags system backendargs s) as (tr & Htr & Hpre & _).
  assert (Hsub : enabled_stages do_configure do_build do_run backendargs
                 `sublist_of` [BackendConfigure backendargs; BackendBuild;
                               BackendRun backendargs]).
  { destruct do_configure, do_build, do_run; cbn;
      repeat first [apply sublist_nil | apply sublist_skip | apply sublist_cons]. }
  exists tr. repeat split; [done.. |].
  eapply (sublist_NoDup _ [BackendConfigure backendargs; BackendBuild;
                           BackendRun backendargs]).
  - apply NoDup_ListNoDup. repeat constructor; simpl; intuition discriminate.
  - transitivity (enabled_stages do_configure do_build do_run backendargs);
      [|done].
    destruct Hpre as [k ->]. by apply sublist_inserts_r.
Qed.

(** C5. When a backend operation raises RuntimeError, or [get_eda_api]
    raises DependencyError or SyntaxError, [run_backend] ends in
    [exit(1)], and what follows the failed call is error records only, at
    least one: no later stage runs. *)
Theorem run_backend_stage_failure tool_type export do_configure do_build do_run
    flags system backendargs s pre c e post :
  trace (run_backend tool_type export do_configure do_build do_run
                     flags system backendargs s).1
    = trace s ++ pre ++ Called c (Some e) :: post →
  stage_failure c e = true →
  (run_backend tool_type export do_configure do_build do_run
               flags system backendargs s).2 = Exit 1
  ∧ post ≠ []
  ∧ Forall (λ ev, is_error_record ev = true) post.
Proof.
  intros Htrace Hsf.
  destruct (run_backend_events tool_type export do_configure do_build do_run
              flags system backendargs s) as (tr & Htr & _ & Hff).
  rewrite Htr in Htrace. apply app_inv_head in Htrace.
  destruct (fails_fast_sound _ _ _ _ _ _ Hff Htrace Hsf) as (Hex & Hpost & Hall).
  split; [by apply is_exit_1_true | done].
Qed.

(** C6. Once the core is found and [core.get_tool(flags)] has answered:
    without a tool, [run_backend] logs the tool error of the flow, which
    names the system, and exits with status 1 right there, before any
    backend is constructed or any stage runs; with a tool, the tool is
    stored in [flags['tool']], and every resolution and setup call is
    handed that dictionary. *)
Theorem run_backend_tool_lookup tool_type export do_configure do_build do_run
    flags system backendargs s w1 core w2 tool :
  cm_get_core system (world s) = (w1, Ok core) →
  core_get_tool core (default ∅ (heap s !! flags)) w1 = (w2, Ok tool) →
  let fl := default ∅ (heap s !! flags) in
  let r := run_backend tool_type export do_configure do_build do_run
                       flags system backendargs s in
  if no_tool tool then
    r.1 = mkState w2 (heap s)
            (trace s ++ [Called (CallGetCore system) None;
                         Called (CallGetTool fl) None;
                         Logged ERROR (format (tool_error tool_type) system)])
            (archbits s)
    ∧ r.2 = Exit 1
    ∧ contains (format (tool_error tool_type) system) system
  else
    ∃ t tr, tool = Some t
      ∧ heap r.1 = <[flags := <["tool" := Some t]> fl]> (heap s)
      ∧ trace r.1 = trace s ++ tr
      ∧ Forall (λ d, d = <["tool" := Some t]> fl) (flags_seen tr).
Proof.
  intros Hcore Htool fl r.
  change (wp (run_backend tool_type export do_configure do_build do_run
                          flags system backendargs)
             (λ s' o,
                if no_tool tool then
                  s' = mkState w2 (heap s)
                         (trace s ++ [Called (CallGetCore system) None;
                                      Called (CallGetTool fl) None;
                                      Logged ERROR
                                        (format (tool_error tool_type) system)])
                         (archbits s)
                  ∧ o = Exit 1
                  ∧ contains (format (tool_error tool_type) system) system
                else
                  ∃ t tr, tool = Some t
                    ∧ heap s' = <[flags := <["tool" := Some t]> fl]> (heap s)
                    ∧ trace s' = trace s ++ tr
                    ∧ Forall (λ d, d = <["tool" := Some t]> fl) (flags_seen tr)) s).
  unfold run_backend, tool_error.
  destruct (String.eqb tool_type "simulator").
  all: apply wp_bind; unfold _get_core; apply wp_try_except.
  all: apply wp_call; intros w x Hw; rewrite Hcore in Hw; [|discriminate].
  all: simplify_eq; cbn [fst snd world heap trace archbits].
  all: apply wp_bind, wp_read_dict, wp_bind.
  all: apply wp_call; cbn [fst snd world heap trace archbits];
    intros w' x' Hw'; rewrite Htool in Hw'; [|discriminate].
  all: simplify_eq; cbn [fst snd world heap trace archbits].
  all: match goal with
       | |- context [no_tool ?t] => destruct (no_tool t) eqn:Hnt
       end.
  all: try (destruct x' as [t|]; [cbn [default from_option] | discriminate]).
  all: repeat wp_step.
  all: try (split; [by rewrite <- !app_assoc | split; [done|]];
            first [ by exists "No simulator was supplied on command line or found in '",
                              "' core description"
                  | by exists "Unable to find synthesis info for '", "'" ]).
  all: exists t; rewrite <- ?app_assoc; eexists; split; [done|];
    split; [done|]; split; [done|].
  all: cbn [flags_seen app]; rewrite ?lookup_insert_eq; cbn [default from_option];
    repeat constructor.
Qed.

(** C7. When looking the core up raises DependencyError, [_get_core] logs
    an error that contains the requested name and the unresolved identity
    and exits with status 1; when it raises RuntimeError, the text of the
    error is logged and the exit status is 1 as well; any other exception
    is left to the caller. *)
Theorem get_core_failure name s w e :
  cm_get_core name (world s) = (w, Err e) →
  let failed := trace s ++ [Called (CallGetCore name) (Some e)] in
  match e with
  | DependencyError value _ =>
      ∃ msg, _get_core name s =
               (mkState w (heap s) (failed ++ [Logged ERROR msg]) (archbits s),
                Exit 1)
             ∧ contains msg name ∧ contains msg value
  | RuntimeError msg =>
      _get_core name s =
        (mkState w (heap s) (failed ++ [Logged ERROR msg]) (archbits s), Exit 1)
  | _ => _get_core name s = (mkState w (heap s) failed (archbits s), Raise e)
  end.
Proof.
  intros Hcall failed. unfold _get_core, try_except, call. rewrite Hcall.
  destruct e; try reflexivity.
  eexists. split; [reflexivity|]. split.
  - apply contains_middle.
  - exists ("'" +:+ name +:+ "' or any of its dependencies requires '"),
           "', but this core was not found".
    by rewrite !string_app_assoc.
Qed.

(** C8. For every namespace, [pgm] ends in a TypeError raised while the
    call of [run_backend] binds its arguments: seven are passed for eight
    parameters, so that each argument after the first lands one parameter
    early and [backendargs] gets none.  Nothing was called, logged or
    printed by then. *)
Theorem pgm_type_error a s :
  let fl : dict := <["flow" := Some "synth"]> (<["tool" := None]> ∅) in
  let l := fresh (dom (heap s)) in
  length (pgm_actuals a l) = 7%nat
  ∧ length run_backend_params = 8%nat
  ∧ zip run_backend_params (pgm_actuals a l)
    = [("tool_type", PStr "build"); ("export", PBool false);
       ("do_configure", PBool false); ("do_build", PBool true);
       ("do_run", PRef l); ("flags", PStr (args.system a));
       ("system", PList (args.backendargs a))]
  ∧ pgm a s
    = (mkState (world s) (<[l := fl]> (heap s)) (trace s) (archbits s),
       Raise (TypeError
         "run_backend() missing 1 required positional argument: 'backendargs'")).
Proof. repeat split. Qed.

(** C9. [run_flow] reaches [run_backend] exactly for the eleven tool
    names of its two lists, as a simulator or as a build tool; for any
    other tool it raises UnboundLocalError on reading [tool_type], after
    building the flags and before anything is called. *)
Theorem run_flow_tool_type a s :
  let fl : dict :=
    <["tool" := Some (args.tool a)]> (<["target" := args.target a]> ∅) in
  let l := fresh (dom (heap s)) in
  let s1 := mkState (world s) (<[l := fl]> (heap s)) (trace s) (archbits s) in
  simulators ++ builders
    = ["ghdl"; "icarus"; "isim"; "modelsim"; "rivierapro"; "verilator"; "xsim";
       "icestorm"; "ise"; "quartus"; "vivado"]
  ∧ if decide (args.tool a ∈ simulators ++ builders) then
      ∃ do_configure do_build do_run,
        run_flow a s
        = run_backend (if decide (args.tool a ∈ simulators)
                       then "simulator" else "build")
                      (negb (args.no_export a)) do_configure do_build do_run
                      l (args.system a) (args.backendargs a) s1
    else
      run_flow a s
      = (s1, Raise (UnboundLocalError
                      "local variable 'tool_type' referenced before assignment")).
Proof.
  intros fl l s1. split; [reflexivity|].
  unfold run_flow.
  destruct (decide ((args.setup a, args.build a, args.launch a)
                    = (false, false, false))) as [Hst|Hst].
  all: destruct (decide (args.tool a ∈ simulators ++ builders)) as [Hin|Hout].
  all: destruct (decide (args.tool a ∈ simulators)) as [Hs|Hs];
    [|destruct (decide (args.tool a ∈ builders)) as [Hb|Hb]].
  all: try (exfalso; rewrite elem_of_app in *; tauto).
  all: try reflexivity.
  all: by eexists _, _, _.
Qed.

(** C2. Whatever the state, and with it the command line, [main] ends in
    UnboundLocalError for [parser_sim] with nothing called, logged or
    printed: the statement that fails is the [add_argument] on
    [parser_sim] in the run-subparser section, and the statement that
    parses the command line and runs the command comes after it. *)
Theorem main_unbound_parser_sim s :
  let unbound :=
    UnboundLocalError "local variable 'parser_sim' referenced before assignment" in
  let assigned := concat (assigns <$> main_body) in
  main s = (s, Raise unbound)
  ∧ main_body !! 36%nat = Some (Add_argument "parser_sim" "--no-export")
  ∧ (exec assigned (take 37 main_body) (mkFrame ∅ []) s).2 = Raise unbound
  ∧ (Parse_and_run "parser" ∉ take 37 main_body)
  ∧ (Parse_and_run "parser" ∈ drop 37 main_body).
Proof.
  intros unbound assigned.
  split; [reflexivity|]. split; [reflexivity|]. split; [reflexivity|].
  split; apply (bool_decide_unpack _); by vm_compute.
Qed.

End Reasoning.

(** * Properties of the registry *)

Module CoreManagerFacts.
Import CoreManager.
Local Open Scope nat_scope.

Lemma component_matches_refl {A} `{EqDecision A} (c : option A) :
  component_matches c c = true.
Proof. destruct c; [by apply bool_decide_eq_true|done]. Qed.

Lemma matches_refl i : matches i i = true.
Proof.
  unfold matches. rewrite !component_matches_refl.
  by rewrite bool_decide_eq_true_2.
Qed.

Lemma agreement_le q c : agreement q c ≤ 4.
Proof. unfold agreement. repeat case_bool_decide; lia. Qed.

Lemma agreement_refl i : agreement i i = 4.
Proof. unfold agreement. by rewrite !bool_decide_eq_true_2. Qed.

Lemma agreement_full q c : agreement q c = 4 → c = q.
Proof.
  unfold agreement. destruct q, c; simpl.
  repeat case_bool_decide; try lia. intros _. congruence.
Qed.

Lemma best_match_elem accept q tbl d :
  best_match accept q tbl = Some d → d ∈ tbl ∧ accept (identity d) = true.
Proof.
  revert d. induction tbl as [|x tbl IH]; intros d; simpl; [done|].
  destruct (accept (identity x)) eqn:Hacc.
  - destruct (best_match accept q tbl) as [d'|].
    + destruct (_ <=? _)%nat; intros [= <-].
      * destruct (IH d' eq_refl). split; [by right|done].
      * split; [by left|done].
    + intros [= <-]. split; [by left|done].
  - intros Hd. destruct (IH d Hd). split; [by right|done].
Qed.

(** With one descriptor per identity, a query that is the identity of a
    registered descriptor finds that descriptor. *)
Lemma best_match_exact tbl d :
  NoDup (identity <$> tbl) → d ∈ tbl →
  best_match (matches (identity d)) (identity d) tbl = Some d.
Proof.
  induction tbl as [|x tbl IH]; intros Hnd Hin; [by apply elem_of_nil in Hin|].
  rewrite fmap_cons in Hnd. apply NoDup_cons in Hnd as [Hx Hnd].
  simpl. apply elem_of_cons in Hin as [->|Hin].
  - rewrite matches_refl.
    destruct (best_match _ _ tbl) as [d'|] eqn:Hbest; [|done].
    apply best_match_elem in Hbest as [Hd' _].
    destruct (Nat.leb_spec (agreement (identity x) (identity x))
                           (agreement (identity x) (identity d'))) as [Hle|]; [|done].
    rewrite agreement_refl in Hle.
    pose proof (agreement_le (identity x) (identity d')).
    exfalso. apply Hx. rewrite <- (agreement_full (identity x) (identity d')) by lia.
    by apply list_elem_of_fmap_2.
  - rewrite (IH Hnd Hin).
    destruct (matches (identity d) (identity x)); [|done].
    rewrite agreement_refl.
    pose proof (agreement_le (identity d) (identity x)).
    by destruct (Nat.leb_spec (agreement (identity d) (identity x)) 4); [|lia].
Qed.

Lemma register_NoDup tbl d :
  NoDup (identity <$> tbl) → NoDup (identity <$> register tbl d).
Proof.
  intros Hnd. unfold register. rewrite fmap_app. apply NoDup_app. split; [|split].
  - eapply sublist_NoDup; [done|]. apply fmap_sublist, sublist_filter.
  - intros i Hi Hd. apply list_elem_of_fmap in Hi as (x & -> & Hx).
    apply list_elem_of_filter in Hx as [Hne _].
    apply list_elem_of_singleton in Hd. done.
  - apply NoDup_singleton.
Qed.

Lemma foldl_register_NoDup ds tbl :
  NoDup (identity <$> tbl) → NoDup (identity <$> foldl register tbl ds).
Proof.
  revert tbl. induction ds as [|d ds IH]; intros tbl Hnd; [done|].
  simpl. by apply IH, register_NoDup.
Qed.

Lemma last_with_snoc i ds d :
  last_with i (ds ++ [d])
  = if decide (identity d = i) then Some d else last_with i ds.
Proof.
  unfold last_with. rewrite filter_app, filter_cons, filter_nil.
  case_decide.
  - by rewrite last_snoc.
  - by rewrite app_nil_r.
Qed.

Lemma last_with_app i ds1 ds2 :
  last_with i (ds1 ++ ds2) = last_with i ds2 ∪ last_with i ds1.
Proof.
  induction ds2 as [|d ds2 IH] using rev_ind.
  - rewrite app_nil_r. change (last_with i []) with (@None CoreDescriptor).
    by rewrite (left_id None _).
  - rewrite app_assoc, !last_with_snoc.
    case_decide; [by destruct (last_with i ds1) | done].
Qed.

(** The table after registering [ds]: the last descriptor of each
    identity among [ds] is in it. *)
Lemma foldl_register_last i ds tbl d :
  last_with i ds = Some d → d ∈ foldl register tbl ds ∧ identity d = i.
Proof.
  revert d. induction ds as [|x ds IH] using rev_ind; intros d; [done|].
  rewrite last_with_snoc, foldl_snoc. case_decide as Hx.
  - intros [= <-]. split; [|done]. unfold register. apply elem_of_app. right.
    by apply list_elem_of_singleton.
  - intros Hd. destruct (IH d Hd) as [Hin Hid]. split; [|done].
    unfold register. apply elem_of_app. left. apply list_elem_of_filter.
    split; [congruence|done].
Qed.

Lemma lookup_registered i ds roots tbl d :
  NoDup (identity <$> tbl) → last_with i ds = Some d →
  lookup i (mkRegistry roots (foldl register tbl ds)) = inr d.
Proof.
  intros Hnd Hlast.
  destruct (foldl_register_last i ds tbl d Hlast) as [Hin <-].
  unfold lookup. cbn [table].
  by rewrite best_match_exact; [|apply foldl_register_NoDup|].
Qed.

Lemma add_roots_registry fs paths reg :
  (add_roots fs paths reg).1
  = mkRegistry (roots reg ++ registered fs paths)
               (foldl register (table reg)
                      (concat ((λ root, default [] (fs root)) <$> paths))).
Proof.
  revert reg. induction paths as [|root rest IH]; intros reg.
  - cbn. rewrite app_nil_r. by destruct reg.
  - cbn [add_roots fst]. rewrite IH. unfold add_root, registered.
    rewrite filter_cons. cbn [fmap list_fmap concat].
    destruct (fs root) as [found|] eqn:Hfs; cbn [fst roots table default from_option].
    + rewrite decide_True by (by eexists).
      by rewrite foldl_app, <- app_assoc.
    + rewrite decide_False by (by intros [? ?]). done.
Qed.

Lemma add_roots_failure fs paths reg :
  (add_roots fs paths reg).2 = inr tt
  ∨ ∃ root, (add_roots fs paths reg).2 = inl (RootNotFoundError root).
Proof.
  revert reg. induction paths as [|root rest IH]; intros reg; [by left|].
  cbn [add_roots snd]. unfold add_root. destruct (fs root); cbn [fst snd].
  - apply IH.
  - right. by eexists.
Qed.

Lemma add_cores_root_recoverable fs g reg :
  match raised (add_cores_root fs g reg).2 with
  | Ok _ => True
  | Err e => recoverable e = true
  end.
Proof.
  unfold add_cores_root.
  by destruct (add_roots_failure fs (group_paths g) reg) as [->|[root ->]].
Qed.

Lemma elem_of_concat {A} (x : A) (ls : list (list A)) :
  x ∈ concat ls ↔ ∃ l, x ∈ l ∧ l ∈ ls.
Proof.
  induction ls as [|l ls IH]; cbn [concat].
  - split; [by intros ?%elem_of_nil|]. by intros (? & _ & ?%elem_of_nil).
  - rewrite elem_of_app, IH. split.
    + intros [?|(l' & ? & ?)]; [exists l; split; [done|by left]|].
      exists l'. split; [done|by right].
    + intros (l' & Hx & [->|?]%elem_of_cons); [by left|right]. by exists l'.
Qed.

Lemma filter_all {A} (P : A → Prop) `{∀ x, Decision (P x)} (l : list A) :
  (∀ x, x ∈ l → P x) → filter P l = l.
Proof.
  induction l as [|x l IH]; intros Hall; [done|].
  rewrite filter_cons_True by (apply Hall; by left).
  f_equal. apply IH. intros y Hy. apply Hall. by right.
Qed.

(** Registering into a table: what the new descriptors replace goes, the
    rest stays in front, in its order. *)
Lemma foldl_register_split tbl ds :
  foldl register tbl ds
  = filter (λ d, identity d ∉ identity <$> ds) tbl ++ foldl register [] ds.
Proof.
  induction ds as [|x ds IH] using rev_ind.
  - cbn. rewrite app_nil_r. symmetry. apply filter_all.
    intros d _. apply not_elem_of_nil.
  - rewrite !foldl_snoc, IH. unfold register at 1 3.
    rewrite filter_app, <- app_assoc. f_equal.
    rewrite list_filter_filter. apply list_filter_iff. intros d.
    rewrite fmap_app, not_elem_of_app. cbn.
    rewrite list_elem_of_singleton. tauto.
Qed.

Lemma foldl_register_nil tbl :
  NoDup (identity <$> tbl) → foldl register [] tbl = tbl.
Proof.
  induction tbl as [|x tbl IH] using rev_ind; intros Hnd; [done|].
  rewrite fmap_app in Hnd. apply NoDup_app in Hnd as (Hnd & Hx & _).
  rewrite foldl_snoc, IH by done. unfold register. f_equal.
  apply filter_all. intros d Hd Heq.
  apply (Hx (identity d)); [by apply list_elem_of_fmap_2|].
  rewrite Heq. cbn. by left.
Qed.

Lemma foldl_register_from tbl ds :
  NoDup (identity <$> tbl) →
  foldl register tbl ds = foldl register [] (tbl ++ ds).
Proof. intros Hnd. by rewrite foldl_app, foldl_register_nil. Qed.

(** The table after registering [ds] holds, for each identity, the last
    descriptor of that identity among [ds], and nothing else. *)
Lemma elem_of_foldl_register d ds :
  d ∈ foldl register [] ds ↔ last_with (identity d) ds = Some d.
Proof.
  split; [|intros Hlast; by apply (foldl_register_last (identity d))].
  revert d. induction ds as [|x ds IH] using rev_ind; intros d.
  - by intros ?%elem_of_nil.
  - rewrite foldl_snoc, last_with_snoc. unfold register.
    intros [Hd|Hd]%elem_of_app.
    + apply list_elem_of_filter in Hd as [Hne Hd].
      rewrite decide_False by congruence. by apply IH.
    + apply list_elem_of_singleton in Hd as ->. by rewrite decide_True.
Qed.

Lemma last_with_elem_of i ds d : last_with i ds = Some d → d ∈ ds ∧ identity d = i.
Proof.
  unfold last_with. intros Hlast%last_Some_elem_of.
  by apply list_elem_of_filter in Hlast as [? ?].
Qed.

Lemma last_with_is_Some i ds :
  i ∈ identity <$> ds → is_Some (last_with i ds).
Proof.
  intros (d & -> & Hd)%list_elem_of_fmap. unfold last_with.
  apply last_is_Some. intros Hnil.
  assert (d ∈ filter (λ d', identity d' = identity d) ds) as Hin
    by (by apply list_elem_of_filter).
  rewrite Hnil in Hin. by apply elem_of_nil in Hin.
Qed.

(** The best match of a table in two parts: the later part wins a tie. *)
Lemma best_match_app accept q l1 l2 :
  best_match accept q (l1 ++ l2)
  = match best_match accept q l1, best_match accept q l2 with
    | Some b1, Some b2 =>
        if agreement q (identity b1) <=? agreement q (identity b2)
        then Some b2 else Some b1
    | Some b1, None => Some b1
    | None, found => found
    end.
Proof.
  induction l1 as [|x l1 IH]; cbn [app best_match].
  - by destruct (best_match accept q l2).
  - rewrite IH. destruct (accept (identity x)); [|done].
    destruct (best_match accept q l1) as [b1|], (best_match accept q l2) as [b2|];
      try done.
    + destruct (Nat.leb_spec (agreement q (identity b1)) (agreement q (identity b2)));
        destruct (Nat.leb_spec (agreement q (identity x)) (agreement q (identity b1)));
        destruct (Nat.leb_spec (agreement q (identity x)) (agreement q (identity b2)));
        try done; try lia.
      all: destruct (Nat.leb_spec (agreement q (identity b1))
                                  (agreement q (identity b2))); try done; lia.
    + by destruct (_ <=? _).
Qed.

Lemma best_match_is_Some accept q tbl t :
  t ∈ tbl → accept (identity t) = true → is_Some (best_match accept q tbl).
Proof.
  induction tbl as [|x tbl IH]; intros Ht Hacc; [by apply elem_of_nil in Ht|].
  cbn. apply elem_of_cons in Ht as [->|Ht].
  - rewrite Hacc. destruct (best_match accept q tbl); [|by eexists].
    destruct (_ <=? _); by eexists.
  - destruct (IH Ht Hacc) as [d' ->].
    destruct (accept (identity x)); [|by eexists].
    destruct (_ <=? _); by eexists.
Qed.

Lemma best_match_max accept q tbl d t :
  best_match accept q tbl = Some d → t ∈ tbl → accept (identity t) = true →
  agreement q (identity t) ≤ agreement q (identity d).
Proof.
  revert d. induction tbl as [|x tbl IH]; intros d Hbest Ht Hacc;
    [by apply elem_of_nil in Ht|].
  cbn in Hbest. apply elem_of_cons in Ht as [->|Ht].
  - rewrite Hacc in Hbest. destruct (best_match accept q tbl) as [d'|].
    + destruct (Nat.leb_spec (agreement q (identity x)) (agreement q (identity d')));
        injection Hbest as <-; lia.
    + by injection Hbest as <-.
  - destruct (best_match accept q tbl) as [d'|] eqn:Hlater.
    + specialize (IH d' eq_refl Ht Hacc).
      destruct (accept (identity x)); [|injection Hbest as <-; lia].
      destruct (Nat.leb_spec (agreement q (identity x)) (agreement q (identity d')));
        injection Hbest as <-; lia.
    + destruct (best_match_is_Some accept q tbl t Ht Hacc) as [d' Hd'].
      by rewrite Hd' in Hlater.
Qed.

Lemma source_rank_pos i sources :
  i ∈ identity <$> concat sources ↔ 0 < source_rank i sources.
Proof.
  induction sources as [|source higher IH]; cbn [concat source_rank].
  - split; [by intros ?%elem_of_nil|lia].
  - rewrite fmap_app, elem_of_app, IH.
    destruct (source_rank i higher); [|split; [lia|right; lia]].
    case_bool_decide; split; try lia; try tauto.
Qed.

(** Among equally specific matches, the one that is found comes from the
    highest source. *)
Lemma best_match_rank accept q sources d t :
  best_match accept q (foldl register [] (concat sources)) = Some d →
  t ∈ foldl register [] (concat sources) → accept (identity t) = true →
  agreement q (identity t) = agreement q (identity d) →
  source_rank (identity t) sources ≤ source_rank (identity d) sources.
Proof.
  revert d t. induction sources as [|source higher IH]; intros d t Hbest Ht Hacc Hagr;
    [by apply elem_of_nil in Ht|].
  cbn [concat] in Hbest, Ht. rewrite foldl_app, foldl_register_split in Hbest, Ht.
  cbn [source_rank].
  assert (Hin : ∀ x, x ∈ foldl register [] (concat higher) →
                     0 < source_rank (identity x) higher).
  { intros x Hx. apply source_rank_pos.
    apply elem_of_foldl_register, last_with_elem_of in Hx as [Hx _].
    by apply list_elem_of_fmap_2. }
  assert (Hd : d ∈ filter (λ d0, identity d0 ∉ identity <$> concat higher)
                          (foldl register [] source)
                   ++ foldl register [] (concat higher))
    by (by apply best_match_elem in Hbest as [? _]).
  assert (Hlow : ∀ x, x ∈ filter (λ d0, identity d0 ∉ identity <$> concat higher)
                                 (foldl register [] source) →
                      source_rank (identity x) higher = 0
                      ∧ identity x ∈ identity <$> source).
  { intros x [Hx1 Hx2]%list_elem_of_filter. split.
    - destruct (source_rank (identity x) higher) eqn:Hr; [done|].
      exfalso. apply Hx1, source_rank_pos. lia.
    - apply elem_of_foldl_register, last_with_elem_of in Hx2 as [Hx2 _].
      by apply list_elem_of_fmap_2. }
  apply elem_of_app in Ht as [Ht|Ht].
  - destruct (Hlow t Ht) as [-> Hts]. rewrite bool_decide_eq_true_2 by done.
    apply elem_of_app in Hd as [Hd|Hd].
    + destruct (Hlow d Hd) as [-> Hds]. by rewrite bool_decide_eq_true_2.
    + specialize (Hin d Hd). destruct (source_rank (identity d) higher); lia.
  - rewrite best_match_app in Hbest.
    destruct (best_match_is_Some accept q _ t Ht Hacc) as [b2 Hb2].
    pose proof (best_match_max _ _ _ _ _ Hb2 Ht Hacc) as Hle.
    rewrite Hb2 in Hbest.
    destruct (best_match accept q (filter _ (foldl register [] source)))
      as [b1|] eqn:Hb1.
    + destruct (Nat.leb_spec (agreement q (identity b1)) (agreement q (identity b2)));
        injection Hbest as <-; [|lia].
      specialize (IH b2 t Hb2 Ht Hacc Hagr).
      pose proof (Hin t Ht). pose proof (Hin b2 (proj1 (best_match_elem _ _ _ _ Hb2))).
      destruct (source_rank (identity t) higher),
               (source_rank (identity b2) higher); lia.
    + injection Hbest as <-.
      specialize (IH b2 t Hb2 Ht Hacc Hagr).
      pose proof (Hin t Ht). pose proof (Hin b2 (proj1 (best_match_elem _ _ _ _ Hb2))).
      destruct (source_rank (identity t) higher),
               (source_rank (identity b2) higher); lia.
Qed.

End CoreManagerFacts.

(** * Properties of the registration loop *)

Section Registration.
Context `{Env}.

Lemma register_roots_step g rest s :
  register_roots (g :: rest) s =
    match cm_add_cores_root g (world s) with
    | (w, Ok _) =>
        register_roots rest
          (mkState w (heap s) (trace s ++ [Called (CallAddCoresRoot g) None])
                   (archbits s))
    | (w, Err e) =>
        let failed := trace s ++ [Called (CallAddCoresRoot g) (Some e)] in
        if recoverable e then
          register_roots rest
            (mkState w (heap s)
               (failed ++ [Logged WARNING
                             (format "Failed to register cores root '{}'"
                                     (exn_str e))])
               (archbits s))
        else (mkState w (heap s) failed (archbits s), Raise e)
    end.
Proof.
  cbn [register_roots]. unfold mbind, M_bind, bind, try_except, call.
  destruct (cm_add_cores_root g (world s)) as [w [[]|e]]; [done|].
  by destruct e.
Qed.

Lemma register_roots_extends groups s :
  ∃ tr, trace (register_roots groups s).1 = trace s ++ tr.
Proof.
  revert s. induction groups as [|g rest IH]; intros s.
  - exists []. by rewrite app_nil_r.
  - rewrite register_roots_step.
    destruct (cm_add_cores_root g (world s)) as [w [[]|e]].
    + destruct (IH (mkState w (heap s)
                      (trace s ++ [Called (CallAddCoresRoot g) None])
                      (archbits s))) as [tr Htr].
      rewrite Htr. cbn. rewrite <- app_assoc. by eexists.
    + cbn zeta. destruct (recoverable e).
      * match goal with
        | |- context [register_roots rest ?s1] => destruct (IH s1) as [tr Htr]
        end.
        rewrite Htr. cbn. rewrite <- !app_assoc. by eexists.
      * cbn. by eexists.
Qed.

Lemma register_roots_registry fs reg_of groups s :
  registry_backed fs reg_of →
  (register_roots groups s).2 = Ret tt
  ∧ reg_of (world (register_roots groups s).1)
    = foldl (λ reg g, (CoreManager.add_cores_root fs g reg).1)
            (reg_of (world s)) groups
  ∧ heap (register_roots groups s).1 = heap s
  ∧ archbits (register_roots groups s).1 = archbits s
  ∧ ∃ tr, trace (register_roots groups s).1 = trace s ++ tr
        ∧ root_calls tr = groups.
Proof.
  intros Hrb. revert s. induction groups as [|g rest IH]; intros s.
  - split; [done|]. split; [done|]. split; [done|]. split; [done|].
    exists []. by rewrite app_nil_r.
  - rewrite register_roots_step. cbn [foldl].
    pose proof (Hrb g (world s)) as Hg.
    pose proof (CoreManagerFacts.add_cores_root_recoverable fs g (reg_of (world s))) as Hrec.
    destruct (cm_add_cores_root g (world s)) as [w r].
    cbn [fst snd] in Hg. injection Hg as Hreg Hres. rewrite <- Hres in Hrec.
    rewrite <- Hreg.
    destruct r as [[]|e]; [|cbn zeta; rewrite Hrec].
    all: match goal with
         | |- context [register_roots _ ?s1] =>
             destruct (IH s1) as (Hret & Hfold & Hheap & Harch & tr & Htr & Hcalls)
         end.
    all: split; [done|]; split; [done|]; split; [done|]; split; [done|].
    all: rewrite Htr; cbn [trace]; rewrite <- ?app_assoc; eexists;
      (split; [done|]); cbn; by rewrite Hcalls.
Qed.

(** The registry after a list of groups: every root that exists is added,
    in the order of the groups and of the roots in each. *)
Lemma add_groups_registry fs groups reg :
  foldl (λ reg g, (CoreManager.add_cores_root fs g reg).1) reg groups
  = CoreManager.mkRegistry
      (CoreManager.roots reg
       ++ concat ((λ g, registered fs (CoreManager.group_paths g)) <$> groups))
      (foldl CoreManager.register (CoreManager.table reg)
             (concat (provided fs <$> groups))).
Proof.
  revert reg. induction groups as [|g rest IH]; intros reg.
  - cbn. rewrite app_nil_r. by destruct reg.
  - cbn [foldl fmap list_fmap concat]. rewrite IH.
    unfold CoreManager.add_cores_root.
    rewrite CoreManagerFacts.add_roots_registry.
    cbn [CoreManager.roots CoreManager.table].
    by rewrite foldl_app, <- app_assoc.
Qed.

(** C3. In the registration loop of [run], when the exceptions that
    [add_cores_root] raises are RuntimeError or IOError, the loop returns
    normally after one call per group, in the order of the groups, each
    failed call followed by its warning.  With the registry behind
    [add_cores_root], every root of every group that exists is then among
    the roots of the registry, and every core under it is listed, whatever
    failed before it in its own group or in an earlier one. *)
Theorem register_roots_recovers groups s tr :
  trace (register_roots groups s).1 = trace s ++ tr →
  only_recoverable tr = true →
  (register_roots groups s).2 = Ret tt
  ∧ (∃ results, length results = length groups
              ∧ tr = registration_trace (zip groups results))
  ∧ ∀ fs reg_of, registry_backed fs reg_of →
      ∀ g root found,
        g ∈ groups → root ∈ CoreManager.group_paths g → fs root = Some found →
        root ∈ CoreManager.get_roots (reg_of (world (register_roots groups s).1))
        ∧ ∀ d, d ∈ found →
               CoreManager.identity d
               ∈ CoreManager.list_all (reg_of (world (register_roots groups s).1)).
Proof.
  intros Htr Hrec.
  assert (Hloop : (register_roots groups s).2 = Ret tt
                  ∧ ∃ results, length results = length groups
                             ∧ tr = registration_trace (zip groups results)).
  { clear -Htr Hrec. revert s tr Htr Hrec.
    induction groups as [|g rest IH]; intros s tr Htr Hrec.
    - cbn in Htr. rewrite <- (app_nil_r (trace s)) in Htr at 1.
      apply app_inv_head in Htr as <-. split; [done|]. by exists [].
    - rewrite register_roots_step in Htr |- *.
      destruct (cm_add_cores_root g (world s)) as [w [[]|e]].
      + match type of Htr with
        | context [register_roots rest ?s1] =>
            destruct (register_roots_extends rest s1) as [tr' Htr'];
            specialize (IH s1 tr' Htr')
        end.
        rewrite Htr' in Htr. cbn in Htr. rewrite <- app_assoc in Htr.
        apply app_inv_head in Htr as <-.
        destruct (IH Hrec) as (Hret & results & Hlen & ->).
        split; [done|]. exists (None :: results).
        split; [by cbn; rewrite Hlen | done].
      + cbn zeta in Htr |- *. destruct (recoverable e) eqn:He.
        * match type of Htr with
          | context [register_roots rest ?s1] =>
              destruct (register_roots_extends rest s1) as [tr' Htr'];
              specialize (IH s1 tr' Htr')
          end.
          rewrite Htr' in Htr. cbn in Htr. rewrite <- !app_assoc in Htr.
          apply app_inv_head in Htr as <-.
          cbn in Hrec. rewrite He in Hrec.
          destruct (IH Hrec) as (Hret & results & Hlen & ->).
          split; [done|]. exists (Some e :: results).
          split; [by cbn; rewrite Hlen | done].
        * cbn in Htr. apply app_inv_head in Htr as <-.
          cbn in Hrec. by rewrite He in Hrec. }
  destruct Hloop as [Hret Hresults]. split; [done|]. split; [done|].
  intros fs reg_of Hrb g root found Hg Hroot Hfs.
  destruct (register_roots_registry fs reg_of groups s Hrb) as (_ & -> & _).
  rewrite add_groups_registry.
  unfold CoreManager.get_roots, CoreManager.list_all.
  cbn [CoreManager.roots CoreManager.table]. split.
  - apply elem_of_app. right. apply CoreManagerFacts.elem_of_concat.
    exists (registered fs (CoreManager.group_paths g)).
    split; [|by apply (list_elem_of_fmap_2
                         (λ g0, registered fs (CoreManager.group_paths g0)))].
    apply list_elem_of_filter. split; [by eexists|done].
  - intros d Hd.
    assert (Hin : CoreManager.identity d
                  ∈ CoreManager.identity <$> concat (provided fs <$> groups)).
    { apply list_elem_of_fmap_2, CoreManagerFacts.elem_of_concat.
      exists (provided fs g). split; [|by apply list_elem_of_fmap_2].
      unfold provided. apply CoreManagerFacts.elem_of_concat. exists found.
      split; [done|]. apply list_elem_of_fmap. exists root. by rewrite Hfs. }
    destruct (CoreManagerFacts.last_with_is_Some _ _ Hin) as [d' Hd'].
    destruct (CoreManagerFacts.foldl_register_last _ _
                (CoreManager.table (reg_of (world s))) _ Hd') as [Hd'in <-].
    by apply list_elem_of_fmap_2.
Qed.

(** [run] up to the command: the preamble, the registration loop, the
    word size. *)
Lemma run_returns a func s w0 w1 w2 cfg_cores cfg_systems :
  setup_logging (if args.verbose a then DEBUG else INFO) (args.monochrome a)
                (world s) = (w0, Ok tt) →
  config_cores_root w0 = (w1, Ok cfg_cores) →
  config_systems_root w1 = (w2, Ok cfg_systems) →
  let r := register_roots
             (root_groups cfg_cores cfg_systems (getenv_fusesoc_cores w0) a)
             (mkState w2 (heap s) (trace s ++ run_preamble a w0) (archbits s)) in
  run a func s
  = match r.2 with
    | Ret _ =>
        func a (mkState (world r.1) (heap r.1)
                        (trace r.1 ++ [Logged DEBUG (word_size_line a (world r.1))])
                        (Some (chosen_archbits a (world r.1))))
    | Raise e => (r.1, Raise e)
    | Exit c => (r.1, Exit c)
    end.
Proof.
  intros Hlog Hcores Hsystems r. subst r.
  unfold run, run_preamble, word_size_line, chosen_archbits.
  unfold mbind, M_bind, bind, call, logger, emit, read_world, set_archbits.
  rewrite Hlog. cbn [world heap trace archbits fst snd].
  destruct (truthy (from_option PStr PNone (getenv_fusesoc_cores w0)));
    cbn [world heap trace archbits fst snd mret M_ret ret].
  all: rewrite Hcores; cbn [world heap trace archbits fst snd].
  all: rewrite Hsystems; cbn [world heap trace archbits fst snd].
  all: rewrite <- !app_assoc; cbn [app].
  all: match goal with
       | |- context [register_roots ?gs ?s3] =>
           destruct (register_roots gs s3) as [s4 [[]|e|c]]
       end; cbn [fst snd]; try done.
  all: destruct (args.force32 a); [|destruct (args.force64 a)];
    cbn [world heap trace archbits fst snd]; done.
Qed.

Lemma root_calls_app tr1 tr2 :
  root_calls (tr1 ++ tr2) = root_calls tr1 ++ root_calls tr2.
Proof.
  induction tr1 as [|[[] ?| |] tr1 IH]; cbn; by rewrite ?IH.
Qed.

Lemma by_precedence_concat fs before cfg_cores cfg_systems env cli i :
  by_precedence fs before cfg_cores cfg_systems env cli i
  = last_with i (concat [before; provided fs cfg_cores; provided fs cfg_systems;
                         provided fs env; provided fs cli]).
Proof.
  unfold by_precedence. cbn [concat]. rewrite app_nil_r.
  rewrite !CoreManagerFacts.last_with_app.
  by destruct (last_with i (provided fs cli)), (last_with i (provided fs env)),
              (last_with i (provided fs cfg_systems)),
              (last_with i (provided fs cfg_cores)), (last_with i before).
Qed.

(** C1. [run] hands the groups to [add_cores_root] in the order
    configuration [cores_root], configuration [systems_root], the roots of
    FUSESOC_CORES (split at the colons and reversed), the [--cores-root]
    roots, whatever is supplied, and then runs the command.  With the
    registry behind [add_cores_root], the roots that exist are registered
    in that order, and a lookup obeys the precedence command line, then
    environment, then configuration, then what the registry held before: an
    identity finds the descriptor of the highest source that provides it;
    whatever a query finds is that descriptor for its identity; a query
    finds something as soon as a source provides a match; and what it finds
    is at least as specific as every match, and among equally specific
    matches from the highest source. *)
Theorem root_precedence fs reg_of a func s w0 w1 w2 cfg_cores cfg_systems :
  registry_backed fs reg_of →
  setup_logging (if args.verbose a then DEBUG else INFO) (args.monochrome a)
                (world s) = (w0, Ok tt) →
  config_cores_root w0 = (w1, Ok cfg_cores) →
  config_systems_root w1 = (w2, Ok cfg_systems) →
  NoDup (CoreManager.identity <$> CoreManager.table (reg_of w2)) →
  let env := PList (reverse (match getenv_fusesoc_cores w0 with
                             | Some value =>
                                 if String.eqb value "" then [] else split ":" value
                             | None => []
                             end)) in
  let cli := match args.cores_root a with
             | Some roots => PList roots
             | None => PNone
             end in
  let before := CoreManager.table (reg_of w2) in
  let sources := [before; provided fs cfg_cores; provided fs cfg_systems;
                  provided fs env; provided fs cli] in
  ∃ s',
    run a func s = func a s'
    ∧ (∃ tr, trace s' = trace s ++ tr
           ∧ root_calls tr = [cfg_cores; cfg_systems; env; cli])
    ∧ CoreManager.get_roots (reg_of (world s'))
      = CoreManager.get_roots (reg_of w2)
        ++ registered fs (CoreManager.group_paths cfg_cores
                          ++ CoreManager.group_paths cfg_systems
                          ++ CoreManager.group_paths env
                          ++ CoreManager.group_paths cli)
    ∧ (∀ i d, by_precedence fs before cfg_cores cfg_systems env cli i = Some d →
              CoreManager.lookup i (reg_of (world s')) = inr d)
    ∧ (∀ q d, CoreManager.lookup q (reg_of (world s')) = inr d →
              CoreManager.matches q (CoreManager.identity d) = true
              ∧ by_precedence fs before cfg_cores cfg_systems env cli
                              (CoreManager.identity d) = Some d)
    ∧ (∀ q d', d' ∈ concat sources →
               CoreManager.matches q (CoreManager.identity d') = true →
               ∃ d, CoreManager.lookup q (reg_of (world s')) = inr d
                  ∧ (CoreManager.agreement q (CoreManager.identity d')
                     ≤ CoreManager.agreement q (CoreManager.identity d))%nat
                  ∧ (CoreManager.agreement q (CoreManager.identity d')
                     = CoreManager.agreement q (CoreManager.identity d) →
                     source_rank (CoreManager.identity d') sources
                     ≤ source_rank (CoreManager.identity d) sources)%nat).
Proof.
  intros Hrb Hlog Hcores Hsystems Hnd env cli before sources.
  rewrite (run_returns a func s w0 w1 w2 cfg_cores cfg_systems Hlog Hcores Hsystems).
  assert (Hgroups : root_groups cfg_cores cfg_systems (getenv_fusesoc_cores w0) a
                    = [cfg_cores; cfg_systems; env; cli]).
  { unfold root_groups, env_cores_root, env, cli.
    destruct (getenv_fusesoc_cores w0) as [value|]; [|by destruct (args.cores_root a)].
    cbn. by destruct (String.eqb value ""), (args.cores_root a). }
  rewrite Hgroups.
  match goal with
  | |- context [register_roots ?gs ?s3] =>
      destruct (register_roots_registry fs reg_of gs s3 Hrb)
        as (Hret & Hreg & Hheap & Harch & tr & Htr & Hcalls)
  end.
  rewrite Hret. eexists. split; [reflexivity|]. cbn [world trace].
  rewrite Hreg, add_groups_registry. cbn [world].
  rewrite CoreManagerFacts.foldl_register_from by done.
  assert (Hall : CoreManager.table (reg_of w2)
                 ++ concat (provided fs <$> [cfg_cores; cfg_systems; env; cli])
                 = concat sources) by reflexivity.
  rewrite Hall. clear Hall.
  split; [|split; [|split; [|split]]].
  - exists (run_preamble a w0 ++ tr
            ++ [Logged DEBUG (word_size_line a
                  (world (register_roots [cfg_cores; cfg_systems; env; cli]
                            (mkState w2 (heap s) (trace s ++ run_preamble a w0)
                                     (archbits s))).1))]).
    split; [rewrite Htr; cbn [trace]; by rewrite <- !app_assoc|].
    rewrite !root_calls_app, Hcalls. cbn [root_calls app].
    unfold run_preamble.
    by destruct (truthy (from_option PStr PNone (getenv_fusesoc_cores w0))).
  - unfold CoreManager.get_roots. cbn [CoreManager.roots fmap list_fmap concat].
    unfold registered. by rewrite !filter_app, app_nil_r.
  - intros i d Hd. rewrite by_precedence_concat in Hd. fold sources in Hd.
    by apply (CoreManagerFacts.lookup_registered i (concat sources) _ []);
      [apply NoDup_nil|].
  - intros q d Hlookup. unfold CoreManager.lookup in Hlookup.
    cbn [CoreManager.table] in Hlookup.
    destruct (CoreManager.best_match _ _ _) as [d0|] eqn:Hbest; [|done].
    injection Hlookup as ->.
    apply CoreManagerFacts.best_match_elem in Hbest as [Hin Hm].
    split; [done|]. rewrite by_precedence_concat.
    by apply CoreManagerFacts.elem_of_foldl_register.
  - intros q d' Hd' Hm.
    destruct (CoreManagerFacts.last_with_is_Some (CoreManager.identity d')
                (concat sources)) as [t Ht]; [by apply list_elem_of_fmap_2|].
    pose proof (CoreManagerFacts.last_with_elem_of _ _ _ Ht) as [_ Hid].
    rewrite <- Hid in Ht, Hm |- *.
    apply CoreManagerFacts.elem_of_foldl_register in Ht as Htin.
    destruct (CoreManagerFacts.best_match_is_Some (CoreManager.matches q) q _ t
                Htin Hm) as [d Hbest].
    exists d. unfold CoreManager.lookup. cbn [CoreManager.table].
    rewrite Hbest. split; [done|]. split.
    + by eapply CoreManagerFacts.best_match_max.
    + intros Hagr. by eapply CoreManagerFacts.best_match_rank.
Qed.

End Registration.

(** * The properties on the scripted environment *)

Lemma get_core_failure_witness :
  let s := Demo.state0 (Demo.world0 (Err (DependencyError "uart" "")) (Ok None)
                                    (Ok tt) (Ok tt) (Ok tt) (Ok tt)) in
  @cm_get_core Demo.env "soc" (world s)
    = (world s, Err (DependencyError "uart" ""))
  ∧ ∃ msg,
      @_get_core Demo.env "soc" s
      = (@mkState Demo.env (world s) ∅
           [Called (CallGetCore "soc") (Some (DependencyError "uart" ""));
            Logged ERROR msg] None,
         Exit 1)
      ∧ contains msg "soc" ∧ contains msg "uart".
Proof.
  intros s. split; [reflexivity|].
  exact (@get_core_failure Demo.env "soc" s (world s)
           (DependencyError "uart" "") eq_refl).
Defined.

Lemma run_backend_stage_failure_witness :
  let s := Demo.state0 (Demo.world0 (Ok "soc") (Ok (Some "icarus")) (Ok tt)
                           (Err (RuntimeError "no project")) (Ok tt) (Ok tt)) in
  let r := @run_backend Demo.env "simulator" false true true true 1%positive
                        "soc" [] s in
  let failed := Called (BackendConfigure []) (Some (RuntimeError "no project")) in
  trace r.1 = trace s ++ take 8 (trace r.1) ++ failed :: drop 9 (trace r.1)
  ∧ stage_failure (BackendConfigure []) (RuntimeError "no project") = true
  ∧ r.2 = Exit 1
  ∧ drop 9 (trace r.1) ≠ []
  ∧ Forall (λ ev, is_error_record ev = true) (drop 9 (trace r.1)).
Proof.
  intros s r failed.
  assert (Htrace : trace r.1
                   = trace s ++ take 8 (trace r.1) ++ failed :: drop 9 (trace r.1))
    by (vm_compute; reflexivity).
  split; [exact Htrace|]. split; [reflexivity|].
  exact (@run_backend_stage_failure Demo.env "simulator" false true true true
           1%positive "soc" [] s _ _ _ _ Htrace eq_refl).
Defined.

Lemma run_backend_tool_lookup_witness :
  let s := Demo.state0 (Demo.world0 (Ok "soc") (Ok None) (Ok tt) (Ok tt) (Ok tt)
                                    (Ok tt)) in
  let r := @run_backend Demo.env "build" true true true false 1%positive
                        "soc" [] s in
  @cm_get_core Demo.env "soc" (world s) = (world s, Ok "soc")
  ∧ @core_get_tool Demo.env "soc" (default ∅ (heap s !! 1%positive)) (world s)
    = (world s, Ok None)
  ∧ r.1 = @mkState Demo.env (world s) ∅
            [Called (CallGetCore "soc") None; Called (CallGetTool ∅) None;
             Logged ERROR "Unable to find synthesis info for 'soc'"] None
  ∧ r.2 = Exit 1
  ∧ contains "Unable to find synthesis info for 'soc'" "soc".
Proof.
  intros s r. split; [reflexivity|]. split; [reflexivity|].
  exact (@run_backend_tool_lookup Demo.env "build" true true true false
           1%positive "soc" [] s (world s) "soc" (world s) None eq_refl eq_refl).
Defined.

Lemma register_roots_recovers_witness :
  let s := Demo.state0 (Demo.world0 (Ok "soc") (Ok None) (Ok tt) (Ok tt) (Ok tt)
                                    (Ok tt)) in
  let groups := [PList ["/cfg/cores"]; PStr "/missing";
                 PList ["/env/b"; "/env/a"]; PList ["/nowhere"; "/cli"]] in
  let r := @register_roots Demo.env groups s in
  trace r.1 = trace s ++ trace r.1
  ∧ only_recoverable (trace r.1) = true
  ∧ r.2 = Ret tt
  ∧ (∃ results, length results = length groups
              ∧ trace r.1 = registration_trace (zip groups results))
  ∧ "/cli" ∈ CoreManager.get_roots (Demo.reg (world r.1))
  ∧ Demo.identity_of "uart" ∈ CoreManager.list_all (Demo.reg (world r.1)).
Proof.
  intros s groups r.
  assert (Htrace : trace r.1 = trace s ++ trace r.1) by reflexivity.
  assert (Hrec : only_recoverable (trace r.1) = true) by (vm_compute; reflexivity).
  assert (Hrb : @registry_backed Demo.env Demo.small_disk Demo.reg)
    by (intros g w; reflexivity).
  assert (Hg : PList ["/nowhere"; "/cli"] ∈ groups) by (do 3 right; left).
  assert (Hroot : "/cli" ∈ CoreManager.group_paths (PList ["/nowhere"; "/cli"]))
    by (right; left).
  assert (Hfs : Demo.small_disk "/cli" = Some [Demo.core_in "/cli" "uart"])
    by reflexivity.
  assert (Hd : Demo.core_in "/cli" "uart" ∈ [Demo.core_in "/cli" "uart"]) by left.
  split; [exact Htrace|]. split; [exact Hrec|].
  destruct (@register_roots_recovers Demo.env groups s (trace r.1) Htrace Hrec)
    as (Hret & Hresults & Hroots).
  split; [exact Hret|]. split; [exact Hresults|].
  destruct (Hroots Demo.small_disk Demo.reg Hrb _ _ _ Hg Hroot Hfs) as [Hin Hcores].
  split; [exact Hin|]. exact (Hcores _ Hd).
Defined.

Lemma root_precedence_witness :
  let w := Demo.world0 (Ok "soc") (Ok None) (Ok tt) (Ok tt) (Ok tt) (Ok tt) in
  let s := Demo.state0 w in
  let a := Demo.args0 (Some ["/nowhere"; "/cli"]) in
  let func := λ _ : args.t, @ret Demo.env unit tt in
  let env := PList ["/env/b"; "/env/a"] in
  let cli := PList ["/nowhere"; "/cli"] in
  @registry_backed Demo.env Demo.small_disk Demo.reg
  ∧ @setup_logging Demo.env INFO false (world s) = (w, Ok tt)
  ∧ @config_cores_root Demo.env w = (w, Ok (PList ["/cfg/cores"]))
  ∧ @config_systems_root Demo.env w = (w, Ok (PStr "/cfg/systems"))
  ∧ NoDup (CoreManager.identity <$> CoreManager.table (Demo.reg w))
  ∧ ∃ s',
      @run Demo.env a func s = func a s'
      ∧ (∃ tr, trace s' = trace s ++ tr
             ∧ root_calls tr = [PList ["/cfg/cores"]; PStr "/cfg/systems"; env; cli])
      ∧ CoreManager.get_roots (Demo.reg (world s'))
        = ["/cfg/cores"; "/cfg/systems"; "/env/b"; "/env/a"; "/cli"]
      ∧ ∀ i d, by_precedence Demo.small_disk [] (PList ["/cfg/cores"])
                             (PStr "/cfg/systems") env cli i = Some d →
               CoreManager.lookup i (Demo.reg (world s')) = inr d.
Proof.
  intros w s a func env cli.
  assert (Hrb : @registry_backed Demo.env Demo.small_disk Demo.reg)
    by (intros g w'; reflexivity).
  assert (Hlog : @setup_logging Demo.env INFO false (world s) = (w, Ok tt))
    by reflexivity.
  assert (Hcores : @config_cores_root Demo.env w = (w, Ok (PList ["/cfg/cores"])))
    by reflexivity.
  assert (Hsystems : @config_systems_root Demo.env w = (w, Ok (PStr "/cfg/systems")))
    by reflexivity.
  assert (Hnd : NoDup (CoreManager.identity <$> CoreManager.table (Demo.reg w)))
    by (simpl; constructor).
  split; [exact Hrb|]. split; [exact Hlog|]. split; [exact Hcores|].
  split; [exact Hsystems|]. split; [exact Hnd|].
  destruct (@root_precedence Demo.env Demo.small_disk Demo.reg a func s w w w
              (PList ["/cfg/cores"]) (PStr "/cfg/systems")
              Hrb Hlog Hcores Hsystems Hnd)
    as (s' & Hrun & Hcalls & Hroots & Hexact & _).
  exists s'. split; [exact Hrun|]. split; [exact Hcalls|].
  split; [exact Hroots|]. exact Hexact.
Defined.

Example precedence_on_small_disk :
  let s := Demo.state0 (Demo.world0 (Ok "soc") (Ok None) (Ok tt) (Ok tt) (Ok tt)
                                    (Ok tt)) in
  let r := @run Demo.env (Demo.args0 (Some ["/nowhere"; "/cli"]))
                (λ _, @ret Demo.env unit tt) s in
  let found q := CoreManager.lookup q (Demo.reg (world r.1)) in
  r.2 = Ret tt
  ∧ root_calls (trace r.1)
    = [PList ["/cfg/cores"]; PStr "/cfg/systems"; PList ["/env/b"; "/env/a"];
       PList ["/nowhere"; "/cli"]]
  ∧ CoreManager.get_roots (Demo.reg (world r.1))
    = ["/cfg/cores"; "/cfg/systems"; "/env/b"; "/env/a"; "/cli"]
  ∧ found (Demo.identity_of "uart") = inr (Demo.core_in "/cli" "uart")
  ∧ found (Demo.identity_of "spi") = inr (Demo.core_in "/env/a" "spi")
  ∧ found (Demo.identity_of "gpio") = inr (Demo.core_in "/cfg/cores" "gpio")
  ∧ found (CoreManager.mkIdentity None None "uart" None)
    = inr (Demo.core_in "/cli" "uart").
Proof. vm_compute. repeat split. Qed.

(** * More properties of [run_backend] and the handlers *)

Ltac wp_go :=
  lazymatch goal with
  | |- wp (mbind _ _) _ _ => apply wp_bind
  | |- wp (mret _) _ _ => apply wp_ret
  | |- wp (exit _) _ _ => apply wp_exit
  | |- wp (raise _) _ _ => apply wp_raise
  | |- wp (try_except _ _) _ _ => apply wp_try_except
  | |- wp (call _ _) _ _ => apply wp_call; [intros ? ? _ | intros ? [] _]
  | |- wp (logger _ _) _ _ => apply wp_emit
  | |- wp (print _) _ _ => apply wp_emit
  | |- wp (emit _) _ _ => apply wp_emit
  | |- wp (read_dict _) _ _ => apply wp_read_dict
  | |- wp (setitem _ _ _) _ _ => apply wp_setitem
  | |- wp (_get_core _) _ _ => unfold _get_core
  | |- wp (_import _) _ _ => unfold _import
  | |- wp (if ?b then _ else _) _ _ => destruct b
  end; cbn [fst snd world heap trace archbits].


Lemma stops_at_failure_sound {A} tr (o : outcome A) pre c e post :
  stops_at_failure tr o →
  tr = pre ++ Called c (Some e) :: post →
  if handled c e then
    o = Exit 1 ∧ post ≠ [] ∧ Forall (λ ev, is_error_record ev = true) post
  else post = [] ∧ o = Raise e.
Proof.
  revert tr. induction pre as [|ev pre IH]; intros tr Hstop ->; [done|].
  destruct ev as [c' [e'|] | |]; cbn in Hstop; try (by eapply IH).
  destruct (handled c' e').
  - destruct Hstop as (_ & _ & Hall). exfalso.
    rewrite Forall_app, Forall_cons in Hall. by destruct Hall as (_ & ? & _).
  - destruct Hstop as [Hnil _]. by destruct pre.
Qed.


(** A step through a call whose answer is known. *)
Ltac wp_known H :=
  let Heq := fresh "Heq" in
  apply wp_call;
  [intros ? ? Heq | intros ? ? Heq];
  cbn [fst snd world heap trace archbits] in Heq;
  rewrite H in Heq;
  [injection Heq as <- <- | discriminate];
  cbn [fst snd world heap trace archbits].

Section MoreReasoning.
Context `{Env}.

Lemma run_backend_outcomes tool_type export do_configure do_build do_run
    flags system backendargs s :
  wp (run_backend tool_type export do_configure do_build do_run
                  flags system backendargs)
     (λ s' o,
        ∃ tr, trace s' = trace s ++ tr
            ∧ stops_at_failure tr o
            ∧ match o with
              | Ret _ =>
                  backend_ops tr
                  = enabled_stages do_configure do_build do_run backendargs
                  ∧ failures tr = []
              | Exit c => c = 1 ∧ ∃ msg, last tr = Some (Logged ERROR msg)
              | Raise e => ∃ c, last tr = Some (Called c (Some e))
              end) s.
Proof.
  unfold run_backend.
  destruct (String.eqb tool_type "simulator").
  all: repeat wp_go.
  all: rewrite <- ?app_assoc; eexists; (split; [reflexivity|]).
  all: cbn; repeat split; eauto; discriminate.
Qed.

Lemma run_backend_frame tool_type export do_configure do_build do_run
    flags system backendargs s :
  wp (run_backend tool_type export do_configure do_build do_run
                  flags system backendargs)
     (λ s' o,
        (∃ tr, trace s' = trace s ++ tr
             ∧ Forall (λ r, if export
                            then ∃ build_root name,
                                   r = Some (path_join [build_root; name; "src"])
                            else r = None) (export_roots tr)
             ∧ Forall (λ r, ∃ build_root name tool,
                              r = path_join [build_root; name;
                                             tool_type_short tool_type
                                             +:+ "-" +:+ tool])
                      (work_roots tr)
             ∧ Forall (λ fl, fl = default ∅ (heap s !! flags)) (tool_queries tr)
             ∧ Forall (λ fl, ∃ tool,
                         fl = <["tool" := Some tool]> (default ∅ (heap s !! flags)))
                      (flags_seen tr))
        ∧ (heap s' = heap s
           ∨ ∃ tool, heap s'
                     = <[flags := <["tool" := Some tool]>
                                    (default ∅ (heap s !! flags))]> (heap s))) s.
Proof.
  unfold run_backend, tool_type_short.
  destruct (String.eqb tool_type "simulator").
  all: repeat wp_go.
  all: (split; [rewrite <- ?app_assoc; eexists; (split; [reflexivity|]) |]).
  all: try (cbn [export_roots work_roots tool_queries flags_seen app];
            rewrite ?lookup_insert_eq; cbn [default from_option];
            repeat (split; [repeat (constructor; [by eauto|]); by constructor|]);
            repeat (constructor; [by eauto|]); by constructor).
  all: first [by left | right; by eexists].
Qed.

(** X1. How [run_backend] ends: when it returns, every enabled stage was
    run, in order, and no call raised; when it exits, the status is 1 and
    the last event is an error record; when it raises, the last event is
    the call that raised. *)
Theorem run_backend_outcome tool_type export do_configure do_build do_run
    flags system backendargs s :
  let r := run_backend tool_type export do_configure do_build do_run
                       flags system backendargs s in
  ∃ tr, trace r.1 = trace s ++ tr
      ∧ match r.2 with
        | Ret _ =>
            backend_ops tr
            = enabled_stages do_configure do_build do_run backendargs
            ∧ failures tr = []
        | Exit c => c = 1 ∧ ∃ msg, last tr = Some (Logged ERROR msg)
        | Raise e => ∃ c, last tr = Some (Called c (Some e))
        end.
Proof.
  intros r.
  destruct (run_backend_outcomes tool_type export do_configure do_build do_run
              flags system backendargs s) as (tr & Htr & _ & Hout).
  by exists tr.
Qed.

(** X2. A failed call ends [run_backend] on the spot: an exception that an
    except clause catches is followed by error records only and
    [exit(1)]; any other exception leaves unchanged, with nothing after the
    call. *)
Theorem run_backend_failed_call tool_type export do_configure do_build do_run
    flags system backendargs s pre c e post :
  let r := run_backend tool_type export do_configure do_build do_run
                       flags system backendargs s in
  trace r.1 = trace s ++ pre ++ Called c (Some e) :: post →
  if handled c e then
    r.2 = Exit 1 ∧ post ≠ [] ∧ Forall (λ ev, is_error_record ev = true) post
  else post = [] ∧ r.2 = Raise e.
Proof.
  intros r Htrace.
  destruct (run_backend_outcomes tool_type export do_configure do_build do_run
              flags system backendargs s) as (tr & Htr & Hstop & _).
  fold r in Htr, Hstop. rewrite Htr in Htrace. apply app_inv_head in Htrace.
  by eapply stops_at_failure_sound.
Qed.

(** X3. The directories [run_backend] hands out, for the core the lookup
    gives, the tool [core.get_tool] answers and the build root
    [Config().build_root] gives: the resolution call comes right after
    those answers, and it and every setup call get the [src] directory
    under the build root and the sanitized name of the core when [export]
    is set, and no export root otherwise; every backend is constructed
    with the work root [sim-<tool>] or [bld-<tool>] under the build root
    and that name; and when [run_backend] returns, exactly one backend was
    constructed. *)
Theorem run_backend_roots (tool_type : string)
    (export do_configure do_build do_run : bool) (flags : loc) (system : string)
    (backendargs : list string) (s : state) (w1 : W) (core : Core) (w2 : W)
    (tool : string) (w3 : W) (b1 : string) (w4 : W) (b2 : string) :
  cm_get_core system (world s) = (w1, Ok core) →
  core_get_tool core (default ∅ (heap s !! flags)) w1 = (w2, Ok (Some tool)) →
  tool ≠ "" →
  config_build_root w2 = (w3, Ok b1) →
  (if export then config_build_root w3 = (w4, Ok b2) else b2 = b1) →
  let r := run_backend tool_type export do_configure do_build do_run
                       flags system backendargs s in
  let name := sanitized_name (core_name core) in
  let export_root :=
    if export then Some (path_join [b1; name; "src"]) else None in
  let work_root :=
    path_join [b2; name; tool_type_short tool_type +:+ "-" +:+ tool] in
  ∃ answer tr,
    trace r.1
    = trace s
      ++ [Called (CallGetCore system) None;
          Called (CallGetTool (default ∅ (heap s !! flags))) None;
          Called CallBuildRoot None]
      ++ (if export then [Called CallBuildRoot None] else [])
      ++ Called (CallGetEdaApi (<["tool" := Some tool]>
                                  (default ∅ (heap s !! flags))) export_root)
                answer
         :: tr
    ∧ Forall (λ root, root = export_root) (export_roots tr)
    ∧ Forall (λ root, root = work_root) (work_roots tr)
    ∧ (r.2 = Ret tt →
       work_roots tr = [work_root]
       ∧ export_roots tr = if do_configure then [export_root] else []).
Proof.
  intros Hcore Htool Hne Hb1 Hb2 r name export_root work_root.
  subst r name export_root work_root.
  assert (Htruthy : no_tool (Some tool) = false).
  { unfold no_tool. cbn. destruct (String.eqb_spec tool ""); [done|done]. }
  change (wp (run_backend tool_type export do_configure do_build do_run
                          flags system backendargs)
             (λ s' o, ∃ answer tr,
                trace s'
                = trace s
                  ++ [Called (CallGetCore system) None;
                      Called (CallGetTool (default ∅ (heap s !! flags))) None;
                      Called CallBuildRoot None]
                  ++ (if export then [Called CallBuildRoot None] else [])
                  ++ Called (CallGetEdaApi (<["tool" := Some tool]>
                                              (default ∅ (heap s !! flags)))
                               (if export
                                then Some (path_join [b1; sanitized_name (core_name core);
                                                      "src"])
                                else None))
                            answer
                     :: tr
                ∧ Forall (λ root, root = (if export
                                          then Some (path_join
                                                 [b1; sanitized_name (core_name core);
                                                  "src"])
                                          else None)) (export_roots tr)
                ∧ Forall (λ root, root = path_join
                                           [b2; sanitized_name (core_name core);
                                            tool_type_short tool_type +:+ "-" +:+ tool])
                         (work_roots tr)
                ∧ (o = Ret tt →
                   work_roots tr
                   = [path_join [b2; sanitized_name (core_name core);
                                 tool_type_short tool_type +:+ "-" +:+ tool]]
                   ∧ export_roots tr
                     = if do_configure
                       then [if export
                             then Some (path_join [b1; sanitized_name (core_name core);
                                                   "src"])
                             else None]
                       else [])) s).
  unfold run_backend, tool_type_short.
  destruct (String.eqb tool_type "simulator").
  all: apply wp_bind; unfold _get_core; apply wp_try_except.
  all: wp_known Hcore.
  all: apply wp_bind, wp_read_dict; cbn [fst snd world heap trace archbits].
  all: apply wp_bind.
  all: wp_known Htool.
  all: rewrite Htruthy; cbn [default from_option].
  all: apply wp_bind, wp_setitem; cbn [fst snd world heap trace archbits].
  all: destruct export.
  all: apply wp_bind.
  all: try (apply wp_bind; wp_known Hb1; apply wp_ret; apply wp_bind; wp_known Hb2).
  all: try (apply wp_ret; apply wp_bind; wp_known Hb1; subst b2).
  all: rewrite ?lookup_insert_eq; cbn [default from_option].
  all: repeat wp_go.
  all: rewrite ?lookup_insert_eq; cbn [default from_option].
  all: rewrite <- ?app_assoc; cbn [app].
  all: eexists _, _; (split; [reflexivity|]).
  all: cbn [export_roots work_roots].
  all: split; [by repeat constructor|].
  all: split; [by repeat constructor|].
  all: first [discriminate | intros _; done | intros ?; discriminate].
Qed.

(** X4. [run_backend] writes nothing to the store but [flags['tool']]:
    every other key of the flags, and every other dictionary, reads as
    before. *)
Theorem run_backend_store tool_type export do_configure do_build do_run
    flags system backendargs s l k :
  let r := run_backend tool_type export do_configure do_build do_run
                       flags system backendargs s in
  (l, k) ≠ (flags, "tool") →
  default ∅ (heap r.1 !! l) !! k = default ∅ (heap s !! l) !! k.
Proof.
  intros r Hne.
  destruct (run_backend_frame tool_type export do_configure do_build do_run
              flags system backendargs s) as [_ [Hheap|[tool Hheap]]];
    fold r in Hheap; rewrite Hheap; [done|].
  destruct (decide (l = flags)) as [->|Hl].
  - rewrite lookup_insert_eq. cbn. rewrite lookup_insert_ne; [done|congruence].
  - by rewrite lookup_insert_ne.
Qed.







(** X8. [fetch], by what the lookup and [core.setup()] answer: when the
    lookup gives a core, [fetch] calls its [setup] once and returns if it
    returns; a RuntimeError of [setup] is logged with the name of that core
    and its text, and [fetch] exits with status 1; any other exception of
    [setup] leaves as raised.  When the lookup fails, [setup] is not
    called: [fetch] exits with status 1 after the error records for a
    failure [_get_core] catches, and raises the exception otherwise. *)
Theorem fetch_outcome a s :
  let found := Called (CallGetCore (args.core a)) None in
  match cm_get_core (args.core a) (world s) with
  | (w1, Ok core) =>
      match core_dot_setup core w1 with
      | (w2, Ok _) =>
          fetch a s
          = (mkState w2 (heap s) (trace s ++ [found; Called CallCoreSetup None])
                     (archbits s), Ret tt)
      | (w2, Err (RuntimeError msg)) =>
          fetch a s
          = (mkState w2 (heap s)
               (trace s ++ [found; Called CallCoreSetup (Some (RuntimeError msg));
                            Logged ERROR ("Failed to fetch '"
                                          +:+ name_str (core_name core)
                                          +:+ "': " +:+ msg)])
               (archbits s), Exit 1)
      | (w2, Err e) =>
          fetch a s
          = (mkState w2 (heap s)
               (trace s ++ [found; Called CallCoreSetup (Some e)])
               (archbits s), Raise e)
      end
  | (w1, Err e) =>
      ∃ records,
        fetch a s
        = (mkState w1 (heap s)
             (trace s ++ Called (CallGetCore (args.core a)) (Some e) :: records)
             (archbits s),
           if handled (CallGetCore (args.core a)) e then Exit 1 else Raise e)
        ∧ Forall (λ ev, is_error_record ev = true) records
        ∧ (records = [] ↔ handled (CallGetCore (args.core a)) e = false)
  end.
Proof.
  intros found. unfold fetch, _get_core, found.
  unfold mbind, M_bind, bind, try_except, call, logger, emit, exit.
  destruct (cm_get_core (args.core a) (world s)) as [w1 [core|e]];
    cbn [world heap trace archbits fst snd].
  - destruct (core_dot_setup core w1) as [w2 [[]|e]];
      cbn [world heap trace archbits fst snd].
    + by rewrite <- app_assoc.
    + destruct e; cbn [world heap trace archbits fst snd exn_str];
        by rewrite <- ?app_assoc.
  - destruct e; cbn [world heap trace archbits fst snd handled exn_str].
    all: rewrite <- ?app_assoc; cbn [app].
    all: eexists; (split; [reflexivity|]).
    all: split; [by repeat constructor|done].
Qed.

(** X9. [core_info], by what the lookup and [core.info()] answer: when the
    lookup gives a core, [core_info] asks that core for its info once and
    prints exactly the text it answers; an exception of [core.info()],
    RuntimeError included, is not caught.  When the lookup fails,
    [core.info()] is not called and nothing is printed: [core_info] exits
    with status 1 after the error records for a failure [_get_core]
    catches, and raises the exception otherwise. *)
Theorem core_info_outcome a s :
  let found := Called (CallGetCore (args.core a)) None in
  match cm_get_core (args.core a) (world s) with
  | (w1, Ok core) =>
      match core_dot_info core w1 with
      | (w2, Ok info) =>
          core_info a s
          = (mkState w2 (heap s)
               (trace s ++ [found; Called CallCoreInfo None; Printed info])
               (archbits s), Ret tt)
      | (w2, Err e) =>
          core_info a s
          = (mkState w2 (heap s)
               (trace s ++ [found; Called CallCoreInfo (Some e)])
               (archbits s), Raise e)
      end
  | (w1, Err e) =>
      ∃ records,
        core_info a s
        = (mkState w1 (heap s)
             (trace s ++ Called (CallGetCore (args.core a)) (Some e) :: records)
             (archbits s),
           if handled (CallGetCore (args.core a)) e then Exit 1 else Raise e)
        ∧ Forall (λ ev, is_error_record ev = true) records
        ∧ (records = [] ↔ handled (CallGetCore (args.core a)) e = false)
  end.
Proof.
  intros found. unfold core_info, _get_core, found.
  unfold mbind, M_bind, bind, try_except, call, logger, print, emit, exit.
  destruct (cm_get_core (args.core a) (world s)) as [w1 [core|e]];
    cbn [world heap trace archbits fst snd].
  - destruct (core_dot_info core w1) as [w2 [info|e]];
      cbn [world heap trace archbits fst snd]; by rewrite <- !app_assoc.
  - destruct e; cbn [world heap trace archbits fst snd handled exn_str].
    all: rewrite <- ?app_assoc; cbn [app].
    all: eexists; (split; [reflexivity|]).
    all: split; [by repeat constructor|done].
Qed.

(** How the registration loop of [run] ends. *)
Lemma register_roots_ends groups s :
  let r := register_roots groups s in
  ∃ tr, trace r.1 = trace s ++ tr
      ∧ heap r.1 = heap s ∧ archbits r.1 = archbits s
      ∧ match r.2 with
        | Ret _ => root_calls tr = groups
        | Raise e =>
            recoverable e = false
            ∧ ∃ pre g later,
                tr = pre ++ [Called (CallAddCoresRoot g) (Some e)]
                ∧ groups = root_calls pre ++ g :: later
        | Exit _ => False
        end.
Proof.
  revert s. induction groups as [|g rest IH]; intros s; cbn zeta.
  - exists []. by rewrite app_nil_r.
  - rewrite register_roots_step.
    destruct (cm_add_cores_root g (world s)) as [w [[]|e]];
      [|cbn zeta; destruct (recoverable e) eqn:He].
    + match goal with
      | |- context [register_roots _ ?s1] =>
          destruct (IH s1) as (tr & Htr & Hheap & Harch & Hout)
      end.
      cbn [trace heap archbits] in Htr, Hheap, Harch.
      exists (Called (CallAddCoresRoot g) None :: tr).
      split; [by rewrite Htr, <- !app_assoc|]. do 2 (split; [done|]).
      destruct (register_roots rest _).2 as [[]|e'|c]; [|..|done]; cbn.
      * by rewrite Hout.
      * destruct Hout as (He' & pre & g' & later & -> & ->).
        split; [done|]. by eexists (_ :: pre), g', later.
    + match goal with
      | |- context [register_roots _ ?s1] =>
          destruct (IH s1) as (tr & Htr & Hheap & Harch & Hout)
      end.
      cbn [trace heap archbits] in Htr, Hheap, Harch.
      exists (Called (CallAddCoresRoot g) (Some e)
              :: Logged WARNING (format "Failed to register cores root '{}'"
                                        (exn_str e)) :: tr).
      split; [by rewrite Htr, <- !app_assoc|]. do 2 (split; [done|]).
      destruct (register_roots rest _).2 as [[]|e'|c]; [|..|done]; cbn.
      * by rewrite Hout.
      * destruct Hout as (He' & pre & g' & later & -> & ->).
        split; [done|]. by eexists (_ :: _ :: pre), g', later.
    + cbn. eexists. split; [reflexivity|]. do 3 (split; [done|]).
      by exists [], g, rest.
Qed.

(** X10. The registration loop of [run] never exits and changes neither
    the store nor the word size.  It returns after one call per group, or
    raises an exception that is neither RuntimeError nor IOError at the
    group whose registration raised it, with the later groups not
    attempted. *)
Theorem register_roots_stops groups s :
  let r := register_roots groups s in
  ∃ tr, trace r.1 = trace s ++ tr
      ∧ heap r.1 = heap s ∧ archbits r.1 = archbits s
      ∧ match r.2 with
        | Ret _ => root_calls tr = groups
        | Raise e =>
            recoverable e = false
            ∧ ∃ pre g later,
                tr = pre ++ [Called (CallAddCoresRoot g) (Some e)]
                ∧ groups = root_calls pre ++ g :: later
        | Exit _ => False
        end.
Proof. exact (register_roots_ends groups s). Qed.

Lemma root_groups_spelled cfg_cores cfg_systems fusesoc_cores a :
  root_groups cfg_cores cfg_systems fusesoc_cores a
  = [cfg_cores; cfg_systems;
     PList (reverse (match fusesoc_cores with
                     | Some value =>
                         if String.eqb value "" then [] else split ":" value
                     | None => []
                     end));
     match args.cores_root a with
     | Some roots => PList roots
     | None => PNone
     end].
Proof.
  unfold root_groups, env_cores_root.
  destruct fusesoc_cores as [value|]; [|by destruct (args.cores_root a)].
  cbn. by destruct (String.eqb value ""), (args.cores_root a).
Qed.

(** X11. [run], by what its collaborators answer.  An exception of
    [setup_logging] or of reading a root of the configuration ends [run]
    with that call.  Otherwise [run] hands four groups to [add_cores_root],
    in this order: the [cores_root] and the [systems_root] the
    configuration answered, the roots of FUSESOC_CORES split at the colons
    and reversed, and the [--cores-root] roots.  An exception of a
    registration that is neither RuntimeError nor IOError ends [run] with
    that call.  If there is none, [run] sets the word size, to 32 when
    [--32] is given, else to 64 when [--64] is given, else to that of the
    platform, logs it as its last record, leaves the store as it was, and
    ends by calling the command once. *)
Theorem run_dispatch a s :
  let lv := if args.verbose a then DEBUG else INFO in
  match setup_logging lv (args.monochrome a) (world s) with
  | (w0, Err e) =>
      ∀ func, (run a func s).2 = Raise e
              ∧ last (trace (run a func s).1)
                = Some (Called (CallSetupLogging lv (args.monochrome a)) (Some e))
  | (w0, Ok _) =>
      match config_cores_root w0 with
      | (w1, Err e) =>
          ∀ func, (run a func s).2 = Raise e
                  ∧ last (trace (run a func s).1)
                    = Some (Called CallConfigCoresRoot (Some e))
      | (w1, Ok cfg_cores) =>
          match config_systems_root w1 with
          | (w2, Err e) =>
              ∀ func, (run a func s).2 = Raise e
                      ∧ last (trace (run a func s).1)
                        = Some (Called CallConfigSystemsRoot (Some e))
          | (w2, Ok cfg_systems) =>
              let groups :=
                [cfg_cores; cfg_systems;
                 PList (reverse (match getenv_fusesoc_cores w0 with
                                 | Some value =>
                                     if String.eqb value "" then []
                                     else split ":" value
                                 | None => []
                                 end));
                 match args.cores_root a with
                 | Some roots => PList roots
                 | None => PNone
                 end] in
              (∃ s' e pre g later,
                 (∀ func, run a func s = (s', Raise e))
                 ∧ recoverable e = false
                 ∧ trace s' = trace s ++ run_preamble a w0 ++ pre
                              ++ [Called (CallAddCoresRoot g) (Some e)]
                 ∧ groups = root_calls pre ++ g :: later)
              ∨ (∃ s' tr,
                   (∀ func, run a func s = func a s')
                   ∧ archbits s' = Some (chosen_archbits a (world s'))
                   ∧ heap s' = heap s
                   ∧ trace s' = trace s ++ run_preamble a w0 ++ tr
                                ++ [Logged DEBUG (word_size_line a (world s'))]
                   ∧ root_calls tr = groups)
          end
      end
  end.
Proof.
  intros lv.
  destruct (setup_logging lv (args.monochrome a) (world s)) as [w0 [[]|e0]] eqn:Hlog.
  2:{ intros func. unfold run. fold lv.
      unfold mbind, M_bind, bind, call. rewrite Hlog. cbn.
      split; [done|]. by rewrite last_snoc. }
  destruct (config_cores_root w0) as [w1 [cfg_cores|e1]] eqn:Hcores.
  2:{ intros func. unfold run. fold lv.
      unfold mbind, M_bind, bind, call, logger, emit, read_world.
      rewrite Hlog. cbn [world heap trace archbits fst snd].
      destruct (truthy (from_option PStr PNone (getenv_fusesoc_cores w0)));
        cbn [world heap trace archbits fst snd mret M_ret ret];
        rewrite Hcores; cbn [world heap trace archbits fst snd].
      all: split; [done|]; by rewrite last_snoc. }
  destruct (config_systems_root w1) as [w2 [cfg_systems|e2]] eqn:Hsystems.
  2:{ intros func. unfold run. fold lv.
      unfold mbind, M_bind, bind, call, logger, emit, read_world.
      rewrite Hlog. cbn [world heap trace archbits fst snd].
      destruct (truthy (from_option PStr PNone (getenv_fusesoc_cores w0)));
        cbn [world heap trace archbits fst snd mret M_ret ret];
        rewrite Hcores; cbn [world heap trace archbits fst snd].
      all: rewrite Hsystems; cbn [world heap trace archbits fst snd].
      all: split; [done|]; by rewrite last_snoc. }
  intros groups.
  pose proof (λ func, run_returns a func s w0 w1 w2 cfg_cores cfg_systems
                        Hlog Hcores Hsystems) as Hrun.
  cbn zeta in Hrun. rewrite root_groups_spelled in Hrun. fold groups in Hrun.
  destruct (register_roots_ends groups
              (mkState w2 (heap s) (trace s ++ run_preamble a w0) (archbits s)))
    as (tr & Htr & Hheap & Harch & Hout).
  cbn [trace heap archbits] in Htr, Hheap, Harch.
  destruct (register_roots groups _) as [s4 [[]|e|c]] eqn:Hloop;
    cbn [fst snd] in Hrun, Htr, Hheap, Harch, Hout; [|left|done].
  - right. eexists _, tr. split; [exact Hrun|].
    cbn [world heap trace archbits].
    split; [done|]. split; [done|]. split; [by rewrite Htr, <- !app_assoc|done].
  - destruct Hout as (He & pre & g & later & -> & Hgroups).
    exists s4, e, pre, g, later. split; [exact Hrun|]. split; [done|].
    split; [by rewrite Htr, <- !app_assoc|done].
Qed.

End MoreReasoning.

(** * FUSESOC_CORES *)

Lemma string_app_nil_r (a : string) : a +:+ "" = a.
Proof.
  induction a as [|x a IH]; [done|].
  change (String x (a +:+ "") = String x a). by rewrite IH.
Qed.

Lemma rev_app_append (a b : string) : String.rev_app a b = String.rev a +:+ b.
Proof.
  unfold String.rev. revert b. induction a as [|x a IH]; intros b; [done|].
  cbn [String.rev_app]. rewrite (IH (String x b)), (IH (String x "")).
  by rewrite string_app_assoc.
Qed.

Lemma has_char_app c (a b : string) :
  has_char c (a +:+ b) = has_char c a || has_char c b.
Proof.
  induction a as [|x a IH]; [done|].
  change (has_char c (String x (a +:+ b)) = has_char c (String x a) || has_char c b).
  cbn [has_char]. by rewrite IH, orb_assoc.
Qed.

Lemma split_at_cons sep acc s : ∃ x rest, split_at sep acc s = x :: rest.
Proof.
  revert acc. induction s as [|c r IH]; intros acc; cbn; [by eexists _, _|].
  destruct (Ascii.eqb c sep); [by eexists _, _|apply IH].
Qed.

Lemma join_cons_cons sep a b l :
  join sep (a :: b :: l) = a +:+ sep +:+ join sep (b :: l).
Proof. done. Qed.

Lemma join_split_at sep acc s :
  join (String sep "") (split_at sep acc s) = String.rev acc +:+ s.
Proof.
  revert acc. induction s as [|c r IH]; intros acc; cbn [split_at].
  - cbn. by rewrite string_app_nil_r.
  - destruct (Ascii.eqb_spec c sep) as [->|Hc].
    + destruct (split_at_cons sep "" r) as (x & rest & Hx).
      specialize (IH ""). rewrite Hx in IH |- *.
      by rewrite join_cons_cons, IH.
    + rewrite IH. unfold String.rev at 1. cbn [String.rev_app].
      by rewrite rev_app_append, string_app_assoc.
Qed.

Lemma split_at_fields sep acc s :
  has_char sep (String.rev acc) = false →
  Forall (λ field, has_char sep field = false) (split_at sep acc s).
Proof.
  revert acc. induction s as [|c r IH]; intros acc Hacc; cbn [split_at].
  - by constructor.
  - destruct (Ascii.eqb_spec c sep) as [->|Hc].
    + constructor; [done|]. by apply IH.
    + apply IH. unfold String.rev. cbn [String.rev_app].
      rewrite rev_app_append, has_char_app, Hacc. cbn.
      destruct (Ascii.eqb_spec c sep); [done|]. done.
Qed.

(** X12. The roots taken from FUSESOC_CORES: none when the variable is
    unset or empty; otherwise at least one, none of them with a colon, and
    joined with colons in the reverse of their registration order they give
    the variable back. *)
Theorem env_cores_root_round_trip fusesoc_cores :
  if truthy (from_option PStr PNone fusesoc_cores) then
    join ":" (reverse (env_cores_root fusesoc_cores)) = default "" fusesoc_cores
    ∧ Forall (λ root, has_char ":" root = false) (env_cores_root fusesoc_cores)
    ∧ env_cores_root fusesoc_cores ≠ []
  else env_cores_root fusesoc_cores = [].
Proof.
  unfold env_cores_root.
  destruct (truthy (from_option PStr PNone fusesoc_cores)); [|done].
  rewrite reverse_involutive. split; [apply (join_split_at ":" "")|]. split.
  - rewrite Forall_reverse. by apply split_at_fields.
  - unfold split. destruct (split_at_cons ":" "" (default "" fusesoc_cores))
      as (x & rest & ->).
    rewrite reverse_cons. by destruct (reverse rest).
Qed.

(** * More properties on the scripted environment *)

Lemma run_backend_failed_call_witness :
  let s := Demo.state0 (Demo.world0 (Ok "soc") (Err (TypeError "unhashable"))
                                    (Ok tt) (Ok tt) (Ok tt) (Ok tt)) in
  let r := @run_backend Demo.env "simulator" false true true true 1%positive
                        "soc" [] s in
  trace r.1 = trace s ++ take 1 (trace r.1)
              ++ Called (CallGetTool ∅) (Some (TypeError "unhashable"))
                 :: drop 2 (trace r.1)
  ∧ drop 2 (trace r.1) = []
  ∧ r.2 = Raise (TypeError "unhashable").
Proof.
  intros s r.
  assert (Htrace : trace r.1
                   = trace s ++ take 1 (trace r.1)
                     ++ Called (CallGetTool ∅) (Some (TypeError "unhashable"))
                        :: drop 2 (trace r.1))
    by (vm_compute; reflexivity).
  split; [exact Htrace|].
  exact (@run_backend_failed_call Demo.env "simulator" false true true true
           1%positive "soc" [] s _ _ _ _ Htrace).
Defined.

Lemma run_backend_store_witness :
  let s := @mkState Demo.env
             (Demo.world0 (Ok "soc") (Ok (Some "icarus")) (Ok tt) (Ok tt) (Ok tt)
                          (Ok tt))
             {[ 1%positive := {[ "flow" := Some "sim" ]} ]} [] None in
  let r := @run_backend Demo.env "simulator" false true true true 1%positive
                        "soc" [] s in
  (1%positive, "flow") ≠ (1%positive, "tool")
  ∧ default ∅ (heap r.1 !! 1%positive) !! "flow"
    = default ∅ (heap s !! 1%positive) !! "flow".
Proof.
  intros s r.
  assert (Hne : (1%positive, "flow") ≠ (1%positive, "tool")) by discriminate.
  split; [exact Hne|].
  exact (@run_backend_store Demo.env "simulator" false true true true
           1%positive "soc" [] s 1%positive "flow" Hne).
Defined.

Lemma run_backend_roots_witness :
  let w := Demo.world0 (Ok "soc") (Ok (Some "icarus")) (Ok tt) (Ok tt) (Ok tt)
                       (Ok tt) in
  let s := @mkState Demo.env w {[ 1%positive := {[ "flow" := Some "sim" ]} ]} []
                    None in
  let r := @run_backend Demo.env "simulator" true true true true 1%positive
                        "soc" [] s in
  let fl : dict := {[ "flow" := Some "sim" ]} in
  "icarus" ≠ ""
  ∧ ∃ answer tr,
      trace r.1
      = [Called (CallGetCore "soc") None; Called (CallGetTool fl) None;
         Called CallBuildRoot None; Called CallBuildRoot None;
         Called (CallGetEdaApi (<["tool" := Some "icarus"]> fl)
                               (Some "build/soc/src/")) answer]
        ++ tr
      ∧ Forall (λ root, root = Some "build/soc/src/") (export_roots tr)
      ∧ Forall (λ root, root = "build/soc/sim-icarus/") (work_roots tr)
      ∧ (r.2 = Ret tt →
         work_roots tr = ["build/soc/sim-icarus/"]
         ∧ export_roots tr = [Some "build/soc/src/"])
      ∧ r.2 = Ret tt.
Proof.
  intros w s r fl.
  assert (Hne : "icarus" ≠ "") by discriminate.
  split; [exact Hne|].
  destruct (@run_backend_roots Demo.env "simulator" true true true true
              1%positive "soc" [] s w "soc" w "icarus" w "build" w "build"
              eq_refl eq_refl Hne eq_refl eq_refl)
    as (answer & tr & Htr & Hexp & Hwork & Hret).
  exists answer, tr.
  split; [exact Htr|]. split; [exact Hexp|]. split; [exact Hwork|].
  split; [exact Hret|]. vm_compute. reflexivity.
Defined.

(** * Properties of the handlers that list, update and initialise *)

Section ShellReasoning.
Context `{Env} `{!Shell}.

Lemma xwp_ret {A} (a : A) Q xs : Q xs (Ret a) → xwp (mret a) Q xs.
Proof. done. Qed.

Lemma xwp_bind {A B} (m : X A) (k : A → X B) Q xs :
  xwp m (λ xs' o, match o with
                  | Ret a => xwp (k a) Q xs'
                  | Raise e => Q xs' (Raise e)
                  | Exit c => Q xs' (Exit c)
                  end) xs →
  xwp (m ≫= k) Q xs.
Proof.
  unfold xwp, mbind, X_bind, xbind. destruct (m xs) as [xs' [a|e|c]]; simpl; auto.
Qed.

Lemma xwp_try_except {A} (m : X A) h Q xs :
  xwp m (λ xs' o, match o with
                  | Raise e => match h e with
                               | Some k => xwp k Q xs'
                               | None => Q xs' (Raise e)
                               end
                  | _ => Q xs' o
                  end) xs →
  xwp (xtry_except m h) Q xs.
Proof.
  unfold xwp, xtry_except. destruct (m xs) as [xs' [a|e|c]]; simpl; auto.
  destruct (h e) as [k|]; auto.
Qed.

Lemma xwp_call {A} c (f : W → W * result A) Q xs :
  (∀ w a, f (xworld xs) = (w, Ok a) →
          Q (mkX w (xheap xs) (xtrace xs ++ [Outside c None]) (xarchbits xs))
            (Ret a)) →
  (∀ w e, f (xworld xs) = (w, Err e) →
          Q (mkX w (xheap xs) (xtrace xs ++ [Outside c (Some e)]) (xarchbits xs))
            (Raise e)) →
  xwp (xcall c f) Q xs.
Proof.
  intros Hok Herr. unfold xwp, xcall.
  destruct (f (xworld xs)) as [w [a|e]]; simpl; eauto.
Qed.

Lemma xwp_query {A} (f : W → A) Q xs :
  Q xs (Ret (f (xworld xs))) → xwp (xquery f) Q xs.
Proof. done. Qed.

Lemma xwp_emit ev Q xs :
  Q (mkX (xworld xs) (xheap xs) (xtrace xs ++ [Base ev]) (xarchbits xs)) (Ret tt) →
  xwp (embed (emit ev)) Q xs.
Proof. done. Qed.

Lemma xwp_exit {A} c (Q : xstate → outcome A → Prop) xs :
  Q xs (Exit c) → xwp (embed (exit c)) Q xs.
Proof. unfold xwp, embed, exit. cbn. rewrite app_nil_r. by destruct xs. Qed.

Lemma xwp_raise {A} e (Q : xstate → outcome A → Prop) xs :
  Q xs (Raise e) → xwp (embed (raise e)) Q xs.
Proof. unfold xwp, embed, raise. cbn. rewrite app_nil_r. by destruct xs. Qed.

Lemma xwp_base_call {A} c (f : W → W * result A) Q xs :
  (∀ w a, f (xworld xs) = (w, Ok a) →
          Q (mkX w (xheap xs) (xtrace xs ++ [Base (Called c None)]) (xarchbits xs))
            (Ret a)) →
  (∀ w e, f (xworld xs) = (w, Err e) →
          Q (mkX w (xheap xs) (xtrace xs ++ [Base (Called c (Some e))])
                 (xarchbits xs))
            (Raise e)) →
  xwp (embed (call c f)) Q xs.
Proof.
  intros Hok Herr. unfold xwp, embed, call. cbn.
  destruct (f (xworld xs)) as [w [a|e]]; simpl; eauto.
Qed.

Lemma xwp_new_dict d Q xs :
  Q (mkX (xworld xs) (<[fresh (dom (xheap xs)) := d]> (xheap xs)) (xtrace xs)
         (xarchbits xs)) (Ret (fresh (dom (xheap xs)))) →
  xwp (embed (new_dict d)) Q xs.
Proof. unfold xwp, embed, new_dict. cbn. by rewrite app_nil_r. Qed.

Lemma xwp_read_dict l Q xs :
  Q xs (Ret (default ∅ (xheap xs !! l))) → xwp (embed (read_dict l)) Q xs.
Proof. unfold xwp, embed, read_dict. cbn. rewrite app_nil_r. by destruct xs. Qed.

Lemma xwp_mono {A} (m : X A) (Q Q' : xstate → outcome A → Prop) xs :
  xwp m Q xs → (∀ xs' o, Q xs' o → Q' xs' o) → xwp m Q' xs.
Proof. unfold xwp. auto. Qed.

End ShellReasoning.

(** One step of symbolic execution of a program over the longer trace. *)
Ltac xwp_go :=
  lazymatch goal with
  | |- xwp (mbind _ _) _ _ => apply xwp_bind
  | |- xwp (mret _) _ _ => apply xwp_ret
  | |- xwp (xtry_except _ _) _ _ => apply xwp_try_except
  | |- xwp (xcall _ _) _ _ => apply xwp_call; [intros ? ? _ | intros ? ? _]
  | |- xwp (xquery _) _ _ => apply xwp_query
  | |- xwp (embed (logger _ _)) _ _ => apply xwp_emit
  | |- xwp (embed (print _)) _ _ => apply xwp_emit
  | |- xwp (embed (exit _)) _ _ => apply xwp_exit
  | |- xwp (embed (raise _)) _ _ => apply xwp_raise
  | |- xwp (embed (call _ _)) _ _ => apply xwp_base_call; [intros ? ? _ | intros ? ? _]
  | |- xwp (embed (new_dict _)) _ _ => apply xwp_new_dict
  | |- xwp (embed (read_dict _)) _ _ => apply xwp_read_dict
  end; cbn [fst snd xworld xheap xtrace xarchbits].

(** The steps up to the next call, branch or loop. *)
Ltac xwp_run :=
  repeat (lazymatch goal with
          | |- xwp (mbind _ _) _ _ => apply xwp_bind
          | |- xwp (mret _) _ _ => apply xwp_ret
          | |- xwp (xtry_except _ _) _ _ => apply xwp_try_except
          | |- xwp (xquery _) _ _ => apply xwp_query
          | |- xwp (embed (logger _ _)) _ _ => apply xwp_emit
          | |- xwp (embed (print _)) _ _ => apply xwp_emit
          | |- xwp (embed (exit _)) _ _ => apply xwp_exit
          | |- xwp (embed (raise _)) _ _ => apply xwp_raise
          | |- xwp (embed (new_dict _)) _ _ => apply xwp_new_dict
          | |- xwp (embed (read_dict _)) _ _ => apply xwp_read_dict
          end; cbn [fst snd xworld xheap xtrace xarchbits]).

Lemma string_rev_app (a b : string) :
  String.rev (a +:+ b) = String.rev b +:+ String.rev a.
Proof.
  induction a as [|x a IH].
  - by rewrite string_app_nil_r.
  - change (String.rev (String x (a +:+ b)) = String.rev b +:+ String.rev (String x a)).
    unfold String.rev at 1 3. cbn [String.rev_app].
    by rewrite !rev_app_append, IH, string_app_assoc.
Qed.

Lemma string_rev_involutive (a : string) : String.rev (String.rev a) = a.
Proof.
  induction a as [|x a IH]; [done|].
  unfold String.rev at 2. cbn [String.rev_app].
  rewrite rev_app_append, string_rev_app, IH. done.
Qed.

Lemma split_at_no_sep sep acc (x s : string) :
  has_char sep x = false →
  split_at sep acc (x +:+ s) = split_at sep (String.rev_app x acc) s.
Proof.
  revert acc. induction x as [|c x IH]; intros acc Hx; [done|].
  cbn [has_char] in Hx. apply orb_false_elim in Hx as [Hc Hx].
  change (split_at sep acc (String c (x +:+ s))
          = split_at sep (String.rev_app x (String c acc)) s).
  cbn [split_at]. rewrite Hc. by apply IH.
Qed.

(** Splitting what was joined gives the fields back. *)
Lemma split_join sep (l : list string) :
  l ≠ [] → Forall (λ field, has_char sep field = false) l →
  split sep (join (String sep "") l) = l.
Proof.
  unfold split. induction l as [|x l IH]; intros Hne Hall; [done|].
  apply Forall_cons in Hall as [Hx Hall].
  destruct l as [|y l].
  - cbn [join]. rewrite <- (string_app_nil_r x) at 1.
    rewrite split_at_no_sep by done. cbn [split_at].
    by rewrite rev_app_append, string_app_nil_r, string_rev_involutive.
  - rewrite join_cons_cons, split_at_no_sep by done.
    change (String sep "" +:+ join (String sep "") (y :: l))
      with (String sep (join (String sep "") (y :: l))).
    cbn [split_at]. rewrite Ascii.eqb_refl.
    rewrite rev_app_append, string_app_nil_r, string_rev_involutive.
    f_equal. by apply IH.
Qed.

Lemma string_length_app (a b : string) :
  String.length (a +:+ b) = (String.length a + String.length b)%nat.
Proof. induction a as [|x a IH]; [done|]. cbn. by rewrite <- IH. Qed.

Lemma replicate_char_length n c : String.length (replicate_char n c) = n.
Proof. induction n as [|n IH]; [done|]. cbn. by rewrite IH. Qed.

Lemma ljust_length s width :
  String.length (ljust s width) = Nat.max (String.length s) width.
Proof. unfold ljust. rewrite string_length_app, replicate_char_length. lia. Qed.

Lemma max_len_ge names name :
  name ∈ names → (String.length name ≤ max_len names)%nat.
Proof.
  unfold max_len. induction names as [|n names IH]; intros Hin.
  - by apply elem_of_nil in Hin.
  - apply elem_of_cons in Hin as [->|Hin]; cbn; [lia|].
    specialize (IH Hin). lia.
Qed.

Lemma getitem_is_Some {A} (items : list (string * A)) key :
  key ∈ items.*1 → is_Some (getitem items key).
Proof.
  induction items as [|[k v] items IH]; intros Hin; cbn in *.
  - by apply elem_of_nil in Hin.
  - destruct (String.eqb k key) eqn:Heq; [by eexists|].
    apply elem_of_cons in Hin as [->|Hin]; [|by apply IH].
    by rewrite String.eqb_refl in Heq.
Qed.

Lemma xprinted_app tr1 tr2 : xprinted (tr1 ++ tr2) = xprinted tr1 ++ xprinted tr2.
Proof.
  unfold xprinted. induction tr1 as [|[[]|] tr1 IH]; cbn; by rewrite ?IH.
Qed.

Lemma shell_calls_app tr1 tr2 :
  shell_calls (tr1 ++ tr2) = shell_calls tr1 ++ shell_calls tr2.
Proof. induction tr1 as [|[] tr1 IH]; cbn; by rewrite ?IH. Qed.

Lemma base_events_app tr1 tr2 :
  base_events (tr1 ++ tr2) = base_events tr1 ++ base_events tr2.
Proof. induction tr1 as [|[] tr1 IH]; cbn; by rewrite ?IH. Qed.

Section ShellFacts.
Context `{Env} `{!Shell}.

(** X13. [list_paths] prints one text, the registered roots one per line:
    for at least one root, none of them holding a line feed, splitting the
    printed text at the line feeds gives the roots back, in order. *)
Theorem list_paths_lines xs w roots :
  cm_get_cores_root (xworld xs) = (w, Ok roots) →
  roots ≠ [] →
  Forall (λ root, has_char (ascii_of_nat 10) root = false) roots →
  ∃ text,
    xtrace (list_paths xs).1
    = xtrace xs ++ [Outside CallGetCoresRoot None; Base (Printed text)]
    ∧ (list_paths xs).2 = Ret tt
    ∧ split (ascii_of_nat 10) text = roots.
Proof.
  intros Hroots Hne Hall. exists (join nl roots).
  unfold list_paths, mbind, X_bind, xbind, xcall. rewrite Hroots.
  cbn. rewrite <- app_assoc. split; [done|]. split; [done|].
  by apply split_join.
Qed.

(** The rows of [list_cores]. *)
Lemma print_rows_spec cores maxlen names :
  (∀ n, n ∈ names → is_Some (getitem cores n)) →
  ∀ xs, xwp (print_rows cores maxlen names)
    (λ xs' o, ∃ tr statuses,
       xtrace xs' = xtrace xs ++ tr
       ∧ xprinted tr
         = zip_with (λ n st, ljust n maxlen +:+ " : " +:+ st) names statuses
       ∧ Forall2 (λ name status,
                    ∃ core w1 w2, getitem cores name = Some core
                                  ∧ core_cache_status core w1 = (w2, Ok status))
                 (take (length statuses) names) statuses
       ∧ (o = Ret tt ∧ length statuses = length names
            ∧ shell_calls tr = (λ n, (CallCacheStatus n, None)) <$> names
          ∨ ∃ name e,
              o = Raise e ∧ names !! length statuses = Some name
              ∧ (∃ core w1 w2, getitem cores name = Some core
                               ∧ core_cache_status core w1 = (w2, Err e))
              ∧ shell_calls tr
                = ((λ n, (CallCacheStatus n, None)) <$> take (length statuses) names)
                  ++ [(CallCacheStatus name, Some e)])) xs.
Proof.
  induction names as [|name names IH]; intros Hin xs.
  - apply xwp_ret. exists [], []. rewrite app_nil_r.
    split; [done|]. split; [done|]. split; [constructor|]. by left.
  - cbn [print_rows]. destruct (Hin name) as [core Hcore]; [by left|].
    rewrite Hcore.
    do 3 xwp_go. apply xwp_call; [intros w a Hcall|intros w e Hcall]; cbn [xtrace].
    { do 2 xwp_go.
      eapply xwp_mono; [apply IH; intros; apply Hin; by right|].
      cbn [xtrace]. intros xs' o (tr & statuses & Htr & Hpr & Hans & Hout).
      exists ([Outside (CallCacheStatus name) None;
               Base (Printed (ljust name maxlen +:+ " : " +:+ a))] ++ tr),
             (a :: statuses).
      split; [by rewrite Htr, <- !app_assoc|].
      split; [by rewrite xprinted_app, Hpr|].
      split; [cbn; constructor; [by eexists _, _, _|done]|].
      rewrite shell_calls_app.
      destruct Hout as [(-> & Hlen & Hcalls)|(n & e & -> & Hn & Herr & Hcalls)].
      + left. cbn. by rewrite Hlen, Hcalls.
      + right. exists n, e. cbn. by rewrite Hcalls. }
    exists [Outside (CallCacheStatus name) (Some e)], []. cbn.
    split; [done|]. split; [done|]. split; [constructor|].
    right. exists name, e. split; [done|]. split; [done|].
    split; [by eexists _, _, _|done].
Qed.

Lemma Forall2_fmap_eq {A B} (R : A → B → Prop) (f : A → B) l k :
  Forall2 R l k → (∀ x y, R x y → y = f x) → k = f <$> l.
Proof.
  intros HR Hf. induction HR as [|x y l k Hxy _ IH]; [done|].
  cbn. by rewrite (Hf x y Hxy), IH.
Qed.

(** X14. [list_cores] on an empty set of cores: after the heading it asks
    for the roots, logs that no cores were found in them (joined by colons)
    or that no root is defined, and exits with status 1; no cache status is
    asked for.  An exception of [get_cores_root] passes through. *)
Theorem list_cores_empty xs w :
  cm_get_cores (xworld xs) = (w, Ok []) →
  xtrace (list_cores xs).1
  = xtrace xs
    ++ [Outside CallGetCores None; Base (Printed (nl +:+ "Available cores:" +:+ nl))]
    ++ match (cm_get_cores_root w).2 with
       | Ok [] => [Outside CallGetCoresRoot None;
                   Base (Logged ERROR "cores_root is not defined")]
       | Ok roots => [Outside CallGetCoresRoot None;
                      Base (Logged ERROR ("No cores found in " +:+ join ":" roots))]
       | Err e => [Outside CallGetCoresRoot (Some e)]
       end
  ∧ (list_cores xs).2 = match (cm_get_cores_root w).2 with
                        | Ok _ => Exit 1
                        | Err e => Raise e
                        end.
Proof.
  intros Hcores.
  unfold list_cores, mbind, X_bind, xbind, xcall. rewrite Hcores. cbn.
  destruct (cm_get_cores_root w) as [w' [[|root roots]|e]]; cbn;
    rewrite <- ?app_assoc; done.
Qed.

(** X15. [list_cores] on cores: the table has the heading, the column
    titles, a rule of eighty [=], and then one row per core name in sorted
    order, each the name padded to the longest name, [" : "] and a status
    that [cache_status()] answered for the core of that name; the statuses
    are asked for in that order, once per row, and a query that raises ends
    the table there with its exception.  When [cache_status()] answers by
    the core alone and never raises, the table is complete and every row
    shows the answer for its core. *)
Theorem list_cores_table xs w cores :
  cm_get_cores (xworld xs) = (w, Ok cores) →
  cores ≠ [] →
  let names := sorted cores.*1 in
  let maxlen := max_len cores.*1 in
  ∃ tr statuses,
    xtrace (list_cores xs).1 = xtrace xs ++ tr
    ∧ xprinted tr
      = [nl +:+ "Available cores:" +:+ nl;
         ljust "Core" maxlen +:+ "   Cache status";
         replicate_char 80 "="]
        ++ zip_with (λ n st, ljust n maxlen +:+ " : " +:+ st) names statuses
    ∧ Forall2 (λ name status,
                 ∃ core w1 w2, getitem cores name = Some core
                               ∧ core_cache_status core w1 = (w2, Ok status))
              (take (length statuses) names) statuses
    ∧ ((list_cores xs).2 = Ret tt ∧ length statuses = length cores
         ∧ shell_calls tr
           = (CallGetCores, None) :: ((λ n, (CallCacheStatus n, None)) <$> names)
       ∨ ∃ name e,
           (list_cores xs).2 = Raise e ∧ names !! length statuses = Some name
           ∧ (∃ core w1 w2, getitem cores name = Some core
                            ∧ core_cache_status core w1 = (w2, Err e))
           ∧ shell_calls tr
             = (CallGetCores, None)
               :: ((λ n, (CallCacheStatus n, None)) <$> take (length statuses) names)
               ++ [(CallCacheStatus name, Some e)])
    ∧ Sorted String.le names ∧ names ≡ₚ cores.*1
    ∧ (∀ name, name ∈ names → String.length (ljust name maxlen) = maxlen)
    ∧ ∀ status_of : Core → string,
        (∀ core w0, (core_cache_status core w0).2 = Ok (status_of core)) →
        (list_cores xs).2 = Ret tt
        ∧ statuses
          = (λ name, from_option status_of "" (getitem cores name)) <$> names.
Proof.
  intros Hcores Hne names maxlen.
  assert (Hperm : names ≡ₚ cores.*1) by apply merge_sort_Permutation.
  pose proof (print_rows_spec cores maxlen names) as Hrows.
  specialize (Hrows (λ n Hn, getitem_is_Some cores n
                               (proj1 (elem_of_Permutation_proper n _ _ Hperm) Hn))).
  specialize (Hrows (mkX w (xheap xs)
    (xtrace xs ++ [Outside CallGetCores None;
                   Base (Printed (nl +:+ "Available cores:" +:+ nl));
                   Base (Printed (ljust "Core" maxlen +:+ "   Cache status"));
                   Base (Printed (replicate_char 80 "="))]) (xarchbits xs))).
  unfold xwp in Hrows. cbn [xtrace] in Hrows.
  destruct Hrows as (tr & statuses & Htr & Hpr & Hans & Hout).
  assert (Hrun : list_cores xs
                 = print_rows cores maxlen names
                     (mkX w (xheap xs)
                        (xtrace xs ++ [Outside CallGetCores None;
                           Base (Printed (nl +:+ "Available cores:" +:+ nl));
                           Base (Printed (ljust "Core" maxlen +:+ "   Cache status"));
                           Base (Printed (replicate_char 80 "="))]) (xarchbits xs))).
  { unfold list_cores, mbind, X_bind, xbind, xcall. rewrite Hcores.
    destruct cores as [|c cores]; [done|]. cbn. by rewrite <- !app_assoc. }
  rewrite Hrun.
  eexists (_ ++ tr), statuses.
  split; [by rewrite Htr, <- app_assoc|].
  split; [by rewrite xprinted_app, Hpr|].
  split; [done|].
  split; [|split; [apply Sorted_merge_sort, _|split; [done|split]]].
  - rewrite shell_calls_app.
    destruct Hout as [(-> & Hlen & Hcalls)|(n & e & -> & Hn & Herr & Hcalls)].
    + left. split; [done|].
      split; [by rewrite Hlen, (Permutation_length Hperm), length_fmap|].
      by rewrite Hcalls.
    + right. exists n, e. split; [done|]. split; [done|]. split; [done|].
      by rewrite Hcalls.
  - intros name Hname. rewrite ljust_length.
    apply (elem_of_Permutation_proper name _ _ Hperm) in Hname.
    apply max_len_ge in Hname. unfold maxlen. lia.
  - intros status_of Hstatus.
    destruct Hout as [(-> & Hlen & _)|(n & e & _ & _ & (core & w1 & w2 & _ & Herr) & _)].
    + split; [done|].
      rewrite Hlen, firstn_all in Hans.
      apply (Forall2_fmap_eq _ _ _ _ Hans).
      intros name status (core & w1 & w2 & -> & Hcall). cbn.
      pose proof (Hstatus core w1) as Hs. rewrite Hcall in Hs. by injection Hs.
    + pose proof (Hstatus core w1) as Hs. by rewrite Herr in Hs.
Qed.

Lemma tool_queries_app tr1 tr2 :
  tool_queries (tr1 ++ tr2) = tool_queries tr1 ++ tool_queries tr2.
Proof. induction tr1 as [|[[]| |] tr1 IH]; cbn; by rewrite ?IH. Qed.

(** The loop of [list_systems]. *)
Lemma print_systems_spec cores :
  ∀ xs, xwp (print_systems cores)
    (λ xs' o, ∃ tr n,
       xtrace xs' = xtrace xs ++ tr
       ∧ xprinted tr `sublist_of` (λ c, name_str (core_name c.2)) <$> cores
       ∧ shell_calls tr = []
       ∧ tool_queries (base_events tr) = replicate n synth_flags
       ∧ (o = Ret tt ∧ n = length cores
          ∨ ∃ e, o = Raise e
                 ∧ last tr = Some (Base (Called (CallGetTool synth_flags) (Some e))))) xs.
Proof.
  induction cores as [|[key core] cores IH]; intros xs.
  - apply xwp_ret. exists [], 0%nat. rewrite app_nil_r.
    split; [done|]. split; [done|]. split; [done|]. split; [done|]. by left.
  - cbn [print_systems]. do 4 xwp_go. rewrite lookup_insert_eq. cbn [default].
    fold synth_flags. xwp_go.
    apply xwp_base_call; [intros w tool _|intros w e _]; cbn [xtrace].
    2:{ exists [Base (Called (CallGetTool synth_flags) (Some e))], 1%nat.
        split; [done|]. split; [apply sublist_nil_l|]. split; [done|].
        split; [done|]. right. by exists e. }
    xwp_go. destruct (no_tool tool); xwp_go.
    all: eapply xwp_mono; [apply IH|]; cbn [xtrace].
    all: intros xs' o (tr & n & Htr & Hpr & Hsh & Hq & Hout).
    + exists ([Base (Called (CallGetTool synth_flags) None)] ++ tr), (S n).
      split; [by rewrite Htr, <- !app_assoc|].
      split; [rewrite xprinted_app; by apply sublist_cons|].
      split; [by rewrite shell_calls_app, Hsh|].
      split; [by rewrite base_events_app, tool_queries_app, Hq|].
      destruct Hout as [[-> ->]|(e & -> & Hlast)]; [by left|right].
      exists e. split; [done|]. rewrite last_app, Hlast. done.
    + exists ([Base (Called (CallGetTool synth_flags) None);
               Base (Printed (name_str (core_name core)))] ++ tr), (S n).
      split; [by rewrite Htr, <- !app_assoc|].
      split; [rewrite xprinted_app; by apply sublist_skip|].
      split; [by rewrite shell_calls_app, Hsh|].
      split; [by rewrite base_events_app, tool_queries_app, Hq|].
      destruct Hout as [[-> ->]|(e & -> & Hlast)]; [by left|right].
      exists e. split; [done|]. rewrite last_app, Hlast. done.
Qed.

(** The loop of [list_systems] while [get_tool] answers by the core
    alone: [inv] holds of the worlds the loop goes through. *)
Lemma print_systems_exact (tool_of : Core → option string) (inv : W → Prop) cores :
  (∀ c w0, c ∈ cores.*2 → inv w0 →
           ∃ w1, core_get_tool c synth_flags w0 = (w1, Ok (tool_of c)) ∧ inv w1) →
  ∀ xs, inv (xworld xs) →
    xwp (print_systems cores)
      (λ xs' o,
         xtrace xs'
         = xtrace xs
           ++ concat ((λ c, Base (Called (CallGetTool synth_flags) None)
                            :: (if no_tool (tool_of c.2) then []
                                else [Base (Printed (name_str (core_name c.2)))]))
                      <$> cores)
         ∧ o = Ret tt) xs.
Proof.
  induction cores as [|[key core] cores IH]; intros Htool xs Hinv.
  - apply xwp_ret. cbn. by rewrite app_nil_r.
  - cbn [print_systems]. do 4 xwp_go. rewrite lookup_insert_eq. cbn [default].
    fold synth_flags. xwp_go.
    apply xwp_base_call; [intros w tool Hcall|intros w e Hcall]; cbn [xtrace].
    all: unfold id in Hcall; cbn [xworld] in Hcall.
    all: destruct (Htool core (xworld xs) ltac:(cbn; left) Hinv) as (w1 & Hc & Hinv1).
    all: rewrite Hcall in Hc.
    2: discriminate Hc.
    injection Hc as -> ->.
    xwp_go. cbn [fmap list_fmap concat snd].
    destruct (no_tool (tool_of core)); xwp_go.
    all: eapply xwp_mono;
      [apply IH; [intros c0 w0 Hc0; apply Htool; by right|exact Hinv1]|];
      cbn [xtrace].
    all: intros xs' o [-> ->]; split; [|done].
    all: by rewrite <- !app_assoc.
Qed.

(** X16. [list_systems] prints the heading first, then asks for the
    cores, and then only prints names of cores, in the order of the
    dictionary and each core at most once; every core it reaches is asked
    [get_tool] with the flags [{'flow': 'synth', 'tool': None}], all of
    them when it returns, and an exception of [get_tool] ends the listing
    with that call.  When [get_tool] answers by the core alone and never
    raises, in the worlds the listing goes through, every core is asked
    once, in order, and the names printed are exactly those of the cores
    whose answer is a tool. *)
Theorem list_systems_listing xs w cores :
  cm_get_cores (xworld xs) = (w, Ok cores) →
  ∃ tr n,
    xtrace (list_systems xs).1
    = xtrace xs ++ Base (Printed "Available systems:")
                   :: Outside CallGetCores None :: tr
    ∧ xprinted tr `sublist_of` (λ c, name_str (core_name c.2)) <$> cores
    ∧ shell_calls tr = []
    ∧ tool_queries (base_events tr) = replicate n synth_flags
    ∧ ((list_systems xs).2 = Ret tt ∧ n = length cores
       ∨ ∃ e, (list_systems xs).2 = Raise e
              ∧ last tr = Some (Base (Called (CallGetTool synth_flags) (Some e))))
    ∧ ∀ (tool_of : Core → option string) (inv : W → Prop),
        inv w →
        (∀ c w0, c ∈ cores.*2 → inv w0 →
                 ∃ w1, core_get_tool c synth_flags w0 = (w1, Ok (tool_of c))
                       ∧ inv w1) →
        (list_systems xs).2 = Ret tt
        ∧ tr = concat ((λ c, Base (Called (CallGetTool synth_flags) None)
                             :: (if no_tool (tool_of c.2) then []
                                 else [Base (Printed (name_str (core_name c.2)))]))
                       <$> cores)
        ∧ xprinted tr
          = (λ c, name_str (core_name c.2))
            <$> filter (λ c, no_tool (tool_of c.2) = false) cores.
Proof.
  intros Hcores.
  set (xs1 := mkX w (xheap xs)
                (xtrace xs ++ [Base (Printed "Available systems:");
                               Outside CallGetCores None])
                (xarchbits xs)).
  assert (Hrun : list_systems xs = print_systems cores xs1).
  { unfold list_systems, mbind, X_bind, xbind, xcall, embed. cbn.
    rewrite Hcores. by rewrite <- !app_assoc. }
  pose proof (print_systems_spec cores xs1) as Hloop.
  unfold xwp in Hloop. cbn [xtrace xs1] in Hloop.
  destruct Hloop as (tr & n & Htr & Hpr & Hsh & Hq & Hout).
  rewrite <- app_assoc in Htr. cbn [app] in Htr.
  rewrite Hrun.
  exists tr, n. split; [done|]. split; [done|]. split; [done|]. split; [done|].
  split; [done|].
  intros tool_of inv Hinv Htool.
  pose proof (print_systems_exact tool_of inv cores Htool xs1 Hinv) as [Hexact Hret].
  cbn [xtrace xs1] in Hexact. rewrite <- app_assoc in Hexact. cbn [app] in Hexact.
  rewrite Htr in Hexact. apply app_inv_head in Hexact.
  injection Hexact as ->.
  split; [done|]. split; [done|].
  clear. induction cores as [|[key core] cores IH]; [done|].
  cbn [fmap list_fmap concat snd]. rewrite filter_cons. cbn [snd].
  destruct (no_tool (tool_of core)).
  - rewrite decide_False by done. exact IH.
  - rewrite decide_True by done. cbn. f_equal. exact IH.
Qed.

Lemma pulls_guarded_nil roots : pulls_guarded roots [].
Proof. intros [|] ?????; done. Qed.

Lemma pulls_guarded_mono root roots tr :
  pulls_guarded roots tr → pulls_guarded (root :: roots) tr.
Proof.
  intros Hg pre cmd argv res post Htr.
  destruct (Hg _ _ _ _ _ Htr) as (r & pre' & ? & ?). exists r, pre'.
  split; [by right|done].
Qed.

Lemma pulls_guarded_check root roots r tr :
  pulls_guarded roots tr →
  pulls_guarded (root :: roots)
    (Outside (CallCheckOutput (git_origin_argv root)) r :: tr).
Proof.
  intros Hg pre cmd argv res post Htr.
  destruct pre as [|ev pre]; [done|]. injection Htr as <- Htr.
  destruct (Hg _ _ _ _ _ Htr) as (r' & pre' & ? & ? & ? & ->).
  exists r', (Outside (CallCheckOutput (git_origin_argv root)) r :: pre').
  split; [by right|done].
Qed.

Lemma pulls_guarded_pull root roots r tr :
  pulls_guarded roots tr →
  pulls_guarded (root :: roots)
    (Outside (CallCheckOutput (git_origin_argv root)) None
     :: Base (Logged INFO (format "Updating '{}'" root))
     :: Outside (CallLauncher "git" ["-C"; root; "pull"]) r :: tr).
Proof.
  intros Hg pre cmd argv res post Htr.
  destruct pre as [|ev0 [|ev1 [|ev2 pre]]]; [done|done|..].
  - cbn [app] in Htr. injection Htr as <- <- <- <- _ _.
    exists root, []. split; [by left|done].
  - injection Htr as <- <- <- Htr.
    destruct (Hg _ _ _ _ _ Htr) as (r' & pre' & ? & ? & ? & ->).
    eexists r', (_ :: _ :: _ :: pre').
    split; [by right|done].
Qed.

Lemma launches_app tr1 tr2 : launches (tr1 ++ tr2) = launches tr1 ++ launches tr2.
Proof. induction tr1 as [|[|[]] tr1 IH]; cbn; by rewrite ?IH. Qed.

Lemma update_roots_spec roots :
  ∀ xs, xwp (update_roots roots)
    (λ xs' o, ∃ tr,
       xtrace xs' = xtrace xs ++ tr
       ∧ pulls_guarded roots tr
       ∧ (o = Ret tt
          ∨ ∃ c e, o = Raise e ∧ is_called_process_error e = false
                   ∧ last tr = Some (Outside c (Some e)))
       ∧ ((∀ root w, root ∈ roots → os_path_exists root w = false) → tr = [])
       ∧ ((∀ root w w' out, root ∈ roots →
             subprocess_check_output (git_origin_argv root) w = (w', Ok out) →
             strip out ∉ repo_urls) →
          launches tr = [] ∧ base_events tr = [])) xs.
Proof.
  induction roots as [|root roots IH]; intros xs.
  - apply xwp_ret. exists []. rewrite app_nil_r.
    split; [done|]. split; [apply pulls_guarded_nil|]. split; [by left|done].
  - cbn [update_roots]. do 2 xwp_go.
    destruct (os_path_exists root (xworld xs)) eqn:Hfound.
    2:{ do 2 xwp_go. eapply xwp_mono; [apply IH|]; cbn [xtrace].
        intros xs' o (tr & Htr & Hg & Hout & Hmiss & Hforeign). exists tr.
        split; [done|]. split; [by apply pulls_guarded_mono|]. split; [done|].
        split; intros Hyp; [apply Hmiss|apply Hforeign]; intros;
          eapply Hyp; try done; by right. }
    assert (Hexists : ∀ tr : list xevent,
              (∀ root0 w, root0 ∈ root :: roots → os_path_exists root0 w = false) →
              tr = []).
    { intros tr Hyp. by rewrite (Hyp root (xworld xs)) in Hfound; [|left]. }
    do 3 xwp_go.
    apply xwp_call; [intros w out Hcheck|intros w e Hcheck]; cbn [xtrace].
    + destruct (decide (strip out ∈ (λ repo, repo.1.2) <$> REPOS)) as [Hin|Hout'].
      * assert (Hknown : (∀ root0 w0 w' out0, root0 ∈ root :: roots →
                  subprocess_check_output (git_origin_argv root0) w0 = (w', Ok out0) →
                  strip out0 ∉ repo_urls) → False).
        { intros Hyp. eapply Hyp; [by left|done..]. }
        do 2 xwp_go.
        apply xwp_call; [intros w' [] _|intros w' e _]; cbn [xtrace].
        -- eapply xwp_mono; [apply IH|]; cbn [xtrace].
           intros xs' o (tr & Htr & Hg & Hout & Hmiss & Hforeign).
           eexists (_ :: _ :: _ :: tr).
           split; [by rewrite Htr, <- !app_assoc|].
           split; [by apply pulls_guarded_pull|].
           split; [|split; [apply Hexists|by intros ?%Hknown]].
           destruct Hout as [->|(c & e & -> & Hcpe & Hlast)]; [by left|right].
           exists c, e. split; [done|]. split; [done|].
           by rewrite !last_cons, Hlast.
        -- destruct (is_called_process_error e) eqn:Hcpe.
           ++ xwp_go. eapply xwp_mono; [apply IH|]; cbn [xtrace].
              intros xs' o (tr & Htr & Hg & Hout & Hmiss & Hforeign).
              eexists (_ :: _ :: _ :: tr).
              split; [by rewrite Htr, <- !app_assoc|].
              split; [by apply pulls_guarded_pull|].
              split; [|split; [apply Hexists|by intros ?%Hknown]].
              destruct Hout as [->|(c & e' & -> & Hcpe' & Hlast)]; [by left|right].
              exists c, e'. split; [done|]. split; [done|].
              by rewrite !last_cons, Hlast.
           ++ eexists [_; _; _]. split; [by rewrite <- !app_assoc|].
              split; [apply pulls_guarded_pull, pulls_guarded_nil|].
              split; [right; by eexists _, e|].
              split; [apply Hexists|by intros ?%Hknown].
      * xwp_go. eapply xwp_mono; [apply IH|]; cbn [xtrace].
        intros xs' o (tr & Htr & Hg & Hout & Hmiss & Hforeign).
        eexists (_ :: tr).
        split; [by rewrite Htr, <- !app_assoc|].
        split; [by apply pulls_guarded_check|].
        split; [|split; [apply Hexists|]].
        -- destruct Hout as [->|(c & e' & -> & Hcpe' & Hlast)]; [by left|right].
           exists c, e'. split; [done|]. split; [done|].
           by rewrite !last_cons, Hlast.
        -- intros Hyp. cbn. apply Hforeign. intros. eapply Hyp; try done. by right.
    + destruct (is_called_process_error e) eqn:Hcpe.
      * xwp_go. eapply xwp_mono; [apply IH|]; cbn [xtrace].
        intros xs' o (tr & Htr & Hg & Hout & Hmiss & Hforeign).
        eexists (_ :: tr).
        split; [by rewrite Htr, <- !app_assoc|].
        split; [by apply pulls_guarded_check|].
        split; [|split; [apply Hexists|]].
        -- destruct Hout as [->|(c & e' & -> & Hcpe' & Hlast)]; [by left|right].
           exists c, e'. split; [done|]. split; [done|].
           by rewrite !last_cons, Hlast.
        -- intros Hyp. cbn. apply Hforeign. intros. eapply Hyp; try done. by right.
      * eexists [_]. split; [done|].
        split; [apply pulls_guarded_check, pulls_guarded_nil|].
        split; [right; by eexists _, e|].
        split; [apply Hexists|done].
Qed.

(** X17. [update] never exits and swallows every [CalledProcessError] of
    git: it returns, or it raises the exception of the call it made last,
    and a [CalledProcessError] can only come out of [get_cores_root]. *)
Theorem update_swallows xs :
  ∃ tr,
    xtrace (update xs).1 = xtrace xs ++ tr
    ∧ ((update xs).2 = Ret tt
       ∨ ∃ c e, (update xs).2 = Raise e
                ∧ last tr = Some (Outside c (Some e))
                ∧ (is_called_process_error e = true → c = CallGetCoresRoot)).
Proof.
  unfold update, mbind, X_bind, xbind, xcall.
  destruct (cm_get_cores_root (xworld xs)) as [w [roots|e]]; cbn [fst snd].
  2:{ eexists [_]. split; [done|]. right. by eexists _, e. }
  pose proof (update_roots_spec roots
    (mkX w (xheap xs) (xtrace xs ++ [Outside CallGetCoresRoot None]) (xarchbits xs)))
    as (tr & Htr & _ & Hout & _).
  cbn [xtrace] in Htr. rewrite <- app_assoc in Htr.
  eexists. split; [exact Htr|].
  destruct Hout as [->|(c & e & -> & Hcpe & Hlast)]; [by left|right].
  exists c, e. split; [done|]. cbn [app]. split; [by rewrite last_cons, Hlast|].
  by rewrite Hcpe.
Qed.

(** X18. [update] pulls only what it checked: every launch is
    [git -C root pull] for one of the registered roots, made right after
    git gave the origin of that root and the update was logged. *)
Theorem update_pulls xs w roots :
  cm_get_cores_root (xworld xs) = (w, Ok roots) →
  ∃ tr,
    xtrace (update xs).1 = xtrace xs ++ Outside CallGetCoresRoot None :: tr
    ∧ pulls_guarded roots tr.
Proof.
  intros Hroots. unfold update, mbind, X_bind, xbind, xcall. rewrite Hroots.
  pose proof (update_roots_spec roots
    (mkX w (xheap xs) (xtrace xs ++ [Outside CallGetCoresRoot None]) (xarchbits xs)))
    as (tr & Htr & Hg & _).
  cbn [xtrace] in Htr. rewrite <- app_assoc in Htr. by exists tr.
Qed.

(** X19. [update] leaves foreign checkouts alone: when the origin git
    gives for a root, stripped of white space, is never one of the URLs of
    [REPOS], nothing is launched and nothing is logged. *)
Theorem update_foreign xs w roots :
  cm_get_cores_root (xworld xs) = (w, Ok roots) →
  (∀ root w w' out, root ∈ roots →
     subprocess_check_output (git_origin_argv root) w = (w', Ok out) →
     strip out ∉ repo_urls) →
  ∃ tr,
    xtrace (update xs).1 = xtrace xs ++ tr
    ∧ launches tr = [] ∧ base_events tr = [].
Proof.
  intros Hroots Hforeign. unfold update, mbind, X_bind, xbind, xcall. rewrite Hroots.
  pose proof (update_roots_spec roots
    (mkX w (xheap xs) (xtrace xs ++ [Outside CallGetCoresRoot None]) (xarchbits xs)))
    as (tr & Htr & _ & _ & _ & Hf).
  cbn [xtrace] in Htr. rewrite <- app_assoc in Htr.
  destruct (Hf Hforeign) as [Hl Hb].
  eexists. split; [exact Htr|]. by cbn; rewrite Hl, Hb.
Qed.

(** X20. [update] skips the roots that are not on disk: when none of the
    registered roots exists, it asks for the roots, calls nothing else and
    returns. *)
Theorem update_missing xs w roots :
  cm_get_cores_root (xworld xs) = (w, Ok roots) →
  (∀ root w, root ∈ roots → os_path_exists root w = false) →
  xtrace (update xs).1 = xtrace xs ++ [Outside CallGetCoresRoot None]
  ∧ (update xs).2 = Ret tt.
Proof.
  intros Hroots Hmissing. unfold update, mbind, X_bind, xbind, xcall. rewrite Hroots.
  pose proof (update_roots_spec roots
    (mkX w (xheap xs) (xtrace xs ++ [Outside CallGetCoresRoot None]) (xarchbits xs)))
    as (tr & Htr & _ & Hout & Hm & _).
  cbn [xtrace] in Htr. rewrite (Hm Hmissing) in Htr, Hout.
  rewrite app_nil_r in Htr.
  split; [done|]. by destruct Hout as [->|(c & e & _ & _ & ?)].
Qed.

Lemma prompts_app tr1 tr2 : prompts (tr1 ++ tr2) = prompts tr1 ++ prompts tr2.
Proof. induction tr1 as [|[|[]] tr1 IH]; cbn; by rewrite ?IH. Qed.

Lemma file_calls_app tr1 tr2 :
  file_calls (tr1 ++ tr2) = file_calls tr1 ++ file_calls tr2.
Proof. induction tr1 as [|[|[]] tr1 IH]; cbn; by rewrite ?IH. Qed.

Lemma cloned_app tr1 tr2 : cloned (tr1 ++ tr2) = cloned tr1 ++ cloned tr2.
Proof.
  induction tr1 as [|[|[| | | | |cmd [|? [|? [|? [|]]]]| | |] []] tr1 IH];
    cbn; by rewrite ?IH.
Qed.

Lemma repos_visited_nil y data repos : repos_visited y data repos [].
Proof.
  split; [done|]. split; [apply not_elem_of_nil|]. split; [apply prefix_nil|].
  exists ((λ repo, path_join [data; repo.1.1]) <$> repos).
  split; [by rewrite length_fmap|]. split; [done|]. apply sublist_nil_l.
Qed.

Lemma repos_visited_cons y data repo repos dir block tr :
  repos_visited y data repos tr →
  file_calls block = [] → ready ∉ block →
  prompts block
  = (if y then [] else [init_prompt repo (path_join [data; repo.1.1])]) →
  (launches block).*1 `sublist_of` [("git", ["clone"; repo.1.2; dir])] →
  (y = true → dir = path_join [data; repo.1.1]) →
  repos_visited y data (repo :: repos) (block ++ tr).
Proof.
  intros (Hfc & Hrd & Hpr & dirs & Hlen & Hdef & Hsub) Hfcb Hrdb Hprb Hlab Hdir.
  split; [by rewrite file_calls_app, Hfc, Hfcb|].
  split; [rewrite not_elem_of_app; by split|].
  split.
  { rewrite prompts_app, Hprb. destruct y; [done|].
    by apply (prefix_app [_]). }
  exists (dir :: dirs).
  split; [by cbn; rewrite Hlen|].
  split; [intros Hy; cbn; by rewrite Hdir, Hdef|].
  rewrite launches_app, fmap_app.
  by apply (sublist_app _ [_]).
Qed.

(** The loop of [init] over the repositories. *)
Lemma init_repos_spec y data repos :
  ∀ paths xs, xwp (init_repos y data repos paths)
    (λ xs' o, ∃ tr,
       xtrace xs' = xtrace xs ++ tr
       ∧ repos_visited y data repos tr
       ∧ match o with
         | Ret paths' =>
             paths' = paths ++ cloned tr
             ∧ (y = false → prompts tr = repo_prompts data repos)
         | Exit c =>
             c = 1
             ∧ ∃ pre url dir msg,
                 tr = pre ++ [Outside (CallLauncher "git" ["clone"; url; dir])
                                      (Some (RuntimeError msg));
                              Base (Logged ERROR ("Init failed: " +:+ msg))]
         | Raise e => ∃ c, last tr = Some (Outside c (Some e))
         end) xs.
Proof.
  induction repos as [|repo repos IH]; intros paths xs.
  - apply xwp_ret. exists []. rewrite !app_nil_r.
    split; [done|]. split; [apply repos_visited_nil|]. done.
  - cbn [init_repos].
    set (default_dir := path_join [data; repo.1.1]).
    apply xwp_bind.
    (* the answer to the prompt *)
    apply (xwp_mono _ (λ xs1 o, ∃ block,
      xtrace xs1 = xtrace xs ++ block
      ∧ file_calls block = [] ∧ (ready ∉ block) ∧ launches block = []
      ∧ cloned block = []
      ∧ prompts block = (if y then [] else [init_prompt repo default_dir])
      ∧ match o with
        | Ret answer => y = true → answer = None
        | Raise e => last block = Some (Outside (CallInput (init_prompt repo default_dir))
                                                (Some e))
        | Exit _ => False
        end)).
    { destruct y.
      - apply xwp_ret. exists []. rewrite app_nil_r.
        split; [done|]. split; [done|]. split; [apply not_elem_of_nil|]. done.
      - apply xwp_bind.
        apply xwp_call; [intros w text _|intros w e _]; cbn [xtrace].
        + apply xwp_ret. eexists [_]. split; [done|]. split; [done|].
          split; [|done]. rewrite not_elem_of_cons.
          split; [discriminate|apply not_elem_of_nil].
        + eexists [_]. split; [done|]. split; [done|].
          split; [|done]. rewrite not_elem_of_cons.
          split; [discriminate|apply not_elem_of_nil]. }
    intros xs1 o (block & Hxs1 & Hfc & Hrd & Hla & Hcl & Hpr & Hout).
    destruct o as [answer|e|c]; [|clear IH|done].
    2:{ exists block. split; [done|]. split; [|by eexists].
        rewrite <- (app_nil_r block).
        eapply (repos_visited_cons _ _ _ _ default_dir);
          [apply repos_visited_nil|done|done|done| |done].
        rewrite Hla. apply sublist_nil_l. }
    rename Hout into Hans.
    set (cores_root := if truthy (from_option PStr PNone answer)
                       then default "" answer else default_dir).
    assert (Hdir : y = true → cores_root = default_dir).
    { intros Hy. unfold cores_root. by rewrite (Hans Hy). }
    clearbody cores_root. clear Hans.
    assert (Hstep : ∀ tail tr : list xevent,
      repos_visited y data repos tr →
      file_calls tail = [] → ready ∉ tail → prompts tail = [] →
      (launches tail).*1 `sublist_of` [("git", ["clone"; repo.1.2; cores_root])] →
      repos_visited y data (repo :: repos) ((block ++ tail) ++ tr)).
    { intros tail tr Hvis Hft Hrt Hpt Hlt.
      eapply (repos_visited_cons _ _ _ _ cores_root); [done|..|done].
      - by rewrite file_calls_app, Hfc.
      - by rewrite not_elem_of_app.
      - by rewrite prompts_app, Hpr, Hpt, app_nil_r.
      - by rewrite launches_app, Hla. }
    apply xwp_bind, xwp_query. cbn [xworld].
    destruct (os_path_exists cores_root (xworld xs1)).
    + apply xwp_bind, xwp_bind, xwp_emit, xwp_ret.
      eapply xwp_mono; [apply IH|]; cbn [xtrace].
      intros xs' o (tr & Htr & Hvis & Hout).
      exists ((block ++ [Base (Logged WARNING (format "'{}' already exists"
                                                     cores_root))]) ++ tr).
      split; [by rewrite Htr, Hxs1, <- !app_assoc|].
      split.
      { apply Hstep; [done|done| |done|apply sublist_nil_l].
        rewrite not_elem_of_cons. split; [discriminate|apply not_elem_of_nil]. }
      destruct o as [paths'|e|c].
      * destruct Hout as [-> Hp]. rewrite !cloned_app, Hcl.
        split; [done|]. intros ->. rewrite !prompts_app, Hpr, (Hp eq_refl). done.
      * destruct Hout as [c Hlast]. exists c. by rewrite last_app, Hlast.
      * destruct Hout as [-> (pre & url & dir & msg & ->)].
        split; [done|]. eexists (_ ++ pre), url, dir, msg.
        apply app_assoc.
    + apply xwp_bind. cbn zeta. apply xwp_bind, xwp_emit. cbn [xtrace].
      apply xwp_bind, xwp_try_except.
      apply xwp_call; [intros w [] _|intros w e _]; cbn [xtrace].
      * apply xwp_ret.
        eapply xwp_mono; [apply IH|]; cbn [xtrace].
        intros xs' o (tr & Htr & Hvis & Hout).
        exists ((block ++ [Base (Logged INFO (format "Initializing {}" repo.1.1));
                           Outside (CallLauncher "git" ["clone"; repo.1.2; cores_root])
                                   None]) ++ tr).
        split; [by rewrite Htr, Hxs1, <- !app_assoc|].
        split.
        { apply Hstep; [done|done| |done|done].
          rewrite !not_elem_of_cons.
          split; [discriminate|]. split; [discriminate|apply not_elem_of_nil]. }
        destruct o as [paths'|e|c].
        -- destruct Hout as [-> Hp]. rewrite !cloned_app, Hcl. cbn.
           split; [by rewrite <- app_assoc|]. intros ->.
           rewrite !prompts_app, Hpr, (Hp eq_refl). done.
        -- destruct Hout as [c Hlast]. exists c. by rewrite last_app, Hlast.
        -- destruct Hout as [-> (pre & url & dir & msg & ->)].
           split; [done|]. eexists (_ ++ pre), url, dir, msg.
           apply app_assoc.
      * clear IH.
        assert (Hend : ∀ tail : list xevent,
          file_calls tail = [] → ready ∉ tail → prompts tail = [] →
          (launches tail).*1 `sublist_of` [("git", ["clone"; repo.1.2; cores_root])] →
          repos_visited y data (repo :: repos) (block ++ tail)).
        { intros tail ? ? ? ?. rewrite <- (app_nil_r (block ++ tail)).
          apply Hstep; [apply repos_visited_nil|done..]. }
        assert (Hother : ∃ tr,
          (xtrace xs1 ++ [Base (Logged INFO (format "Initializing {}" repo.1.1))])
          ++ [Outside (CallLauncher "git" ["clone"; repo.1.2; cores_root]) (Some e)]
          = xtrace xs ++ tr
          ∧ repos_visited y data (repo :: repos) tr
          ∧ ∃ c, last tr = Some (Outside c (Some e))).
        { exists (block ++
                  [Base (Logged INFO (format "Initializing {}" repo.1.1));
                   Outside (CallLauncher "git" ["clone"; repo.1.2; cores_root])
                           (Some e)]).
          split; [by rewrite Hxs1, <- !app_assoc|].
          split; [|eexists; by rewrite last_app].
          apply Hend; [done| |done|done].
          rewrite !not_elem_of_cons.
          split; [discriminate|]. split; [discriminate|apply not_elem_of_nil]. }
        destruct e as [msg| | | | | | | |]; cbn [exn_str]; try exact Hother.
        clear Hother.
        apply xwp_bind, xwp_emit, xwp_exit. cbn [xtrace].
        exists (block ++
                [Base (Logged INFO (format "Initializing {}" repo.1.1));
                 Outside (CallLauncher "git" ["clone"; repo.1.2; cores_root])
                         (Some (RuntimeError msg));
                 Base (Logged ERROR ("Init failed: " +:+ msg))]).
        split; [by rewrite Hxs1, <- !app_assoc|].
        split.
        { apply Hend; [done| |done|done].
          rewrite !not_elem_of_cons.
          split; [discriminate|]. split; [discriminate|].
          split; [discriminate|apply not_elem_of_nil]. }
        split; [done|].
        exists (block ++ [Base (Logged INFO (format "Initializing {}" repo.1.1))]),
               repo.1.2, cores_root, msg.
        by rewrite <- app_assoc.
Qed.

(** As [xwp_mono], keeping what the run gave. *)
Lemma xwp_run_mono {A} (m : X A) (Q Q' : xstate → outcome A → Prop) xs :
  xwp m Q xs → (∀ xs' o, m xs = (xs', o) → Q xs' o → Q' xs' o) → xwp m Q' xs.
Proof. unfold xwp. intros HQ Himp. apply Himp; [by destruct (m xs)|done]. Qed.

(** [init] as a whole: the loop over the repositories, then the
    configuration file. *)
Lemma init_spec y xs :
  xwp (init y)
    (λ xs' o, ∃ tr1 tr2,
       let w := xworld (init_repos y (xdg_data_home (xworld xs)) REPOS [] xs).1 in
       let cfg := config_file w in
       xtrace xs' = xtrace xs ++ tr1 ++ tr2
       ∧ repos_visited y (xdg_data_home (xworld xs)) REPOS tr1
       ∧ prompts tr2 = [] ∧ launches tr2 = [] ∧ cloned tr2 = []
       ∧ match o with
         | Ret _ =>
             (y = false → prompts tr1 = repo_prompts (xdg_data_home (xworld xs)) REPOS)
             ∧ last tr2 = Some ready
             ∧ (if os_path_exists cfg w then
                  file_calls tr2 = []
                  ∧ Base (Logged WARNING (format "'{}' already exists" cfg)) ∈ tr2
                else
                  file_calls tr2
                  = (if os_path_exists (os_path_dirname cfg) w then []
                     else [CallMakedirs (os_path_dirname cfg)])
                    ++ [CallOpen cfg; CallWrite cfg ("[main]" +:+ nl);
                        CallWrite cfg (format ("cores_root = {}" +:+ nl)
                                              (join " " (cloned tr1)))])
         | Exit c =>
             c = 1 ∧ tr2 = []
             ∧ ∃ pre url dir msg,
                 tr1 = pre ++ [Outside (CallLauncher "git" ["clone"; url; dir])
                                       (Some (RuntimeError msg));
                               Base (Logged ERROR ("Init failed: " +:+ msg))]
         | Raise e =>
             (∃ c, last (tr1 ++ tr2) = Some (Outside c (Some e))) ∧ ready ∉ tr2
         end) xs.
Proof.
  unfold init.
  apply xwp_bind, xwp_query. apply xwp_bind, xwp_query. cbn zeta.
  fold (xdg_data_home (xworld xs)).
  apply xwp_bind.
  eapply xwp_run_mono; [apply init_repos_spec|].
  intros xs2 o Hrun (tr1 & Htr1 & Hvis & Hout).
  rewrite Hrun. cbn [fst].
  destruct o as [paths|e|c].
  2:{ exists tr1, []. rewrite !app_nil_r. destruct Hout as [c Hlast].
      split; [done|]. split; [done|]. split; [done|]. split; [done|].
      split; [done|]. split; [by exists c|apply not_elem_of_nil]. }
  2:{ exists tr1, []. rewrite !app_nil_r. destruct Hout as [-> Hlast].
      split; [done|]. split; [done|]. split; [done|]. split; [done|].
      split; [done|]. done. }
  destruct Hout as [Hpaths Hprompts]. cbn [app] in Hpaths.
  apply xwp_bind, xwp_query. apply xwp_bind, xwp_query. cbn zeta.
  fold (config_file (xworld xs2)).
  set (cfg := config_file (xworld xs2)).
  apply (xwp_mono _ (λ xs' o, ∃ tr2,
    xtrace xs' = xtrace xs2 ++ tr2
    ∧ prompts tr2 = [] ∧ launches tr2 = [] ∧ cloned tr2 = []
    ∧ match o with
      | Ret _ =>
          last tr2 = Some ready
          ∧ (if os_path_exists cfg (xworld xs2) then
               file_calls tr2 = []
               ∧ Base (Logged WARNING (format "'{}' already exists" cfg)) ∈ tr2
             else
               file_calls tr2
               = (if os_path_exists (os_path_dirname cfg) (xworld xs2) then []
                  else [CallMakedirs (os_path_dirname cfg)])
                 ++ [CallOpen cfg; CallWrite cfg ("[main]" +:+ nl);
                     CallWrite cfg (format ("cores_root = {}" +:+ nl)
                                           (join " " paths))])
      | Exit _ => False
      | Raise e => (∃ c, last tr2 = Some (Outside c (Some e))) ∧ ready ∉ tr2
      end)).
  2:{ intros xs' o (tr2 & Htr2 & Hp2 & Hl2 & Hc2 & Hout).
      exists tr1, tr2.
      split; [by rewrite Htr2, Htr1, <- app_assoc|].
      split; [done|]. split; [done|]. split; [done|]. split; [done|].
      destruct o as [[]|e|c]; [|..|done].
      - rewrite <- Hpaths. by destruct Hout.
      - destruct Hout as [[c Hlast] Hnr]. split; [|done].
        exists c. by rewrite last_app, Hlast. }
  clear dependent tr1.
  apply xwp_bind, xwp_query. cbn [xworld].
  destruct (os_path_exists cfg (xworld xs2)).
  { apply xwp_bind, xwp_emit, xwp_emit. cbn [xtrace].
    eexists [_; _]. split; [by rewrite <- !app_assoc|].
    split; [done|]. split; [done|]. split; [done|]. split; [done|].
    split; [done|]. by left. }
  apply xwp_bind, xwp_bind, xwp_emit. cbn [xtrace].
  apply xwp_bind, xwp_query. cbn [xworld].
  apply xwp_bind.
  destruct (os_path_exists (os_path_dirname cfg) (xworld xs2)).
  - apply xwp_ret.
    apply xwp_bind, xwp_call; [intros w1 [] _|intros w1 e _]; cbn [xtrace].
    2:{ eexists [_; _]. split; [by rewrite <- !app_assoc|].
        split; [done|]. split; [done|]. split; [done|].
        split; [by eexists|]. rewrite !not_elem_of_cons.
        split; [discriminate|]. split; [discriminate|apply not_elem_of_nil]. }
    apply xwp_bind, xwp_call; [intros w2 [] _|intros w2 e _]; cbn [xtrace].
    2:{ eexists [_; _; _]. split; [by rewrite <- !app_assoc|].
        split; [done|]. split; [done|]. split; [done|].
        split; [by eexists|]. rewrite !not_elem_of_cons.
        split; [discriminate|]. split; [discriminate|].
        split; [discriminate|apply not_elem_of_nil]. }
    apply xwp_call; [intros w3 [] _|intros w3 e _]; cbn [xtrace].
    2:{ eexists [_; _; _; _]. split; [by rewrite <- !app_assoc|].
        split; [done|]. split; [done|]. split; [done|].
        split; [by eexists|]. rewrite !not_elem_of_cons.
        split; [discriminate|]. split; [discriminate|].
        split; [discriminate|]. split; [discriminate|apply not_elem_of_nil]. }
    apply xwp_emit. cbn [xtrace].
    eexists [_; _; _; _; _]. split; [by rewrite <- !app_assoc|].
    split; [done|]. split; [done|]. split; [done|]. split; [done|].
    done.
  - apply xwp_call; [intros w0 [] _|intros w0 e _]; cbn [xtrace].
    2:{ eexists [_; _]. split; [by rewrite <- !app_assoc|].
        split; [done|]. split; [done|]. split; [done|].
        split; [by eexists|]. rewrite !not_elem_of_cons.
        split; [discriminate|]. split; [discriminate|apply not_elem_of_nil]. }
    apply xwp_bind, xwp_call; [intros w1 [] _|intros w1 e _]; cbn [xtrace].
    2:{ eexists [_; _; _]. split; [by rewrite <- !app_assoc|].
        split; [done|]. split; [done|]. split; [done|].
        split; [by eexists|]. rewrite !not_elem_of_cons.
        split; [discriminate|]. split; [discriminate|].
        split; [discriminate|apply not_elem_of_nil]. }
    apply xwp_bind, xwp_call; [intros w2 [] _|intros w2 e _]; cbn [xtrace].
    2:{ eexists [_; _; _; _]. split; [by rewrite <- !app_assoc|].
        split; [done|]. split; [done|]. split; [done|].
        split; [by eexists|]. rewrite !not_elem_of_cons.
        split; [discriminate|]. split; [discriminate|].
        split; [discriminate|]. split; [discriminate|apply not_elem_of_nil]. }
    apply xwp_call; [intros w3 [] _|intros w3 e _]; cbn [xtrace].
    2:{ eexists [_; _; _; _; _]. split; [by rewrite <- !app_assoc|].
        split; [done|]. split; [done|]. split; [done|].
        split; [by eexists|]. rewrite !not_elem_of_cons.
        split; [discriminate|]. split; [discriminate|].
        split; [discriminate|]. split; [discriminate|].
        split; [discriminate|apply not_elem_of_nil]. }
    apply xwp_emit. cbn [xtrace].
    eexists [_; _; _; _; _; _]. split; [by rewrite <- !app_assoc|].
    split; [done|]. split; [done|]. split; [done|]. split; [done|].
    done.
Qed.

Lemma visited_launch y data repos tr l :
  repos_visited y data repos tr → l ∈ launches tr →
  ∃ repo dir, repo ∈ repos ∧ l.1 = ("git", ["clone"; repo.1.2; dir]).
Proof.
  intros (_ & _ & _ & dirs & _ & _ & Hsub) Hl.
  assert (Hin : l.1 ∈ (launches tr).*1) by (by apply list_elem_of_fmap_2).
  eapply elem_of_sublist in Hin; [|exact Hsub].
  apply elem_of_zip_with in Hin as (repo & dir & -> & Hrepo & _).
  by exists repo, dir.
Qed.

(** X21. [init] exits only after a clone failed with a RuntimeError: the
    status is 1, the run ends with that launch of [git clone] for a URL of
    [REPOS] and the record [Init failed: ...] with the text of the error, no
    directory or file was made or written, and the closing record is not
    logged. *)
Theorem init_exit y xs c :
  (init y xs).2 = Exit c →
  c = 1
  ∧ ∃ tr url dir msg,
      xtrace (init y xs).1
      = xtrace xs
        ++ tr ++ [Outside (CallLauncher "git" ["clone"; url; dir])
                          (Some (RuntimeError msg));
                  Base (Logged ERROR ("Init failed: " +:+ msg))]
      ∧ url ∈ repo_urls
      ∧ file_calls tr = []
      ∧ ready ∉ tr.
Proof.
  intros Hexit.
  destruct (init_spec y xs) as (tr1 & tr2 & Htr & Hvis & _ & _ & _ & Hout).
  rewrite Hexit in Hout.
  destruct Hout as (-> & -> & pre & url & dir & msg & ->).
  split; [done|]. exists pre, url, dir, msg.
  split; [by rewrite Htr, app_nil_r|].
  split.
  { destruct (visited_launch _ _ _ _
                ("git", ["clone"; url; dir], Some (RuntimeError msg)) Hvis)
      as (repo & dir' & Hrepo & [= -> _]).
    - rewrite launches_app. apply elem_of_app. right. by left.
    - by apply (list_elem_of_fmap_2 (λ repo, repo.1.2)). }
  destruct Hvis as (Hfc & Hrd & _).
  rewrite file_calls_app in Hfc. apply app_eq_nil in Hfc as [Hfc _].
  split; [done|]. by apply not_elem_of_app in Hrd as [Hrd _].
Qed.

(** X22. When [init] returns, whether it writes the configuration file
    is decided by [os.path.exists] on
    [$XDG_CONFIG_HOME/fusesoc/fusesoc.conf] (or [~/.config/...]) after the
    repositories were visited.  If the file is there, it is reported as
    existing and no directory or file is made or written.  If not, [init]
    makes the directory of the file exactly when [os.path.exists] does not
    find it, then opens the file and writes two lines to it: [[main]] and
    [cores_root = ] followed by the directories cloned in this run, in order
    and separated by blanks. *)
Theorem init_config y xs :
  (init y xs).2 = Ret tt →
  let w := xworld (init_repos y (xdg_data_home (xworld xs)) REPOS [] xs).1 in
  let cfg := config_file w in
  ∃ tr,
    xtrace (init y xs).1 = xtrace xs ++ tr
    ∧ if os_path_exists cfg w then
        file_calls tr = []
        ∧ Base (Logged WARNING (format "'{}' already exists" cfg)) ∈ tr
      else
        file_calls tr
        = (if os_path_exists (os_path_dirname cfg) w then []
           else [CallMakedirs (os_path_dirname cfg)])
          ++ [CallOpen cfg; CallWrite cfg ("[main]" +:+ nl);
              CallWrite cfg (format ("cores_root = {}" +:+ nl)
                                    (join " " (cloned tr)))].
Proof.
  intros Hret w cfg.
  destruct (init_spec y xs)
    as (tr1 & tr2 & Htr & Hvis & _ & _ & Hcl & Hout).
  rewrite Hret in Hout. destruct Hout as (_ & _ & Hfile).
  destruct Hvis as (Hfc & _).
  exists (tr1 ++ tr2). split; [done|].
  rewrite file_calls_app, Hfc, cloned_app, Hcl, app_nil_r. cbn [app].
  fold w cfg in Hfile.
  destruct (os_path_exists cfg w); [|done].
  destruct Hfile as [Hnone Hwarn].
  split; [done|]. apply elem_of_app. by right.
Qed.

(** X23. The record [FuseSoC is ready to use!] is logged exactly when
    [init] returns, and it is then the last thing that happened. *)
Theorem init_ready y xs :
  ∃ tr,
    xtrace (init y xs).1 = xtrace xs ++ tr
    ∧ (ready ∈ tr ↔ (init y xs).2 = Ret tt)
    ∧ ((init y xs).2 = Ret tt → last tr = Some ready).
Proof.
  destruct (init_spec y xs)
    as (tr1 & tr2 & Htr & (_ & Hrd & _) & _ & _ & _ & Hout).
  exists (tr1 ++ tr2). split; [done|].
  destruct ((init y xs).2) as [[]|e|c].
  - destruct Hout as (_ & Hlast & _).
    split; [|intros _; by rewrite last_app, Hlast].
    split; [done|]. intros _. apply elem_of_app. right.
    by apply last_Some_elem_of.
  - destruct Hout as [_ Hrd2].
    split; [|done]. split; [|done].
    intros [?|?]%elem_of_app; done.
  - destruct Hout as (_ & -> & _).
    split; [|done]. split; [|done].
    intros [?|?%elem_of_nil]%elem_of_app; done.
Qed.

(** X24. With [-y], [init] asks nothing: it shows no prompt, and what it
    launches are clones of the repositories of [REPOS], in their order, each
    into the directory of its name under [XDG_DATA_HOME], or under
    [~/.local/share/fusesoc] when that is not set. *)
Theorem init_yes xs :
  ∃ tr,
    xtrace (init true xs).1 = xtrace xs ++ tr
    ∧ prompts tr = []
    ∧ (launches tr).*1
      `sublist_of` (λ repo, ("git", ["clone"; repo.1.2;
                                     path_join [xdg_data_home (xworld xs); repo.1.1]]))
                     <$> REPOS.
Proof.
  destruct (init_spec true xs)
    as (tr1 & tr2 & Htr & (_ & _ & Hpr & dirs & _ & Hdirs & Hsub)
        & Hp2 & Hl2 & _).
  exists (tr1 ++ tr2). split; [done|].
  rewrite prompts_app, Hp2, launches_app, Hl2, !app_nil_r.
  split; [by apply prefix_nil_inv|].
  by rewrite (Hdirs eq_refl) in Hsub.
Qed.

(** X25. Without [-y], [init] asks for one directory per repository of
    [REPOS], in their order and naming the default directory; it shows all
    the prompts when it returns, and whatever is answered, every launch is a
    [git clone] of a repository of [REPOS]. *)
Theorem init_prompts xs :
  ∃ tr,
    xtrace (init false xs).1 = xtrace xs ++ tr
    ∧ prompts tr `prefix_of` repo_prompts (xdg_data_home (xworld xs)) REPOS
    ∧ ((init false xs).2 = Ret tt →
       prompts tr = repo_prompts (xdg_data_home (xworld xs)) REPOS)
    ∧ Forall (λ l, ∃ repo dir,
                repo ∈ REPOS ∧ l.1 = ("git", ["clone"; repo.1.2; dir]))
             (launches tr).
Proof.
  destruct (init_spec false xs)
    as (tr1 & tr2 & Htr & Hvis & Hp2 & Hl2 & _ & Hout).
  exists (tr1 ++ tr2). split; [done|].
  rewrite prompts_app, Hp2, launches_app, Hl2, !app_nil_r.
  split; [by destruct Hvis as (_ & _ & Hpr & _)|].
  split.
  - intros Hret. rewrite Hret in Hout. destruct Hout as [Hall _]. by apply Hall.
  - apply Forall_forall. intros l Hl. by eapply visited_launch.
Qed.

End ShellFacts.

(** ** The theorems above at the scripted shell *)

Lemma list_paths_lines_witness :
  let xs := DemoShell.xstate0 in
  let roots := ["/cfg/cores"; "/cli"] in
  @cm_get_cores_root Demo.env (DemoShell.shell DemoShell.small) (xworld xs)
  = (DemoShell.world, Ok roots)
  ∧ roots ≠ []
  ∧ Forall (λ root, has_char (ascii_of_nat 10) root = false) roots
  ∧ ∃ text,
      xtrace (@list_paths Demo.env (DemoShell.shell DemoShell.small) xs).1
      = xtrace xs ++ [Outside CallGetCoresRoot None; Base (Printed text)]
      ∧ (@list_paths Demo.env (DemoShell.shell DemoShell.small) xs).2 = Ret tt
      ∧ split (ascii_of_nat 10) text = roots.
Proof.
  intros xs roots.
  assert (H1 : @cm_get_cores_root Demo.env (DemoShell.shell DemoShell.small) (xworld xs)
               = (DemoShell.world, Ok roots)) by reflexivity.
  assert (H2 : roots ≠ []) by discriminate.
  assert (H3 : Forall (λ root, has_char (ascii_of_nat 10) root = false) roots)
    by (repeat constructor).
  split; [exact H1|]. split; [exact H2|]. split; [exact H3|].
  exact (@list_paths_lines Demo.env (DemoShell.shell DemoShell.small)
           xs DemoShell.world roots H1 H2 H3).
Defined.

Lemma list_cores_empty_witness :
  let xs := DemoShell.xstate0 in
  @cm_get_cores Demo.env (DemoShell.shell DemoShell.empty) (xworld xs)
  = (DemoShell.world, Ok [])
  ∧ (@list_cores Demo.env (DemoShell.shell DemoShell.empty) xs).2 = Exit 1.
Proof.
  intros xs.
  assert (H1 : @cm_get_cores Demo.env (DemoShell.shell DemoShell.empty) (xworld xs)
               = (DemoShell.world, Ok [])) by reflexivity.
  split; [exact H1|].
  exact (proj2 (@list_cores_empty Demo.env (DemoShell.shell DemoShell.empty)
                  xs DemoShell.world H1)).
Defined.

Lemma list_cores_table_witness :
  let xs := DemoShell.xstate0 in
  let cores : list (string * @Core Demo.env) := [("uart", "uart"); ("gpio", "gpio")] in
  @cm_get_cores Demo.env (DemoShell.shell DemoShell.small) (xworld xs)
  = (DemoShell.world, Ok cores)
  ∧ cores ≠ []
  ∧ ∃ tr statuses,
      xtrace (@list_cores Demo.env (DemoShell.shell DemoShell.small) xs).1 = xtrace xs ++ tr
      ∧ xprinted tr
        = [nl +:+ "Available cores:" +:+ nl;
           ljust "Core" (max_len cores.*1) +:+ "   Cache status";
           replicate_char 80 "="]
          ++ zip_with (λ n st, ljust n (max_len cores.*1) +:+ " : " +:+ st)
                      (sorted cores.*1) statuses
      ∧ (@list_cores Demo.env (DemoShell.shell DemoShell.small) xs).2 = Ret tt
      ∧ statuses = ["local"; "local"].
Proof.
  intros xs cores.
  assert (H1 : @cm_get_cores Demo.env (DemoShell.shell DemoShell.small) (xworld xs)
               = (DemoShell.world, Ok cores)) by reflexivity.
  assert (H2 : cores ≠ []) by discriminate.
  split; [exact H1|]. split; [exact H2|].
  destruct (@list_cores_table Demo.env (DemoShell.shell DemoShell.small)
              xs DemoShell.world cores H1 H2)
    as (tr & statuses & Htr & Hpr & Hrest).
  exists tr, statuses. split; [exact Htr|]. split; [exact Hpr|].
  exact (proj2 (proj2 (proj2 (proj2 (proj2 Hrest)))) (λ _, "local") (λ _ _, eq_refl)).
Defined.

Lemma list_systems_listing_witness :
  let xs := DemoShell.xstate0 in
  let cores : list (string * @Core Demo.env) := [("uart", "uart"); ("gpio", "gpio")] in
  @cm_get_cores Demo.env (DemoShell.shell DemoShell.small) (xworld xs)
  = (DemoShell.world, Ok cores)
  ∧ ∃ tr,
      xtrace (@list_systems Demo.env (DemoShell.shell DemoShell.small) xs).1
      = xtrace xs ++ Base (Printed "Available systems:")
                     :: Outside CallGetCores None :: tr
      ∧ (@list_systems Demo.env (DemoShell.shell DemoShell.small) xs).2 = Ret tt
      ∧ tr = [Base (Called (CallGetTool synth_flags) None); Base (Printed "uart");
              Base (Called (CallGetTool synth_flags) None); Base (Printed "gpio")]
      ∧ xprinted tr = ["uart"; "gpio"].
Proof.
  intros xs cores.
  assert (H1 : @cm_get_cores Demo.env (DemoShell.shell DemoShell.small) (xworld xs)
               = (DemoShell.world, Ok cores)) by reflexivity.
  split; [exact H1|].
  destruct (@list_systems_listing Demo.env (DemoShell.shell DemoShell.small)
              xs DemoShell.world cores H1)
    as (tr & n & Htr & _ & _ & _ & _ & Hexact).
  exists tr. split; [exact Htr|].
  apply (Hexact (λ _, Some "icarus") (λ w, w = DemoShell.world)); [reflexivity|].
  intros c w0 _ ->. exists DemoShell.world. split; reflexivity.
Defined.

Lemma update_pulls_witness :
  let xs := DemoShell.xstate0 in
  let roots := ["/cores"] in
  @cm_get_cores_root Demo.env (DemoShell.shell DemoShell.checkout) (xworld xs)
  = (DemoShell.world, Ok roots)
  ∧ launches (xtrace (@update Demo.env (DemoShell.shell DemoShell.checkout) xs).1)
    = [("git", ["-C"; "/cores"; "pull"], None)]
  ∧ ∃ tr,
      xtrace (@update Demo.env (DemoShell.shell DemoShell.checkout) xs).1
      = xtrace xs ++ Outside CallGetCoresRoot None :: tr
      ∧ pulls_guarded roots tr.
Proof.
  intros xs roots.
  assert (H1 : @cm_get_cores_root Demo.env (DemoShell.shell DemoShell.checkout)
                 (xworld xs)
               = (DemoShell.world, Ok roots)) by reflexivity.
  split; [exact H1|]. split; [vm_compute; reflexivity|].
  exact (@update_pulls Demo.env (DemoShell.shell DemoShell.checkout)
           xs DemoShell.world roots H1).
Defined.

Lemma update_foreign_witness :
  let xs := DemoShell.xstate0 in
  let roots := ["/cfg/cores"; "/cli"] in
  @cm_get_cores_root Demo.env (DemoShell.shell DemoShell.small) (xworld xs)
  = (DemoShell.world, Ok roots)
  ∧ (∀ root w w' out, root ∈ roots →
       @subprocess_check_output Demo.env (DemoShell.shell DemoShell.small)
         (git_origin_argv root) w = (w', Ok out) →
       strip out ∉ repo_urls)
  ∧ ∃ tr,
      xtrace (@update Demo.env (DemoShell.shell DemoShell.small) xs).1 = xtrace xs ++ tr
      ∧ launches tr = [] ∧ base_events tr = [].
Proof.
  intros xs roots.
  assert (H1 : @cm_get_cores_root Demo.env (DemoShell.shell DemoShell.small) (xworld xs)
               = (DemoShell.world, Ok roots)) by reflexivity.
  assert (H2 : ∀ root w w' out, root ∈ roots →
            @subprocess_check_output Demo.env (DemoShell.shell DemoShell.small)
              (git_origin_argv root) w = (w', Ok out) →
            strip out ∉ repo_urls).
  { intros root w w' out _ [= _ <-].
    apply (bool_decide_unpack _). vm_compute. reflexivity. }
  split; [exact H1|]. split; [exact H2|].
  exact (@update_foreign Demo.env (DemoShell.shell DemoShell.small)
           xs DemoShell.world roots H1 H2).
Defined.

Lemma update_missing_witness :
  let xs := DemoShell.xstate0 in
  let roots := ["/cfg/cores"] in
  @cm_get_cores_root Demo.env (DemoShell.shell DemoShell.offline) (xworld xs)
  = (DemoShell.world, Ok roots)
  ∧ (∀ root w, root ∈ roots →
       @os_path_exists Demo.env (DemoShell.shell DemoShell.offline) root w = false)
  ∧ xtrace (@update Demo.env (DemoShell.shell DemoShell.offline) xs).1 = xtrace xs ++ [Outside CallGetCoresRoot None]
  ∧ (@update Demo.env (DemoShell.shell DemoShell.offline) xs).2 = Ret tt.
Proof.
  intros xs roots.
  assert (H1 : @cm_get_cores_root Demo.env (DemoShell.shell DemoShell.offline) (xworld xs)
               = (DemoShell.world, Ok roots)) by reflexivity.
  assert (H2 : ∀ root w, root ∈ roots →
            @os_path_exists Demo.env (DemoShell.shell DemoShell.offline) root w = false)
    by reflexivity.
  split; [exact H1|]. split; [exact H2|].
  exact (@update_missing Demo.env (DemoShell.shell DemoShell.offline)
           xs DemoShell.world roots H1 H2).
Defined.

Lemma init_exit_witness :
  let xs := DemoShell.xstate0 in
  (@init Demo.env (DemoShell.shell DemoShell.offline) true xs).2 = Exit 1
  ∧ ∃ tr url dir msg,
      xtrace (@init Demo.env (DemoShell.shell DemoShell.offline) true xs).1
      = xtrace xs
        ++ tr ++ [Outside (CallLauncher "git" ["clone"; url; dir])
                          (Some (RuntimeError msg));
                  Base (Logged ERROR ("Init failed: " +:+ msg))]
      ∧ url ∈ repo_urls
      ∧ file_calls tr = []
      ∧ ready ∉ tr.
Proof.
  intros xs.
  assert (H1 : (@init Demo.env (DemoShell.shell DemoShell.offline) true xs).2 = Exit 1)
    by (vm_compute; reflexivity).
  split; [exact H1|].
  exact (proj2 (@init_exit Demo.env (DemoShell.shell DemoShell.offline)
                  true xs 1 H1)).
Defined.

Lemma init_config_witness :
  let xs := DemoShell.xstate0 in
  let cfg := "/home/user/.config//fusesoc/fusesoc.conf/" in
  (@init Demo.env (DemoShell.shell DemoShell.empty) false xs).2 = Ret tt
  ∧ ∃ tr,
      xtrace (@init Demo.env (DemoShell.shell DemoShell.empty) false xs).1
      = xtrace xs ++ tr
      ∧ file_calls tr
        = [CallMakedirs (cfg +:+ "/.."); CallOpen cfg;
           CallWrite cfg ("[main]" +:+ nl);
           CallWrite cfg (format ("cores_root = {}" +:+ nl) (join " " (cloned tr)))].
Proof.
  intros xs cfg.
  assert (H1 : (@init Demo.env (DemoShell.shell DemoShell.empty) false xs).2 = Ret tt)
    by (vm_compute; reflexivity).
  split; [exact H1|].
  exact (@init_config Demo.env (DemoShell.shell DemoShell.empty) false xs H1).
Defined.
